(** * Parallel MLPs: model-id assignment, the parallel engine and the
    multi-model confusion matrix

    A shallow embedding of
    [parallel_mlps/autoconstructive/model/parallel_mlp.py] and
    [parallel_mlps/autoconstructive/utils/multi_confusion_matrix.py].

    Conventions.
    - Python [int] arguments are [Z]; list lengths, list positions and model
      ids (which the code only ever produces by counting up from 0) are [nat].
    - A Python exception is a value of [exn]; code that may raise returns a
      [result].
    - A dense tensor is a shape together with an index function.
    - The scalars of the parameter tensors are an abstract type with its
      zero, addition and multiplication: nothing below depends on the
      arithmetic laws of floating point numbers, sums are taken left to right.
*)

From Stdlib Require Import String ZArith Lia Bool Arith PeanoNat List.
Import ListNotations.

Set Implicit Arguments.

(** ** Exceptions and results *)

Inductive exn : Type :=
| ValueError (msg : string)
| RuntimeError (msg : string)
| IndexError
| ZeroDivisionError
| OutOfFuel.  (* artefact of the embedding of [while]; never produced, see
                 [build_model_ids_Ok] *)

Inductive result (T : Type) : Type :=
| Ok (v : T)
| Raise (e : exn).

Arguments Ok {T} v.
Arguments Raise {T} e.

Definition bind {T U : Type} (r : result T) (k : T -> result U) : result U :=
  match r with
  | Ok v => k v
  | Raise e => Raise e
  end.

Notation "x <- r ;; k" := (bind r (fun x => k))
  (at level 61, r at next level, right associativity).
Notation "' p <- r ;; k" := (bind r (fun p => k))
  (at level 61, p pattern, r at next level, right associativity).

(** ** Activation functions

    An activation module is known by the name of its class (what
    [a.__class__.__name__] returns) and acts elementwise on scalars. *)

Record Activation (A : Type) : Type := mkActivation {
  class_name : string;
  act_fn : A -> A
}.

(** ** [torch.arange(start, end, step).tolist()] on integers

    The bounds and the step are Python integers; the model is that of
    arguments [torch.arange] can take, which fit a 64-bit integer. *)

Definition ceil_div (a b : Z) : Z := ((a + b - 1) / b)%Z.

Definition arange_msg_step : string := "step must be nonzero".
Definition arange_msg_sign : string :=
  "upper bound and larger bound inconsistent with step sign".

Definition arange (start stop step : Z) : result (list Z) :=
  if (step =? 0)%Z then Raise (RuntimeError arange_msg_step)
  else if (0 <? step)%Z then
    if (stop <? start)%Z then Raise (RuntimeError arange_msg_sign)
    else Ok (map (fun i => (start + Z.of_nat i * step)%Z)
                 (seq 0 (Z.to_nat (ceil_div (stop - start) step))))
  else
    if (start <? stop)%Z then Raise (RuntimeError arange_msg_sign)
    else Ok (map (fun i => (start + Z.of_nat i * step)%Z)
                 (seq 0 (Z.to_nat (ceil_div (start - stop) (- step))))).

(** ** [build_model_ids] *)

Definition msg_no_activation : string :=
  "At least one activation function must be passed. Try `nn.Identity()` if you want no activation.".
Definition msg_not_unique : string :=
  "activation_functions must have only unique values.".

(** The body of [for structure in neurons_structure]: append [structure]
    copies of [i] ([[i] * structure] is empty when [structure <= 0]) and
    advance [i]. *)
Definition for_structures (neurons_structure : list Z) (i : nat) (acc : list nat)
  : nat * list nat :=
  fold_left
    (fun (st : nat * list nat) (structure : Z) =>
       (S (fst st), snd st ++ repeat (fst st) (Z.to_nat structure)))
    neurons_structure (i, acc).

(** [while i < num_parallel_mlps: for ...]. *)
Fixpoint while_fill (fuel : nat) (num_parallel_mlps : Z) (neurons_structure : list Z)
  (i : nat) (acc : list nat) : option (nat * list nat) :=
  if (Z.of_nat i <? num_parallel_mlps)%Z then
    match fuel with
    | O => None
    | S fuel' =>
        let st := for_structures neurons_structure i acc in
        while_fill fuel' num_parallel_mlps neurons_structure (fst st) (snd st)
    end
  else Some (i, acc).

(** [[k for k, _ in groupby(l)]]: one key per run of equal elements. *)
Fixpoint groupby_keys (l : list nat) : list nat :=
  match l with
  | [] => []
  | x :: t =>
      match t with
      | [] => [x]
      | y :: _ => if x =? y then groupby_keys t else x :: groupby_keys t
      end
  end.

(** [l * n] on Python lists. *)
Definition list_times {T : Type} (l : list T) (n : Z) : list T :=
  concat (repeat l (Z.to_nat n)).

Definition build_model_ids {A : Type} (repetitions : Z)
  (activation_functions : list (Activation A))
  (min_neurons max_neurons step : Z)
  : result (list nat * list nat * list nat) :=
  if length activation_functions =? 0 then Raise (ValueError msg_no_activation)
  else
    let activation_names := map (@class_name A) activation_functions in
    if negb (length (nodup string_dec activation_names) =? length activation_names)
    then Raise (ValueError msg_not_unique)
    else
      let num_activations := length activation_functions in
      neurons_structure <- arange min_neurons (max_neurons + 1) step ;;
      let num_different_neurons_structures := length neurons_structure in
      let num_parallel_mlps :=
        (Z.of_nat num_different_neurons_structures * Z.of_nat num_activations
         * repetitions)%Z in
      match while_fill (Z.to_nat num_parallel_mlps) num_parallel_mlps
                       neurons_structure 0 [] with
      | None => Raise OutOfFuel
      | Some (_, hidden_neuron__model_id) =>
          let output__model_id := groupby_keys hidden_neuron__model_id in
          let output__architecture_id :=
            list_times
              (firstn (num_activations * num_different_neurons_structures)
                      output__model_id)
              repetitions in
          Ok (hidden_neuron__model_id, output__model_id, output__architecture_id)
      end.

(** ** The parallel engine [ParallelMLPs] *)

(** The errors of the torch operations are told apart by their messages,
    kept without the sizes torch writes into them. *)
Definition msg_split : string :=
  "split_size can only be 0 if dimension size is 0".
Definition msg_sub_tensors : string :=
  "sub_tensors with different number of parameters per activation".
Definition msg_cat : string := "torch.cat(): expected a non-empty list of Tensors".
Definition msg_broadcast : string :=
  "The size of tensor a must match the size of tensor b at non-singleton dimension 1".
Definition msg_linear : string := "mat1 and mat2 shapes cannot be multiplied".
Definition msg_scatter : string := "index out of bounds in scatter_add_".
Definition msg_floor_divide : string := "ZeroDivisionError".
Definition msg_extract : string := "model_id > num_uniqe_models".

(** [sorted(list(set(l)))]. *)
Definition sorted_set (l : list nat) : list nat :=
  filter (fun m => existsb (Nat.eqb m) l) (seq 0 (S (list_max l))).

(** [np.bincount(l)]: one count per value from 0 to the largest one. *)
Definition bincount (l : list nat) : list nat :=
  match l with
  | [] => []
  | _ => map (count_occ Nat.eq_dec l) (seq 0 (S (list_max l)))
  end.

(** [t.cumsum(0)], the running sum starting from [acc]. *)
Fixpoint cumsum_from (acc : nat) (l : list nat) : list nat :=
  match l with
  | [] => []
  | x :: t => (acc + x) :: cumsum_from (acc + x) t
  end.

Definition cumsum (l : list nat) : list nat := cumsum_from 0 l.

(** [torch.Tensor.split(split_size, dim)]: the offset and the size of each
    chunk; at least one chunk, the last one possibly shorter. *)
Definition split_sizes (dim_size split_size : nat) : result (list (nat * nat)) :=
  if split_size =? 0 then
    if dim_size =? 0 then Ok [(0, 0)] else Raise (RuntimeError msg_split)
  else
    Ok (map (fun k => (k * split_size, Nat.min split_size (dim_size - k * split_size)))
            (seq 0 (Nat.max ((dim_size + split_size - 1) / split_size) 1))).

(** The size of one dimension of a broadcast of two tensors. *)
Definition broadcast_dim (a b : nat) : option nat :=
  if a =? b then Some a
  else if a =? 1 then Some b
  else if b =? 1 then Some a
  else None.

(** The position read in a dimension of size [d] for position [i] of the
    broadcast result. *)
Definition bidx (d i : nat) : nat := if d =? 1 then 0 else i.

Section Engine.

Variable A : Type.
Variable zero : A.
Variable add mul : A -> A -> A.

Record Tensor2 : Type := mkTensor2 {
  rows : nat;
  cols : nat;
  at2 : nat -> nat -> A
}.

Record Tensor3 : Type := mkTensor3 {
  dim0 : nat;
  dim1 : nat;
  dim2 : nat;
  at3 : nat -> nat -> nat -> A
}.

(** The state of an engine. The index arrays and what [__init__] derives
    from them are fixed at construction; the four parameter tensors are
    what [reset_parameters] draws and what training overwrites, so they
    are arguments of the constructor below: every value they can hold is
    covered. The engine is built with [bias=True]. *)
Record ParallelMLPs : Type := mkParallelMLPs {
  in_features : nat;
  out_features : nat;
  activations : list (Activation A);
  hidden_neuron__model_id : list nat;
  output__model_id : list nat;
  output__architecture_id : list nat;
  total_hidden_neurons : nat;
  unique_model_ids : list nat;
  model_id__num_hidden_neurons : list nat;
  model_id__start_idx : list nat;
  model_id__end_idx : list nat;
  num_unique_models : nat;
  num_activations : nat;
  activations_split : nat;
  hidden_layer_weight : nat -> nat -> A; (* [total_hidden_neurons, in_features] *)
  hidden_layer_bias : nat -> A;          (* [total_hidden_neurons] *)
  weight : nat -> nat -> A;              (* [out_features, total_hidden_neurons] *)
  bias : nat -> nat -> A                 (* [num_unique_models, out_features] *)
}.

(** [ParallelMLPs.__init__]. *)
Definition ParallelMLPs_init (in_features out_features : nat)
  (hidden_neuron__model_id output__model_id output__architecture_id : list nat)
  (activations : list (Activation A))
  (hidden_layer_weight : nat -> nat -> A) (hidden_layer_bias : nat -> A)
  (weight : nat -> nat -> A) (bias : nat -> nat -> A)
  : result ParallelMLPs :=
  let total_hidden_neurons := length hidden_neuron__model_id in
  let unique_model_ids := sorted_set hidden_neuron__model_id in
  let model_id__num_hidden_neurons := bincount hidden_neuron__model_id in
  let model_id__start_idx :=
    0 :: removelast (cumsum model_id__num_hidden_neurons) in
  let model_id__end_idx :=
    map (fun se => fst se + snd se)
        (combine model_id__start_idx model_id__num_hidden_neurons) in
  let num_unique_models := length unique_model_ids in
  let num_activations := length activations in
  if num_activations =? 0 then Raise ZeroDivisionError
  else
    let activations_split := total_hidden_neurons / num_activations in
    Ok (mkParallelMLPs in_features out_features activations
          hidden_neuron__model_id output__model_id output__architecture_id
          total_hidden_neurons unique_model_ids model_id__num_hidden_neurons
          model_id__start_idx model_id__end_idx num_unique_models
          num_activations activations_split
          hidden_layer_weight hidden_layer_bias weight bias).

(** The sum [x_0 * w_0 + ... + x_(n-1) * w_(n-1)], taken left to right. *)
Definition dot (n : nat) (x w : nat -> A) : A :=
  fold_left (fun acc i => add acc (mul (x i) (w i))) (seq 0 n) zero.

(** [nn.Linear(in_f, out_f)] with weight [W] and bias [b], applied to a
    batch. *)
Definition Linear (in_f out_f : nat) (W : nat -> nat -> A) (b : nat -> A)
  (x : Tensor2) : result Tensor2 :=
  if cols x =? in_f then
    Ok (mkTensor2 (rows x) out_f (fun r j => add (dot in_f (at2 x r) (W j)) (b j)))
  else Raise (RuntimeError msg_linear).

(** The chunks [x.split(split_size, dim=1)] returns. *)
Definition split_dim1 (x : Tensor2) (split_size : nat) : result (list Tensor2) :=
  chunks <- split_sizes (cols x) split_size ;;
  Ok (map (fun c => mkTensor2 (rows x) (snd c) (fun r j => at2 x r (fst c + j)))
          chunks).

Fixpoint cat_at (ts : list Tensor2) (r j : nat) : A :=
  match ts with
  | [] => zero
  | t :: rest => if j <? cols t then at2 t r j else cat_at rest r (j - cols t)
  end.

(** [torch.cat(ts, dim=1)] of tensors with the same number of rows. *)
Definition cat_dim1 (ts : list Tensor2) : result Tensor2 :=
  match ts with
  | [] => Raise (RuntimeError msg_cat)
  | t :: _ => Ok (mkTensor2 (rows t) (list_sum (map cols ts)) (cat_at ts))
  end.

(** The loop of [apply_activations] over [zip(self.activations, tensors)]. *)
Fixpoint apply_activations_loop (sub_tensor_out_features : nat)
  (pairs : list (Activation A * Tensor2)) : result (list Tensor2) :=
  match pairs with
  | [] => Ok []
  | (act, sub_tensor) :: rest =>
      if negb (cols sub_tensor =? sub_tensor_out_features)
      then Raise (RuntimeError msg_sub_tensors)
      else
        output <- apply_activations_loop sub_tensor_out_features rest ;;
        Ok (mkTensor2 (rows sub_tensor) (cols sub_tensor)
              (fun r j => act_fn act (at2 sub_tensor r j)) :: output)
  end.

Definition apply_activations (self : ParallelMLPs) (x : Tensor2) : result Tensor2 :=
  tensors <- split_dim1 x (activations_split self) ;;
  match tensors with
  | [] => Raise IndexError
  | t0 :: _ =>
      let sub_tensor_out_features := cols t0 in
      output <- apply_activations_loop sub_tensor_out_features
                  (combine (activations self) tensors) ;;
      cat_dim1 output
  end.

(** [self.hidden_layer(x)]. *)
Definition hidden_layer (self : ParallelMLPs) (x : Tensor2) : result Tensor2 :=
  Linear (in_features self) (total_hidden_neurons self)
    (hidden_layer_weight self) (hidden_layer_bias self) x.

(** [x[:, :, None] * self.weight.T[None, :, :]]: dimension 1 of the two
    factors is broadcast. *)
Definition mul_weight (self : ParallelMLPs) (x : Tensor2) : result Tensor3 :=
  match broadcast_dim (cols x) (total_hidden_neurons self) with
  | None => Raise (RuntimeError msg_broadcast)
  | Some d =>
      Ok (mkTensor3 (rows x) d (out_features self)
            (fun r j o =>
               mul (at2 x r (bidx (cols x) j))
                   (weight self o (bidx (total_hidden_neurons self) j))))
  end.

(** [torch.zeros(batch, M, out).scatter_add_(1, index, src)] where
    [index[r, j, o] = hidden_neuron__model_id[j]]: entry [(r, m, o)] is the
    sum, in index order, of the [src[r, j, o]] with
    [hidden_neuron__model_id[j] = m]. *)
Definition scatter_sum (ids : list nat) (src : nat -> A) (m : nat) : A :=
  fold_left
    (fun acc j => if nth j ids 0 =? m then add acc (src j) else acc)
    (seq 0 (length ids)) zero.

Definition scatter_add_zeros (self : ParallelMLPs) (batch_size : nat) (src : Tensor3)
  : result Tensor3 :=
  let ids := hidden_neuron__model_id self in
  if negb (length ids <=? dim1 src) then Raise (RuntimeError msg_scatter)
  else if (batch_size =? 0) || (out_features self =? 0)
          || forallb (fun m => m <? num_unique_models self) ids
  then
    Ok (mkTensor3 batch_size (num_unique_models self) (out_features self)
          (fun r m o => scatter_sum ids (fun j => at3 src r j o) m))
  else Raise (RuntimeError msg_scatter).

Definition forward (self : ParallelMLPs) (x : Tensor2) : result Tensor3 :=
  let batch_size := rows x in
  x <- hidden_layer self x ;;
  x <- apply_activations self x ;;
  x <- mul_weight self x ;;
  adjusted <- scatter_add_zeros self batch_size x ;;
  Ok (mkTensor3 (dim0 adjusted) (dim1 adjusted) (dim2 adjusted)
        (fun r m o => add (at3 adjusted r m o) (bias self m o))).

(** What [extract_mlp] returns: [nn.Sequential(hidden_layer, activation,
    out_layer)] with parameters of its own. *)
Record Sequential : Type := mkSequential {
  seq_in_features : nat;
  seq_hidden_features : nat;
  seq_hidden_weight : nat -> nat -> A;
  seq_hidden_bias : nat -> A;
  seq_activation : Activation A;
  seq_out_features : nat;
  seq_out_weight : nat -> nat -> A;
  seq_out_bias : nat -> A
}.

Definition Sequential_call (net : Sequential) (x : Tensor2) : result Tensor2 :=
  h <- Linear (seq_in_features net) (seq_hidden_features net)
         (seq_hidden_weight net) (seq_hidden_bias net) x ;;
  let a := mkTensor2 (rows h) (cols h)
             (fun r j => act_fn (seq_activation net) (at2 h r j)) in
  Linear (seq_hidden_features net) (seq_out_features net)
    (seq_out_weight net) (seq_out_bias net) a.

(** The positions selected by the mask [self.hidden_neuron__model_id ==
    model_id], in increasing order. *)
Definition model_neurons (self : ParallelMLPs) (model_id : nat) : list nat :=
  filter (fun j => nth j (hidden_neuron__model_id self) 0 =? model_id)
         (seq 0 (length (hidden_neuron__model_id self))).

(** [torch.nonzero(mask)[0] // self.activations_split]. *)
Definition activation_index (self : ParallelMLPs) (model_id : nat) : result nat :=
  match model_neurons self model_id with
  | [] => Raise IndexError
  | first :: _ =>
      if activations_split self =? 0 then Raise (RuntimeError msg_floor_divide)
      else Ok (first / activations_split self)
  end.

Definition extract_mlp (self : ParallelMLPs) (model_id : nat) : result Sequential :=
  if num_unique_models self <=? model_id then Raise (ValueError msg_extract)
  else
    let neurons := model_neurons self model_id in
    let hidden_weight := fun k i => hidden_layer_weight self (nth k neurons 0) i in
    let hidden_bias := fun k => hidden_layer_bias self (nth k neurons 0) in
    let out_weight := fun o k => weight self o (nth k neurons 0) in
    let out_bias := fun o => bias self model_id o in
    activation_index <- activation_index self model_id ;;
    match nth_error (activations self) activation_index with
    | None => Raise IndexError
    | Some activation =>
        Ok (mkSequential (in_features self) (length neurons)
              hidden_weight hidden_bias activation
              (out_features self) out_weight out_bias)
    end.

(** *** [reset_parameters]

    [torch.nn.init] draws from the global random generator: the generator
    state is threaded through, and the two initialisers are arguments.
    [kaiming_uniform_ g rows cols] fills a [rows x cols] slice,
    [uniform_ g fan_in n] fills [n] bias entries within
    [1 / sqrt(fan_in)]. *)
Variable rng : Type.
Variable kaiming_uniform_ : rng -> nat -> nat -> (nat -> nat -> A) * rng.
Variable uniform_ : rng -> nat -> nat -> (nat -> A) * rng.

(** The slice [start:end] of a dimension: position [j] lies in it, at
    offset [j - start]. *)
Definition in_slice (start stop j : nat) : bool := (start <=? j) && (j <? stop).

(** One turn of the loop [for layer_id in layer_ids]. *)
Definition reset_layer (self : ParallelMLPs) (g : rng) (layer_id : nat)
  : result (ParallelMLPs * rng) :=
  match nth_error (model_id__start_idx self) layer_id,
        nth_error (model_id__end_idx self) layer_id with
  | Some start, Some stop =>
      if num_unique_models self <=? layer_id then Raise IndexError
      else
        (* (hidden_w, hidden_b): fan_in is the number of columns of
           hidden_w = hidden_layer.weight[start:end, :] *)
        let fan_in_hidden := in_features self in
        if fan_in_hidden =? 0 then Raise ZeroDivisionError
        else
          let '(w1, g) := kaiming_uniform_ g (stop - start) (in_features self) in
          let '(b1, g) := uniform_ g fan_in_hidden (stop - start) in
          (* (out_w, out_b): out_w = weight[:, start:end] *)
          let fan_in_out := stop - start in
          if fan_in_out =? 0 then Raise ZeroDivisionError
          else
            let '(w2, g) := kaiming_uniform_ g (out_features self) (stop - start) in
            let '(b2, g) := uniform_ g fan_in_out (out_features self) in
            Ok (mkParallelMLPs (in_features self) (out_features self)
                  (activations self) (hidden_neuron__model_id self)
                  (output__model_id self) (output__architecture_id self)
                  (total_hidden_neurons self) (unique_model_ids self)
                  (model_id__num_hidden_neurons self)
                  (model_id__start_idx self) (model_id__end_idx self)
                  (num_unique_models self) (num_activations self)
                  (activations_split self)
                  (fun j i => if in_slice start stop j then w1 (j - start) i
                              else hidden_layer_weight self j i)
                  (fun j => if in_slice start stop j then b1 (j - start)
                            else hidden_layer_bias self j)
                  (fun o j => if in_slice start stop j then w2 o (j - start)
                              else weight self o j)
                  (fun m o => if m =? layer_id then b2 o else bias self m o),
                g)
  | _, _ => Raise IndexError
  end.

Fixpoint reset_loop (self : ParallelMLPs) (g : rng) (layer_ids : list nat)
  : result (ParallelMLPs * rng) :=
  match layer_ids with
  | [] => Ok (self, g)
  | layer_id :: rest =>
      '(self', g') <- reset_layer self g layer_id ;;
      reset_loop self' g' rest
  end.

(** [reset_parameters(layer_ids=None)]. *)
Definition reset_parameters (self : ParallelMLPs) (g : rng)
  (layer_ids : option (list nat)) : result (ParallelMLPs * rng) :=
  let layer_ids :=
    match layer_ids with
    | None => unique_model_ids self
    | Some l => l
    end in
  reset_loop self g layer_ids.

End Engine.

(** ** The multi-model confusion matrix [MultiConfusionMatrix] *)

Inductive Device : Type :=
| cpu
| cuda (index : nat).

Definition device_eqb (a b : Device) : bool :=
  match a, b with
  | cpu, cpu => true
  | cuda i, cuda j => i =? j
  | _, _ => false
  end.

(** Integers of [w] bits, two's complement: [torch.int] has 32 bits, the
    sums torch takes of it have 64. *)
Definition wrap (w : Z) (z : Z) : Z :=
  ((z + 2 ^ (w - 1)) mod 2 ^ w - 2 ^ (w - 1))%Z.

Definition add32 (a b : Z) : Z := wrap 32 (a + b).
Definition add64 (a b : Z) : Z := wrap 64 (a + b).
Definition sub64 (a b : Z) : Z := wrap 64 (a - b).
Definition mul64 (a b : Z) : Z := wrap 64 (a * b).

(** [t.sum()] of integers: a 64-bit sum. *)
Definition sum64 (l : list Z) : Z := fold_left add64 l 0%Z.

(** A floating point result, kept as the expression that produces it. *)
Inductive fval : Type :=
| FQuot (n d : Z)          (* n / d, true division of two integers *)
| FQuotSqrt (n r : Z)      (* n / sqrt(r) *)
| FLit_1e_9.               (* the literal 0.000000001 *)

(** Index tensors: a device and the entries; a matrix is a list of rows of
    [it2_cols] entries each. *)
Record ITensor1 : Type := mkITensor1 {
  it1_device : Device;
  it1_data : list Z
}.

Record ITensor2 : Type := mkITensor2 {
  it2_device : Device;
  it2_cols : nat;
  it2_data : list (list Z)
}.

(** [t.to(device)] on index tensors: the entries on another device. *)
Definition it1_to (d : Device) (t : ITensor1) : ITensor1 :=
  mkITensor1 d (it1_data t).
Definition it2_to (d : Device) (t : ITensor2) : ITensor2 :=
  mkITensor2 d (it2_cols t) (it2_data t).

(** [l[n] = f(l[n])]; nothing changes when [n] is out of range. *)
Fixpoint list_update {T : Type} (n : nat) (f : T -> T) (l : list T) : list T :=
  match l, n with
  | [], _ => []
  | x :: t, O => f x :: t
  | x :: t, S n' => x :: list_update n' f t
  end.

(** An index into a dimension of [size] entries: negative indices count
    from the end, anything else out of range is refused. *)
Definition norm_index (size : nat) (z : Z) : option nat :=
  if ((- Z.of_nat size <=? z) && (z <? Z.of_nat size))%Z%bool then
    Some (Z.to_nat (if (z <? 0)%Z then z + Z.of_nat size else z))
  else None.

Record MultiConfusionMatrix : Type := mkMultiConfusionMatrix {
  n_models : nat;
  n_classes : nat;
  cm : list (list (list Z));        (* [n_models, n_classes, n_classes], torch.int *)
  n_models_arange : ITensor1;
  one : Z;
  device : Device
}.

(** [MultiConfusionMatrix.__init__]. *)
Definition MultiConfusionMatrix_init (n_models n_classes : nat) (device : Device)
  : MultiConfusionMatrix :=
  mkMultiConfusionMatrix n_models n_classes
    (repeat (repeat (repeat 0%Z n_classes) n_classes) n_models)
    (mkITensor1 device (map Z.of_nat (seq 0 n_models)))
    1%Z device.

(** [cm[m, t, p] += value] on the count tensor. *)
Definition cm_add (cm : list (list (list Z))) (m t p : nat) (value : Z)
  : list (list (list Z)) :=
  list_update m (list_update t (list_update p (fun c => add32 c value))) cm.

(** The index triples of [index_put_] in row-major order of the broadcast
    shape [B x N]: [(arange[j], targets[i], predictions[i, j])]. *)
Definition index_triples (arange targets : list Z) (cols : nat)
  (predictions : list (list Z)) (B N : nat) : list (Z * Z * Z) :=
  flat_map
    (fun i =>
       map (fun j =>
              (nth (bidx (length arange) j) arange 0%Z,
               nth (bidx (length targets) i) targets 0%Z,
               nth (bidx cols j)
                   (nth (bidx (length predictions) i) predictions []) 0%Z))
           (seq 0 N))
    (seq 0 B).

(** The accumulation proper, after every index has been checked. *)
Fixpoint accumulate (n_models n_classes : nat) (cm : list (list (list Z)))
  (value : Z) (triples : list (Z * Z * Z)) : result (list (list (list Z))) :=
  match triples with
  | [] => Ok cm
  | (m, t, p) :: rest =>
      match norm_index n_models m, norm_index n_classes t, norm_index n_classes p with
      | Some m', Some t', Some p' =>
          accumulate n_models n_classes (cm_add cm m' t' p' value) value rest
      | _, _, _ => Raise IndexError
      end
  end.

(** [self.cm.index_put_(indices=(arange, targets[:, None], predictions),
    values=one, accumulate=True)]. [index_put_] takes its index tensors
    from any device: it moves each of them to the device of the indexed
    tensor before it reads them. *)
Definition index_put_accumulate (self : MultiConfusionMatrix)
  (targets : ITensor1) (predictions : ITensor2) : result (list (list (list Z))) :=
  let arange := it1_to (device self) (n_models_arange self) in
  let targets := it1_to (device self) targets in
  let predictions := it2_to (device self) predictions in
  match broadcast_dim (length (it1_data targets)) (length (it2_data predictions)),
        broadcast_dim (length (it1_data arange)) (it2_cols predictions)
  with
  | Some B, Some N =>
      accumulate (n_models self) (n_classes self) (cm self) (one self)
        (index_triples (it1_data arange) (it1_data targets)
           (it2_cols predictions) (it2_data predictions) B N)
  | _, _ => Raise IndexError
  end.

Section Scores.

(** Class scores are compared, never added: any type with an order. *)
Variable score : Type.
Variable score_ltb : score -> score -> bool.

(** Predictions as [update] receives them: class indices
    [batch, n_models] or class scores [batch, n_models, n_classes]. *)
Inductive Predictions : Type :=
| ClassIndices (p : ITensor2)
| ClassScores (d : Device) (models classes : nat) (s : list (list (list score))).

Fixpoint argmax_from (best_i : nat) (best : score) (i : nat) (l : list score) : nat :=
  match l with
  | [] => best_i
  | x :: t =>
      if score_ltb best x then argmax_from i x (S i) t
      else argmax_from best_i best (S i) t
  end.

(** The position of the first largest entry. *)
Definition argmax (l : list score) : Z :=
  match l with
  | [] => 0%Z
  | x :: t => Z.of_nat (argmax_from 0 x 1 t)
  end.

(** [predictions.argmax(-1)] when [predictions.ndim > 2]. *)
Definition argmax_last (predictions : Predictions) : result ITensor2 :=
  match predictions with
  | ClassIndices p => Ok p
  | ClassScores d models classes s =>
      if classes =? 0 then Raise IndexError
      else Ok (mkITensor2 d models (map (map argmax) s))
  end.

(** [MultiConfusionMatrix.update]. *)
Definition update (self : MultiConfusionMatrix) (predictions : Predictions)
  (targets : ITensor1) : result MultiConfusionMatrix :=
  predictions <- argmax_last predictions ;;
  let predictions :=
    if negb (device_eqb (it2_device predictions) (device self))
    then mkITensor2 (device self) (it2_cols predictions) (it2_data predictions)
    else predictions in
  cm' <- index_put_accumulate self targets predictions ;;
  Ok (mkMultiConfusionMatrix (n_models self) (n_classes self) cm'
        (n_models_arange self) (one self) (device self)).

End Scores.

(** Entry [cm[m, t, p]]. *)
Definition cm_at (cm : list (list (list Z))) (m t p : nat) : Z :=
  nth p (nth t (nth m cm []) []) 0%Z.

Record Metrics : Type := mkMetrics {
  total_samples : Z;
  tp : list (list Z);
  fn : list (list Z);
  fp : list (list Z);
  tn : list (list Z);
  overall_acc : list fval;
  matthews_corrcoef : list fval
}.

(** [C.sum(dim=-1)[m]] and [C.sum(dim=-2)[m]]: the row sums (per true
    class) and the column sums (per predicted class) of model [m]. *)
Definition t_sum (self : MultiConfusionMatrix) (m : nat) : list Z :=
  map (fun c => sum64 (map (fun k => cm_at (cm self) m c k) (seq 0 (n_classes self))))
      (seq 0 (n_classes self)).

Definition p_sum (self : MultiConfusionMatrix) (m : nat) : list Z :=
  map (fun c => sum64 (map (fun k => cm_at (cm self) m k c) (seq 0 (n_classes self))))
      (seq 0 (n_classes self)).

Definition diagonal (self : MultiConfusionMatrix) (m : nat) : list Z :=
  map (fun c => cm_at (cm self) m c c) (seq 0 (n_classes self)).

Definition map2 {T U V : Type} (f : T -> U -> V) (l : list T) (l' : list U) : list V :=
  map (fun xy => f (fst xy) (snd xy)) (combine l l').

(** [_matthews_corrcoef] for model [m]. *)
Definition matthews_corrcoef_model (self : MultiConfusionMatrix) (total_samples : Z)
  (m : nat) : fval :=
  let t_sum := t_sum self m in
  let p_sum := p_sum self m in
  let n_correct := sum64 (diagonal self m) in
  let cov_ytyp := sub64 (mul64 n_correct total_samples) (sum64 (map2 mul64 t_sum p_sum)) in
  let cov_ypyp := sub64 (mul64 total_samples total_samples) (sum64 (map2 mul64 p_sum p_sum)) in
  let cov_ytyt := sub64 (mul64 total_samples total_samples) (sum64 (map2 mul64 t_sum t_sum)) in
  let matt := FQuotSqrt cov_ytyp (mul64 cov_ytyt cov_ypyp) in
  let invalid_mask := (mul64 cov_ypyp cov_ytyt =? 0)%Z in
  if invalid_mask then FLit_1e_9 else matt.

(** [calculate_metrics]. The per-class quotient [_matthews_corrcoef]
    computes first is overwritten before it is read and is left out. *)
Definition calculate_metrics (self : MultiConfusionMatrix) : result Metrics :=
  match n_models self with
  | O => Raise IndexError
  | S _ =>
      let models := seq 0 (n_models self) in
      let total_samples :=
        sum64 (map (fun tc => cm_at (cm self) 0 (fst tc) (snd tc))
                   (list_prod (seq 0 (n_classes self)) (seq 0 (n_classes self)))) in
      let tp := map (diagonal self) models in
      let fn := map (fun m => map2 sub64 (t_sum self m) (diagonal self m)) models in
      let fp := map (fun m => map2 sub64 (p_sum self m) (diagonal self m)) models in
      let tn :=
        map (fun m =>
               map (fun c =>
                      sub64 (sub64 (sub64 total_samples
                                          (nth c (nth m fn []) 0%Z))
                                   (nth c (nth m fp []) 0%Z))
                            (nth c (nth m tp []) 0%Z))
                   (seq 0 (n_classes self)))
            models in
      Ok (mkMetrics total_samples tp fn fp tn
            (map (fun m => FQuot (sum64 (nth m tp [])) total_samples) models)
            (map (matthews_corrcoef_model self total_samples) models))
  end.

(** ** Notions used to state the properties *)

(** The layout in which every id [m < M] owns [w m] consecutive positions,
    ids in increasing order. *)
Definition layout (w : nat -> nat) (M : nat) : list nat :=
  flat_map (fun m => repeat m (w m)) (seq 0 M).

(** The first position of model [m] in [layout w M]. *)
Definition start_of (w : nat -> nat) (m : nat) : nat :=
  list_sum (map w (seq 0 m)).

(** An integer [torch.arange] can take as a bound or as a step. *)
Definition fits_int64 (z : Z) : Prop := (- 2 ^ 63 <= z < 2 ^ 63)%Z.

(** The neuron-count sequence [min, min+step, ...] of [S] entries. *)
Definition neuron_sequence (min_neurons step : Z) (S : nat) : list Z :=
  map (fun i => (min_neurons + Z.of_nat i * step)%Z) (seq 0 S).

(** The hidden width of model [m]: entry [m mod S] of the sequence, as the
    number of copies [[m] * structure] holds. *)
Definition width (neurons_structure : list Z) (m : nat) : nat :=
  Z.to_nat (nth (m mod length neurons_structure) neurons_structure 0%Z).

(** The activation list of the repository's tests, [LeakyReLU] and
    [Sigmoid], on integer scalars (only the class names matter where it is
    used). *)
Definition test_acts : list (Activation Z) :=
  [ mkActivation "LeakyReLU" (fun x => Z.max x 0);
    mkActivation "Sigmoid" (fun x => (x / 2)%Z) ].

(** Parameters and a batch for the engine of the tests: 3 input
    features, 2 output features, 5 samples. *)
Definition test_hw (j i : nat) : Z := (Z.of_nat (j + 2 * i) - 7)%Z.
Definition test_hb (j : nat) : Z := (Z.of_nat j - 3)%Z.
Definition test_W (o j : nat) : Z := (Z.of_nat (3 * o + j) - 20)%Z.
Definition test_b (m o : nat) : Z := Z.of_nat (m + o).
Definition test_X : Tensor2 Z :=
  mkTensor2 5 3 (fun r i => (Z.of_nat (r * i) - 2)%Z).

(** Stand-ins for the two initialisers of [torch.nn.init], with a counter
    as generator state. *)
Definition test_kaiming (g rows cols : nat) : (nat -> nat -> Z) * nat :=
  (fun i j => (Z.of_nat (g + i + j) + 100)%Z, S g).
Definition test_uniform (g fan_in n : nat) : (nat -> Z) * nat :=
  (fun i => (Z.of_nat (g + i) + 200)%Z, S g).

(** The sub-batches [t[:k]] and [t[k:]] of targets and of predictions. *)
Definition targets_take (k : nat) (t : ITensor1) : ITensor1 :=
  mkITensor1 (it1_device t) (firstn k (it1_data t)).
Definition targets_drop (k : nat) (t : ITensor1) : ITensor1 :=
  mkITensor1 (it1_device t) (skipn k (it1_data t)).

Definition predictions_take {score : Type} (k : nat) (p : Predictions score)
  : Predictions score :=
  match p with
  | @ClassIndices _ q =>
      ClassIndices score (mkITensor2 (it2_device q) (it2_cols q) (firstn k (it2_data q)))
  | @ClassScores _ d models classes s => ClassScores d models classes (firstn k s)
  end.
Definition predictions_drop {score : Type} (k : nat) (p : Predictions score)
  : Predictions score :=
  match p with
  | @ClassIndices _ q =>
      ClassIndices score (mkITensor2 (it2_device q) (it2_cols q) (skipn k (it2_data q)))
  | @ClassScores _ d models classes s => ClassScores d models classes (skipn k s)
  end.

(** The number of samples and of models of a batch of predictions. *)
Definition predictions_rows {score : Type} (p : Predictions score) : nat :=
  match p with
  | @ClassIndices _ q => length (it2_data q)
  | @ClassScores _ _ _ _ s => length s
  end.
Definition predictions_models {score : Type} (p : Predictions score) : nat :=
  match p with
  | @ClassIndices _ q => it2_cols q
  | @ClassScores _ _ models _ _ => models
  end.


(** A run of [update] calls, one per batch. *)
Fixpoint run_updates {score : Type} (score_ltb : score -> score -> bool)
  (self : MultiConfusionMatrix) (batches : list (Predictions score * ITensor1))
  : result MultiConfusionMatrix :=
  match batches with
  | [] => Ok self
  | (predictions, targets) :: rest =>
      self' <- update score_ltb self predictions targets ;;
      run_updates score_ltb self' rest
  end.

(** Sums of integers without wrap-around. *)
Definition zsum (l : list Z) : Z := fold_right Z.add 0%Z l.

(** The sum of the entries of the matrix of model [m]. *)
Definition cm_total (cm : list (list (list Z))) (n_classes m : nat) : Z :=
  zsum (map (fun t => zsum (map (fun p => cm_at cm m t p) (seq 0 n_classes)))
            (seq 0 n_classes)).

(** Row sums, column sums and the denominator of the Matthews correlation
    coefficient of model [m], as integers: [(total^2 - sum of squared row
    sums) * (total^2 - sum of squared column sums)], with the total
    [calculate_metrics] uses, that of model 0. *)
Definition row_sum (self : MultiConfusionMatrix) (m c : nat) : Z :=
  zsum (map (fun k => cm_at (cm self) m c k) (seq 0 (n_classes self))).
Definition col_sum (self : MultiConfusionMatrix) (m c : nat) : Z :=
  zsum (map (fun k => cm_at (cm self) m k c) (seq 0 (n_classes self))).

Definition mcc_denominator (self : MultiConfusionMatrix) (m : nat) : Z :=
  let total := cm_total (cm self) (n_classes self) 0 in
  ((total ^ 2
    - zsum (map (fun c => row_sum self m c ^ 2) (seq 0 (n_classes self))))
   * (total ^ 2
      - zsum (map (fun c => col_sum self m c ^ 2) (seq 0 (n_classes self)))))%Z.

(** The shape [n_models x n_classes x n_classes] of the count tensor. *)
Definition cm_shape (cm : list (list (list Z))) (n_models n_classes : nat) : Prop :=
  length cm = n_models
  /\ Forall (fun M => length M = n_classes /\ Forall (fun r => length r = n_classes) M) cm.

(** How many index triples address model [m]. *)
Definition addresses_model (n_models m : nat) (triple : Z * Z * Z) : bool :=
  match norm_index n_models (fst (fst triple)) with
  | Some m' => m' =? m
  | None => false
  end.

Definition count_model (n_models m : nat) (triples : list (Z * Z * Z)) : nat :=
  length (filter (addresses_model n_models m) triples).

(** The state of an accumulator whose every model has seen [T] samples. *)
Definition mcm_inv (self : MultiConfusionMatrix) (T : Z) : Prop :=
  it1_data (n_models_arange self) = map Z.of_nat (seq 0 (n_models self))
  /\ one self = 1%Z
  /\ cm_shape (cm self) (n_models self) (n_classes self)
  /\ (forall m t p, (0 <= cm_at (cm self) m t p)%Z)
  /\ (forall m, m < n_models self -> cm_total (cm self) (n_classes self) m = T).

(** The number of samples of a list of batches. *)
Definition batch_sizes {score : Type} (batches : list (Predictions score * ITensor1))
  : nat :=
  list_sum (map (fun pt => predictions_rows (fst pt)) batches).

(** Sample [i] of a batch falls into cell [(t, p)] of model [m]: its
    target is class [t] and its prediction for [m] is class [p], negative
    indices counting from the end. *)
Definition sample_in_cell (n_classes : nat) (targets : list Z)
  (predictions : list (list Z)) (m t p i : nat) : bool :=
  match norm_index n_classes (nth i targets 0%Z),
        norm_index n_classes (nth m (nth i predictions []) 0%Z) with
  | Some t', Some p' => (t' =? t) && (p' =? p)
  | _, _ => false
  end.

(** The number of samples of a batch that fall into a cell. *)
Definition count_cell (n_classes : nat) (targets : list Z)
  (predictions : list (list Z)) (m t p : nat) : nat :=
  length (filter (sample_in_cell n_classes targets predictions m t p)
                 (seq 0 (length targets))).

(** An index triple addresses cell [(m, t, p)]. *)
Definition addresses_cell (n_models n_classes m t p : nat) (triple : Z * Z * Z)
  : bool :=
  match norm_index n_models (fst (fst triple)),
        norm_index n_classes (snd (fst triple)),
        norm_index n_classes (snd triple) with
  | Some m', Some t', Some p' => (m' =? m) && (t' =? t) && (p' =? p)
  | _, _, _ => false
  end.

(** An index a dimension of [size] entries accepts. *)
Definition index_ok (size : nat) (z : Z) : Prop :=
  (- Z.of_nat size <= z < Z.of_nat size)%Z.

(** The state of an accumulator as [__init__] builds it and [update]
    keeps it: the model indices [0 .. n_models-1] on the device of the
    count tensor, the value one, and a count tensor of the declared shape
    whose entries are [torch.int] values. *)
Definition mcm_wf (self : MultiConfusionMatrix) : Prop :=
  it1_device (n_models_arange self) = device self
  /\ it1_data (n_models_arange self) = map Z.of_nat (seq 0 (n_models self))
  /\ one self = 1%Z
  /\ cm_shape (cm self) (n_models self) (n_classes self)
  /\ (forall m t p, wrap 32 (cm_at (cm self) m t p) = cm_at (cm self) m t p).

(** * Properties *)

(** ** Model-id assignment *)

Lemma nodup_length_le (l : list string) :
  length (nodup string_dec l) <= length l.
Proof.
  induction l as [|a l IH]; simpl; [lia|].
  destruct (in_dec string_dec a l); simpl; lia.
Qed.

Lemma nodup_length_NoDup (l : list string) :
  length (nodup string_dec l) = length l <-> NoDup l.
Proof.
  split.
  - induction l as [|a l IH]; simpl; intros H; [constructor|].
    destruct (in_dec string_dec a l) as [Hin|Hin].
    + pose proof (nodup_length_le l). lia.
    + simpl in H. constructor; [exact Hin | apply IH; lia].
  - intros H. now rewrite (nodup_fixed_point string_dec H).
Qed.

Lemma flat_map_seq_shift {T : Type} (f : nat -> list T) (a b : nat) :
  flat_map f (seq a b) = flat_map (fun t => f (a + t)) (seq 0 b).
Proof.
  revert f a. induction b as [|b IH]; intros f a; simpl; [reflexivity|].
  rewrite Nat.add_0_r. f_equal.
  rewrite (IH f (S a)), (IH (fun t => f (a + t)) 1). apply flat_map_ext. intros t.
  f_equal. lia.
Qed.

Lemma flat_map_ext_on {T U : Type} (f g : T -> list U) (l : list T) :
  (forall x, In x l -> f x = g x) -> flat_map f l = flat_map g l.
Proof.
  induction l as [|x l IH]; intros H; simpl; [reflexivity|].
  rewrite (H x (or_introl eq_refl)), IH; [reflexivity|].
  intros y Hy. apply H. now right.
Qed.

Lemma layout_add (w : nat -> nat) (a b : nat) :
  layout w (a + b) = layout w a ++ flat_map (fun t => repeat (a + t) (w (a + t))) (seq 0 b).
Proof.
  unfold layout. rewrite seq_app, flat_map_app. f_equal.
  simpl. apply flat_map_seq_shift.
Qed.

Lemma for_structures_spec (ns : list Z) (i : nat) (acc : list nat) :
  for_structures ns i acc =
  (i + length ns,
   acc ++ flat_map (fun t => repeat (i + t) (Z.to_nat (nth t ns 0%Z))) (seq 0 (length ns))).
Proof.
  unfold for_structures. revert i acc.
  induction ns as [|s ns IH]; intros i acc; simpl.
  - now rewrite Nat.add_0_r, app_nil_r.
  - rewrite IH. f_equal; [lia|].
    rewrite <- app_assoc, Nat.add_0_r. do 2 f_equal.
    rewrite (flat_map_seq_shift _ 1). apply flat_map_ext. intros t.
    simpl. f_equal. lia.
Qed.

Lemma for_structures_layout (ns : list Z) (k : nat) :
  for_structures ns (k * length ns) (layout (width ns) (k * length ns)) =
  (S k * length ns, layout (width ns) (S k * length ns)).
Proof.
  rewrite for_structures_spec.
  replace (S k * length ns) with (k * length ns + length ns) by lia.
  rewrite layout_add. f_equal. f_equal.
  apply flat_map_ext_on. intros t Ht. apply in_seq in Ht.
  unfold width. f_equal.
  rewrite Nat.add_comm, Nat.Div0.mod_add.
  now rewrite Nat.mod_small by lia.
Qed.

(** The loop stops after [T] turns when the model count is [S * T]; fuel
    [S * T] is more than it uses. *)
Lemma while_fill_layout (ns : list Z) (T n k fuel : nat) :
  length ns <> 0 ->
  k + n = T -> n <= fuel ->
  while_fill fuel (Z.of_nat (length ns * T)) ns (k * length ns)
    (layout (width ns) (k * length ns)) =
  Some (T * length ns, layout (width ns) (T * length ns)).
Proof.
  intros HS. revert k fuel.
  induction n as [|n IH]; intros k fuel Hk Hfuel.
  - assert (k = T) by lia. subst k.
    destruct fuel; simpl;
      (replace (Z.of_nat (T * length ns) <? Z.of_nat (length ns * T))%Z with false;
       [reflexivity | symmetry; apply Z.ltb_ge; lia]).
  - destruct fuel as [|fuel]; [lia|].
    cbn [while_fill].
    replace (Z.of_nat (k * length ns) <? Z.of_nat (length ns * T))%Z with true
      by (symmetry; apply Z.ltb_lt; nia).
    rewrite for_structures_layout. cbn [fst snd].
    apply IH; lia.
Qed.

Lemma while_fill_stop (fuel : nat) (M : Z) (ns : list Z) :
  (M <= 0)%Z -> while_fill fuel M ns 0 [] = Some (0, []).
Proof.
  intros HM. destruct fuel; simpl;
    (replace (0 <? M)%Z with false by (symmetry; apply Z.ltb_ge; lia));
    reflexivity.
Qed.

(** The hidden-neuron array the loop of [build_model_ids] builds. *)
Lemma while_fill_result (ns : list Z) (K : nat) (R : Z) :
  let M := (Z.of_nat (length ns) * Z.of_nat K * R)%Z in
  while_fill (Z.to_nat M) M ns 0 [] =
  Some (length ns * K * Z.to_nat R, layout (width ns) (length ns * K * Z.to_nat R)).
Proof.
  intros M.
  destruct (Z_le_gt_dec M 0) as [HM|HM].
  - rewrite while_fill_stop by exact HM.
    assert (length ns * K * Z.to_nat R = 0) as -> by (subst M; nia).
    reflexivity.
  - assert (0 < R)%Z by (subst M; nia).
    assert (length ns <> 0) by (subst M; nia).
    assert (M = Z.of_nat (length ns * (K * Z.to_nat R))) as HMeq by (subst M; nia).
    rewrite HMeq, Nat2Z.id.
    pose proof (@while_fill_layout ns (K * Z.to_nat R) (K * Z.to_nat R) 0
                  (length ns * (K * Z.to_nat R))) as Hw.
    change (0 * length ns) with 0 in Hw.
    change (layout (width ns) 0) with (@nil nat) in Hw.
    rewrite Hw by nia.
    do 2 f_equal; [| f_equal]; lia.
Qed.

Lemma build_model_ids_Ok {A : Type} (R : Z) (acts : list (Activation A))
  (min_neurons max_neurons step : Z) (ns : list Z) :
  acts <> [] ->
  NoDup (map (@class_name A) acts) ->
  arange min_neurons (max_neurons + 1) step = Ok ns ->
  let hidden := layout (width ns) (length ns * length acts * Z.to_nat R) in
  build_model_ids R acts min_neurons max_neurons step =
  Ok (hidden, groupby_keys hidden,
      list_times (firstn (length acts * length ns) (groupby_keys hidden)) R).
Proof.
  intros Hne Hnd Har hidden. unfold build_model_ids.
  destruct acts as [|a acts]; [congruence|].
  cbn [length Nat.eqb].
  apply nodup_length_NoDup in Hnd. rewrite Hnd, Nat.eqb_refl. cbn [negb].
  rewrite Har. cbn [bind].
  rewrite length_map in *.
  rewrite while_fill_result. reflexivity.
Qed.

Lemma arange_neuron_sequence (min_neurons max_neurons step : Z) :
  (min_neurons <= max_neurons)%Z -> (1 <= step)%Z ->
  arange min_neurons (max_neurons + 1) step =
  Ok (neuron_sequence min_neurons step
        (Z.to_nat ((max_neurons - min_neurons) / step + 1))).
Proof.
  intros Hmm Hstep. unfold arange, neuron_sequence.
  replace (step =? 0)%Z with false by (symmetry; apply Z.eqb_neq; lia).
  replace (0 <? step)%Z with true by (symmetry; apply Z.ltb_lt; lia).
  replace (max_neurons + 1 <? min_neurons)%Z with false
    by (symmetry; apply Z.ltb_ge; lia).
  do 3 f_equal. unfold ceil_div.
  replace (max_neurons + 1 - min_neurons + step - 1)%Z
    with (max_neurons - min_neurons + 1 * step)%Z by lia.
  rewrite Z.div_add by lia. reflexivity.
Qed.

Lemma neuron_sequence_length (min_neurons step : Z) (S : nat) :
  length (neuron_sequence min_neurons step S) = S.
Proof. unfold neuron_sequence. now rewrite length_map, length_seq. Qed.

Lemma neuron_sequence_nth (min_neurons step : Z) (S t : nat) :
  t < S ->
  nth t (neuron_sequence min_neurons step S) 0%Z = (min_neurons + Z.of_nat t * step)%Z.
Proof.
  intros Ht. unfold neuron_sequence.
  set (f := fun i : nat => (min_neurons + Z.of_nat i * step)%Z).
  rewrite (nth_indep _ 0%Z (f 0)) by (now rewrite length_map, length_seq).
  rewrite map_nth, seq_nth by exact Ht. reflexivity.
Qed.

Lemma layout_succ (w : nat -> nat) (M : nat) :
  layout w (S M) = layout w M ++ repeat M (w M).
Proof.
  replace (S M) with (M + 1) by lia. rewrite layout_add. simpl.
  now rewrite app_nil_r, Nat.add_0_r.
Qed.

Lemma layout_length (w : nat -> nat) (M : nat) :
  length (layout w M) = start_of w M.
Proof.
  unfold start_of. induction M as [|M IH]; [reflexivity|].
  rewrite layout_succ, length_app, repeat_length, IH.
  rewrite seq_S, map_app, list_sum_app. simpl. lia.
Qed.

Lemma layout_In (w : nat -> nat) (M m : nat) :
  In m (layout w M) -> m < M.
Proof.
  unfold layout. rewrite in_flat_map. intros (x & Hx & Hm).
  apply repeat_spec in Hm. apply in_seq in Hx. lia.
Qed.

Lemma count_occ_repeat (x y n : nat) :
  count_occ Nat.eq_dec (repeat x n) y = if x =? y then n else 0.
Proof.
  induction n as [|n IH]; simpl.
  - now destruct (x =? y).
  - destruct (Nat.eq_dec x y) as [->|Hne].
    + rewrite Nat.eqb_refl in *. now rewrite IH.
    + apply Nat.eqb_neq in Hne. rewrite Hne in *. exact IH.
Qed.

Lemma layout_count_occ (w : nat -> nat) (M m : nat) :
  m < M -> count_occ Nat.eq_dec (layout w M) m = w m.
Proof.
  induction M as [|M IH]; intros Hm; [lia|].
  rewrite layout_succ, count_occ_app, count_occ_repeat.
  destruct (Nat.eq_dec m M) as [->|Hne].
  - rewrite Nat.eqb_refl.
    assert (count_occ Nat.eq_dec (layout w M) M = 0) as ->; [|lia].
    apply count_occ_not_In. intros Hin. apply layout_In in Hin. lia.
  - replace (M =? m) with false by (symmetry; apply Nat.eqb_neq; lia).
    rewrite IH by lia. lia.
Qed.

Lemma start_of_succ (w : nat -> nat) (m : nat) :
  start_of w (S m) = start_of w m + w m.
Proof.
  unfold start_of. rewrite seq_S, map_app, list_sum_app. simpl. lia.
Qed.

Lemma start_of_le (w : nat -> nat) (a b : nat) :
  a <= b -> start_of w a <= start_of w b.
Proof.
  induction 1 as [|b Hab IH]; [lia|]. rewrite start_of_succ. lia.
Qed.

(** Position [j] of the layout holds [m] exactly when it lies in the run
    of [m]. *)
Lemma layout_nth (w : nat -> nat) (M j m : nat) :
  j < length (layout w M) ->
  nth j (layout w M) 0 = m <-> start_of w m <= j < start_of w m + w m.
Proof.
  revert j m. induction M as [|M IH]; intros j m Hj.
  - simpl in Hj. lia.
  - rewrite layout_succ in *. rewrite length_app, repeat_length, layout_length in Hj.
    destruct (Nat.lt_ge_cases j (start_of w M)) as [Hlt|Hge].
    + rewrite app_nth1 by (now rewrite layout_length).
      apply IH. now rewrite layout_length.
    + rewrite app_nth2 by (now rewrite layout_length).
      rewrite layout_length.
      rewrite nth_repeat_lt by lia.
      split.
      * intros <-. lia.
      * intros Hr. destruct (Nat.lt_trichotomy m M) as [Hm|[Hm|Hm]]; [|congruence|].
        -- pose proof (@start_of_le w (S m) M Hm) as Hle.
           rewrite start_of_succ in Hle. lia.
        -- pose proof (@start_of_le w (S M) m Hm) as Hle.
           rewrite start_of_succ in Hle. lia.
Qed.

Lemma width_nonneg_exact (min_neurons step : Z) (S m : nat) :
  S <> 0 -> (0 <= min_neurons)%Z -> (0 <= step)%Z ->
  Z.of_nat (width (neuron_sequence min_neurons step S) m) =
  nth (m mod S) (neuron_sequence min_neurons step S) 0%Z.
Proof.
  intros HS Hmin Hstep. unfold width.
  rewrite neuron_sequence_length.
  rewrite neuron_sequence_nth by (apply Nat.mod_upper_bound; exact HS).
  rewrite Z2Nat.id; [reflexivity | nia].
Qed.

(** C8 (validation of the activation list). [build_model_ids] raises a
    [ValueError] when the activation list is empty, and when two
    activations have the same class name; in both cases whatever the other
    arguments are, also those for which building the arrays would fail, so
    the checks come first. For a non-empty list of pairwise distinct class
    names no [ValueError] is raised. *)
Theorem build_model_ids_validation (A : Type) (repetitions : Z)
  (activation_functions : list (Activation A)) (min_neurons max_neurons step : Z) :
  (activation_functions = [] ->
   build_model_ids repetitions activation_functions min_neurons max_neurons step
   = Raise (ValueError msg_no_activation))
  /\ (activation_functions <> [] ->
      ~ NoDup (map (@class_name A) activation_functions) ->
      build_model_ids repetitions activation_functions min_neurons max_neurons step
      = Raise (ValueError msg_not_unique))
  /\ (activation_functions <> [] ->
      NoDup (map (@class_name A) activation_functions) ->
      forall msg,
        build_model_ids repetitions activation_functions min_neurons max_neurons step
        <> Raise (ValueError msg)).
Proof.
  split; [|split].
  - intros ->. reflexivity.
  - intros Hne Hdup. unfold build_model_ids.
    destruct activation_functions as [|a acts]; [congruence|].
    cbn [length Nat.eqb].
    destruct (length (nodup string_dec (map (@class_name A) (a :: acts)))
              =? length (map (@class_name A) (a :: acts))) eqn:E; [|reflexivity].
    apply Nat.eqb_eq, nodup_length_NoDup in E. contradiction.
  - intros Hne Hnd msg.
    destruct (arange min_neurons (max_neurons + 1) step) as [ns|e] eqn:Har.
    + rewrite (@build_model_ids_Ok A repetitions _ _ _ _ _ Hne Hnd Har). discriminate.
    + unfold build_model_ids.
      destruct activation_functions as [|a acts]; [congruence|].
      cbn [length Nat.eqb].
      apply nodup_length_NoDup in Hnd. rewrite Hnd, Nat.eqb_refl. cbn [negb].
      rewrite Har. cbn [bind].
      unfold arange in Har.
      repeat match type of Har with
             | (if ?c then _ else _) = _ => destruct c
             end; inversion Har; discriminate.
Qed.

(** C3 (partition of the hidden neurons). For a configuration with
    [R >= 1], at least one activation, pairwise distinct class names,
    [min <= max] and [step >= 1], [build_model_ids] returns, and its array
    [hidden_neuron__model_id] is the layout in which the ids
    [0, ..., M-1] follow each other in increasing order, id [m] filling one
    run of [width m] positions, for [M = S * K * R]: its length is the sum
    of the widths, id [m] occurs [width m] times, and position [j] holds
    [m] exactly when [j] lies in the run of [m]. A width is the entry
    [m mod S] of the neuron-count sequence [min, min + step, ...] (the
    number of copies a Python list repetition makes, which is that entry
    whenever neuron counts are not negative). *)
Theorem build_model_ids_partition (A : Type) (R : Z) (acts : list (Activation A))
  (min_neurons max_neurons step : Z) :
  (1 <= R)%Z -> acts <> [] -> NoDup (map (@class_name A) acts) ->
  (min_neurons <= max_neurons)%Z -> (1 <= step)%Z ->
  let S := Z.to_nat ((max_neurons - min_neurons) / step + 1) in
  let M := S * length acts * Z.to_nat R in
  let ns := neuron_sequence min_neurons step S in
  exists hidden o a,
    build_model_ids R acts min_neurons max_neurons step = Ok (hidden, o, a)
    /\ hidden = layout (width ns) M
    /\ length hidden = list_sum (map (width ns) (seq 0 M))
    /\ (forall m, m < M -> count_occ Nat.eq_dec hidden m = width ns m)
    /\ (forall j m, j < length hidden ->
          nth j hidden 0 = m <->
          start_of (width ns) m <= j < start_of (width ns) m + width ns m)
    /\ ((0 <= min_neurons)%Z ->
        forall m, Z.of_nat (width ns m) = nth (m mod S) ns 0%Z).
Proof.
  intros HR Hne Hnd Hmm Hstep S M ns.
  pose proof (arange_neuron_sequence Hmm Hstep) as Har. fold S in Har. fold ns in Har.
  pose proof (@build_model_ids_Ok A R _ _ _ _ _ Hne Hnd Har) as Hb. cbv zeta in Hb.
  assert (HS : length ns = S) by apply neuron_sequence_length.
  rewrite HS in Hb. fold M in Hb.
  eexists _, _, _. split; [exact Hb|].
  split; [reflexivity|].
  split; [apply layout_length|].
  split; [intros m Hm; now apply layout_count_occ|].
  split; [intros j m Hj; now apply layout_nth|].
  intros Hmin m. apply width_nonneg_exact; [|lia|lia].
  assert (0 <= (max_neurons - min_neurons) / step)%Z by (apply Z.div_pos; lia).
  subst S. lia.
Qed.

Lemma NoDup_test_acts : NoDup (map (@class_name Z) test_acts).
Proof.
  repeat constructor; simpl; intuition discriminate.
Defined.

Lemma build_model_ids_partition_witness :
  exists hidden o a,
    build_model_ids 3 test_acts 1 3 1 = Ok (hidden, o, a) /\ length hidden = 36.
Proof.
  destruct (@build_model_ids_partition Z 3 test_acts 1 3 1)
    as (hidden & o & a & Hb & _ & Hlen & _);
    [lia | discriminate | exact NoDup_test_acts | lia | lia |].
  exists hidden, o, a. split; [exact Hb | exact Hlen].
Defined.

(** ** The parallel engine *)

Lemma fold_left_filter {T U : Type} (p : U -> bool) (f : T -> U -> T) (l : list U) (z : T) :
  fold_left (fun acc j => if p j then f acc j else acc) l z = fold_left f (filter p l) z.
Proof.
  revert z. induction l as [|x l IH]; intros z; simpl; [reflexivity|].
  destruct (p x); simpl; apply IH.
Qed.

Lemma fold_left_seq_nth_from {T U : Type} (f : T -> U -> T) (d : U) (pre l : list U) (z : T) :
  fold_left (fun acc k => f acc (nth k (pre ++ l) d)) (seq (length pre) (length l)) z
  = fold_left f l z.
Proof.
  revert pre z. induction l as [|x l IH]; intros pre z; simpl; [reflexivity|].
  rewrite nth_middle.
  specialize (IH (pre ++ [x]) (f z x)).
  rewrite <- app_assoc, length_app in IH. simpl in IH.
  rewrite Nat.add_1_r in IH. exact IH.
Qed.

Lemma fold_left_seq_nth {T U : Type} (f : T -> U -> T) (d : U) (l : list U) (z : T) :
  fold_left (fun acc k => f acc (nth k l d)) (seq 0 (length l)) z = fold_left f l z.
Proof. exact (fold_left_seq_nth_from f d [] l z). Qed.

Lemma fold_left_ext_on {T U : Type} (f g : T -> U -> T) (l : list U) (z : T) :
  (forall acc x, In x l -> f acc x = g acc x) ->
  fold_left f l z = fold_left g l z.
Proof.
  revert z. induction l as [|x l IH]; intros z H; simpl; [reflexivity|].
  rewrite (H z x (or_introl eq_refl)). apply IH.
  intros acc y Hy. apply H. now right.
Qed.

Lemma start_of_add (w : nat -> nat) (a b : nat) :
  start_of w (a + b) = start_of w a + list_sum (map (fun t => w (a + t)) (seq 0 b)).
Proof.
  induction b as [|b IH].
  - simpl. now rewrite !Nat.add_0_r.
  - rewrite Nat.add_succ_r, start_of_succ, IH.
    rewrite seq_S, map_app, list_sum_app. simpl. lia.
Qed.

(** Widths that repeat with period [S]: [k] periods hold [k] times the
    neurons of one. *)
Lemma start_of_periodic (w : nat -> nat) (S k : nat) :
  (forall m, w (m + S) = w m) ->
  start_of w (k * S) = k * start_of w S.
Proof.
  intros Hper. induction k as [|k IH]; [reflexivity|].
  replace (Datatypes.S k * S) with (k * S + S) by lia.
  rewrite start_of_add, IH.
  assert (list_sum (map (fun t => w (k * S + t)) (seq 0 S)) = start_of w S) as ->; [|lia].
  unfold start_of. f_equal. apply map_ext. intros t.
  clear IH. induction k as [|k IHk]; [reflexivity|].
  rewrite <- IHk. replace (Datatypes.S k * S + t) with (k * S + t + S) by lia.
  apply Hper.
Qed.

Lemma width_periodic (ns : list Z) (m : nat) :
  width ns (m + length ns) = width ns m.
Proof.
  unfold width. f_equal.
  replace (m + length ns) with (m + 1 * length ns) by lia.
  now rewrite Nat.Div0.mod_add.
Qed.

Lemma layout_In_iff (w : nat -> nat) (M m : nat) :
  In m (layout w M) <-> m < M /\ 1 <= w m.
Proof.
  unfold layout. rewrite in_flat_map. split.
  - intros (x & Hx & Hm). apply in_seq in Hx.
    destruct (w x) eqn:E; [contradiction|].
    apply repeat_spec in Hm. subst. lia.
  - intros [Hm Hw]. exists m. split; [apply in_seq; lia|].
    destruct (w m); [lia|]. now left.
Qed.

(** When every model has a neuron, the ids of the layout are [0..M-1]. *)
Lemma sorted_set_layout (w : nat -> nat) (M : nat) :
  (forall m, 1 <= w m) -> sorted_set (layout w M) = seq 0 M.
Proof.
  intros Hw. unfold sorted_set.
  destruct M as [|M].
  - reflexivity.
  - assert (Hmax : list_max (layout w (S M)) = M).
    { apply Nat.le_antisymm.
      - apply list_max_le, Forall_forall. intros x Hx.
        apply layout_In in Hx. lia.
      - pose proof (proj1 (list_max_le (layout w (S M)) _) (Nat.le_refl _)) as HF.
        rewrite Forall_forall in HF. apply HF.
        apply layout_In_iff. split; [lia | apply Hw]. }
    rewrite Hmax.
    rewrite (filter_ext_in _ (fun _ => true)).
    + clear. induction (seq 0 (S M)) as [|x l IH]; simpl; [reflexivity | now rewrite IH].
    + intros x Hx. apply in_seq in Hx.
      apply existsb_exists. exists x. split; [|apply Nat.eqb_refl].
      apply layout_In_iff. split; [lia | apply Hw].
Qed.

(** In a layout of [K] segments of [P = R * S] models each, with widths of
    period [S], the neurons of a model all lie in the segment of the
    model: position [j] of model [m] has [j / q = m / P], for [q] the
    number of neurons of a segment. *)
Lemma layout_segment (w : nat -> nat) (S K R j m : nat) :
  (forall m, w (m + S) = w m) ->
  0 < R * start_of w S ->
  j < length (layout w (S * K * R)) ->
  nth j (layout w (S * K * R)) 0 = m ->
  j / (R * start_of w S) = m / (R * S) /\ m / (R * S) < K.
Proof.
  intros Hper Hq Hj Hm.
  assert (HmM : m < S * K * R).
  { apply (@layout_In w). rewrite <- Hm. now apply nth_In. }
  apply layout_nth in Hm; [|exact Hj].
  assert (HP : R * S <> 0) by nia.
  set (P := R * S) in *. set (a := m / P).
  assert (Hlo : a * P <= m) by (subst a; rewrite Nat.mul_comm; now apply Nat.Div0.mul_div_le).
  assert (Hhi : m < (a + 1) * P).
  { subst a. rewrite Nat.mul_comm, Nat.add_1_r. apply Nat.mul_succ_div_gt. exact HP. }
  pose proof (@start_of_le w (a * P) m Hlo) as H1.
  assert (H2 : start_of w (Datatypes.S m) <= start_of w ((a + 1) * P))
    by (apply start_of_le; lia).
  rewrite start_of_succ in H2.
  assert (E1 : start_of w (a * P) = a * (R * start_of w S)).
  { subst P. replace (a * (R * S)) with (a * R * S) by lia.
    rewrite start_of_periodic by exact Hper. lia. }
  assert (E2 : start_of w ((a + 1) * P) = (a + 1) * (R * start_of w S)).
  { subst P. replace ((a + 1) * (R * S)) with ((a + 1) * R * S) by lia.
    rewrite start_of_periodic by exact Hper. lia. }
  split.
  - symmetry. apply Nat.div_unique with (j - a * (R * start_of w S)); lia.
  - subst a. apply Nat.Div0.div_lt_upper_bound. subst P. nia.
Qed.

Section EngineProperties.

Variable A : Type.
Variable zero : A.
Variable add mul : A -> A -> A.

(** What the segment-wise application of the activations computes at
    column [j], for segments of [q] columns. *)
Let act_at (acts : list (Activation A)) (q : nat) (x : Tensor2 A) (off r j : nat) : A :=
  match nth_error acts (j / q) with
  | Some act => act_fn act (at2 x r (off + j))
  | None => zero
  end.

Let chunk (x : Tensor2 A) (q k : nat) : Tensor2 A :=
  mkTensor2 (rows x) q (fun r j => at2 x r (k * q + j)).

Let activated (p : Activation A * Tensor2 A) : Tensor2 A :=
  mkTensor2 (rows (snd p)) (cols (snd p))
    (fun r j => act_fn (fst p) (at2 (snd p) r j)).

Lemma apply_activations_loop_uniform (q : nat) (pairs : list (Activation A * Tensor2 A)) :
  (forall p, In p pairs -> cols (snd p) = q) ->
  apply_activations_loop q pairs = Ok (map activated pairs).
Proof.
  induction pairs as [|[act t] pairs IH]; intros H; simpl; [reflexivity|].
  pose proof (H (act, t) (or_introl eq_refl)) as Hc. simpl in Hc.
  replace (cols t =? q) with true by (symmetry; now apply Nat.eqb_eq).
  simpl.
  rewrite IH by (intros p Hp; apply H; now right). reflexivity.
Qed.

(** The explicit check of [apply_activations] can fail only at a chunk
    whose width differs from the first one's. *)
Lemma apply_activations_loop_raises (q : nat) (pairs : list (Activation A * Tensor2 A)) (e : exn) :
  apply_activations_loop q pairs = Raise e ->
  e = RuntimeError msg_sub_tensors /\ exists p, In p pairs /\ cols (snd p) <> q.
Proof.
  induction pairs as [|[act t] pairs IH]; simpl; [discriminate|].
  destruct (cols t =? q) eqn:E; simpl.
  - destruct (apply_activations_loop q pairs) eqn:El; simpl; [discriminate|].
    intros H. inversion H; subst.
    destruct (IH eq_refl) as [He (p & Hp & Hc)].
    split; [exact He|]. exists p. split; [now right | exact Hc].
  - intros H. inversion H; subst. split; [reflexivity|].
    exists (act, t). split; [now left|]. simpl. now apply Nat.eqb_neq.
Qed.

Lemma cat_at_chunks (x : Tensor2 A) (q : nat) (acts : list (Activation A)) (a r j : nat) :
  q <> 0 ->
  j < length acts * q ->
  cat_at zero (map activated (combine acts (map (chunk x q) (seq a (length acts))))) r j
  = act_at acts q x (a * q) r j.
Proof.
  intros Hq. revert a j.
  induction acts as [|act acts IH]; intros a j Hj; simpl in Hj; [lia|].
  cbn [length seq map combine cat_at activated fst snd cols at2 chunk].
  unfold act_at.
  destruct (j <? q) eqn:E.
  - apply Nat.ltb_lt in E. rewrite Nat.div_small by exact E. reflexivity.
  - apply Nat.ltb_ge in E.
    rewrite (IH (S a) (j - q)) by lia. unfold act_at.
    replace (j / q) with (S ((j - q) / q)).
    + cbn [nth_error]. replace (S a * q + (j - q)) with (a * q + j) by lia.
      reflexivity.
    + replace j with ((j - q) + 1 * q) at 2 by lia.
      rewrite Nat.div_add by exact Hq. lia.
Qed.

Lemma list_sum_cols_chunks (x : Tensor2 A) (q : nat) (acts : list (Activation A)) (a : nat) :
  list_sum (map (@cols A)
              (map activated (combine acts (map (chunk x q) (seq a (length acts))))))
  = length acts * q.
Proof.
  revert a. induction acts as [|act acts IH]; intros a; [reflexivity|].
  cbn [length seq map combine list_sum fold_right].
  change (fold_right Nat.add 0 ?l) with (list_sum l).
  rewrite IH. simpl. lia.
Qed.

Lemma combine_app_short {T U : Type} (l : list T) (l1 rest : list U) :
  length l = length l1 -> combine l (l1 ++ rest) = combine l l1.
Proof.
  revert l1. induction l as [|x l IH]; intros [|y l1] H; simpl in *;
    try reflexivity; try discriminate.
  f_equal. apply IH. lia.
Qed.

(** The first [K] chunks of a tensor of at least [K * q] columns split by
    [q] are full. *)
Lemma split_dim1_prefix (x : Tensor2 A) (q K : nat) :
  q <> 0 -> K * q <= cols x ->
  exists rest, split_dim1 x q = Ok (map (chunk x q) (seq 0 K) ++ rest).
Proof.
  intros Hq Hc. unfold split_dim1, split_sizes.
  replace (q =? 0) with false by (symmetry; now apply Nat.eqb_neq).
  cbn [bind].
  set (n := Nat.max ((cols x + q - 1) / q) 1).
  assert (Hn : K <= n).
  { subst n. apply Nat.le_trans with ((cols x + q - 1) / q); [|apply Nat.le_max_l].
    apply Nat.le_trans with ((K * q) / q).
    - rewrite Nat.div_mul by exact Hq. lia.
    - apply Nat.Div0.div_le_mono. lia. }
  replace n with (K + (n - K)) by lia.
  rewrite seq_app, !map_app. eexists. f_equal. f_equal.
  rewrite map_map. apply map_ext_in. intros k Hk. apply in_seq in Hk.
  cbn [fst snd]. unfold chunk. f_equal.
  apply Nat.min_l. nia.
Qed.

(** [apply_activations] on an engine of [K] activations and split size
    [q >= 1], applied to a tensor of at least [K * q] columns: it returns
    [K * q] columns, column [j] being activation [j / q] of column [j].
    The chunks past the [K]-th are dropped by [zip]. *)
Lemma apply_activations_uniform (self : ParallelMLPs A) (x : Tensor2 A) (q : nat) :
  activations_split self = q -> q <> 0 -> activations self <> [] ->
  length (activations self) * q <= cols x ->
  exists y,
    apply_activations zero self x = Ok y
    /\ rows y = rows x /\ cols y = length (activations self) * q
    /\ forall r j, j < length (activations self) * q ->
         at2 y r j = act_at (activations self) q x 0 r j.
Proof.
  intros Hsplit Hq Hacts Hc. unfold apply_activations. rewrite Hsplit.
  assert (HK : length (activations self) <> 0)
    by (destruct (activations self); [congruence | discriminate]).
  destruct (@split_dim1_prefix x q (length (activations self)) Hq Hc) as [rest Hsp].
  rewrite Hsp. cbn [bind].
  set (acts := activations self) in *.
  rewrite combine_app_short by (now rewrite length_map, length_seq).
  assert (Hseq : seq 0 (length acts) = 0 :: seq 1 (length acts - 1)).
  { destruct (length acts); [congruence|]. simpl. now rewrite Nat.sub_0_r. }
  set (pairs := combine acts (map (chunk x q) (seq 0 (length acts)))).
  rewrite Hseq. cbn [map app]. change (cols (chunk x q 0)) with q.
  subst pairs.
  rewrite apply_activations_loop_uniform.
  2:{ intros [act t] Hp. apply in_combine_r in Hp. apply in_map_iff in Hp.
      destruct Hp as (k & <- & _). reflexivity. }
  cbn [bind].
  set (out := map activated (combine acts (map (chunk x q) (seq 0 (length acts))))).
  assert (Hout : out <> []).
  { intros E. apply (f_equal (@length _)) in E. subst out.
    rewrite length_map, length_combine, length_map, length_seq in E.
    simpl in E. lia. }
  assert (Hrows : forall t, In t out -> rows t = rows x).
  { intros t Ht. subst out. apply in_map_iff in Ht.
    destruct Ht as ([act t'] & <- & Hp). apply in_combine_r in Hp.
    apply in_map_iff in Hp. destruct Hp as (k & <- & _). reflexivity. }
  destruct out as [|t0 ts] eqn:Eout; [congruence|].
  cbn [cat_dim1]. rewrite <- Eout.
  eexists. split; [reflexivity|].
  cbn [rows cols at2].
  split; [apply Hrows; now left|].
  split; [subst out; rewrite list_sum_cols_chunks; lia|].
  intros r j Hj. subst out. rewrite cat_at_chunks by (try exact Hq; lia).
  reflexivity.
Qed.

End EngineProperties.

Section LaidOutEngine.

(** An engine over the layout of [K] activations, [R] repetitions and
    widths [w] of period [S], every model with at least one neuron. *)

Variable A : Type.
Variable zero : A.
Variable add mul : A -> A -> A.

Variable w : nat -> nat.
Variables S K R : nat.
Hypothesis Hper : forall m, w (m + S) = w m.
Hypothesis Hpos : forall m, 1 <= w m.
Hypothesis HS : S <> 0.
Hypothesis HK : K <> 0.
Hypothesis HR : R <> 0.

Variables in_f out_f : nat.
Variables out_ids arch_ids : list nat.
Variable acts : list (Activation A).
Hypothesis Hacts : length acts = K.
Variable hw : nat -> nat -> A.
Variable hb : nat -> A.
Variable W : nat -> nat -> A.
Variable b : nat -> nat -> A.

Variable e : ParallelMLPs A.
Hypothesis He :
  ParallelMLPs_init in_f out_f (layout w (S * K * R)) out_ids arch_ids acts hw hb W b
  = Ok e.

Lemma segment_neurons_pos : 0 < R * start_of w S.
Proof using Hpos HS HR.
  clear - Hpos HS HR.
  assert (H : start_of w S = start_of w (S - 1) + w (S - 1)).
  { rewrite <- start_of_succ. f_equal. lia. }
  pose proof (Hpos (S - 1)). rewrite H. nia.
Qed.

Lemma laid_out_total : start_of w (S * K * R) = K * (R * start_of w S).
Proof using Hper.
  clear - Hper.
  replace (S * K * R) with (K * R * S) by lia.
  rewrite start_of_periodic by exact Hper. lia.
Qed.

Lemma laid_out_fields :
  in_features e = in_f /\ out_features e = out_f /\ activations e = acts
  /\ hidden_neuron__model_id e = layout w (S * K * R)
  /\ total_hidden_neurons e = K * (R * start_of w S)
  /\ num_unique_models e = S * K * R
  /\ activations_split e = R * start_of w S
  /\ hidden_layer_weight e = hw /\ hidden_layer_bias e = hb
  /\ weight e = W /\ bias e = b.
Proof.
  unfold ParallelMLPs_init in He. rewrite Hacts in He.
  replace (K =? 0) with false in He by (symmetry; now apply Nat.eqb_neq).
  inversion He; subst e; clear He.
  cbn [in_features out_features activations hidden_neuron__model_id
       total_hidden_neurons num_unique_models activations_split
       hidden_layer_weight hidden_layer_bias weight bias].
  rewrite layout_length, laid_out_total.
  rewrite sorted_set_layout by exact Hpos. rewrite length_seq.
  repeat split; try reflexivity.
  rewrite Nat.mul_comm. apply Nat.div_mul. exact HK.
Qed.

(** The pre-activation of hidden neuron [j] on row [r] of the batch. *)
Let pre (X : Tensor2 A) (r j : nat) : A :=
  add (dot zero add mul in_f (at2 X r) (hw j)) (hb j).

(** The output of model [m] for feature [o] on row [r], as a sum over the
    neurons of the model with activation [act]. *)
Let model_out (X : Tensor2 A) (act : Activation A) (r m o : nat) : A :=
  add (fold_left (fun acc j => add acc (mul (act_fn act (pre X r j)) (W o j)))
         (model_neurons e m) zero)
      (b m o).

Lemma model_neurons_segment (m j : nat) :
  In j (model_neurons e m) ->
  j < K * (R * start_of w S) /\ j / (R * start_of w S) = m / (R * S) /\ m / (R * S) < K.
Proof.
  destruct laid_out_fields as (_ & _ & _ & Hh & _).
  unfold model_neurons. rewrite Hh. intros Hin.
  apply filter_In in Hin. destruct Hin as [Hj Hm].
  apply in_seq in Hj. apply Nat.eqb_eq in Hm.
  assert (Hlen : j < length (layout w (S * K * R))) by lia.
  split.
  - rewrite layout_length, laid_out_total in Hlen. exact Hlen.
  - apply (@layout_segment w S K R j m Hper segment_neurons_pos Hlen Hm).
Qed.

Lemma model_neurons_nonempty (m : nat) :
  m < S * K * R -> exists first rest, model_neurons e m = first :: rest.
Proof.
  destruct laid_out_fields as (_ & _ & _ & Hh & _).
  intros Hm.
  assert (Hin : In (start_of w m) (model_neurons e m)).
  { unfold model_neurons. rewrite Hh. apply filter_In.
    assert (Hlt : start_of w m < length (layout w (S * K * R))).
    { rewrite layout_length.
      pose proof (@start_of_le w (Datatypes.S m) (S * K * R) Hm) as Hle.
      rewrite start_of_succ in Hle. pose proof (Hpos m). lia. }
    split; [apply in_seq; lia|].
    apply Nat.eqb_eq. apply layout_nth; [exact Hlt|]. pose proof (Hpos m). lia. }
  destruct (model_neurons e m) as [|first rest]; [contradiction|].
  now exists first, rest.
Qed.

(** [forward] returns, and entry [(r, m, o)] of its result is the sum over
    the neurons of model [m]. *)
Lemma laid_out_forward (X : Tensor2 A) :
  cols X = in_f ->
  exists y,
    forward zero add mul e X = Ok y
    /\ dim0 y = rows X /\ dim1 y = S * K * R /\ dim2 y = out_f
    /\ forall r m o act,
         nth_error acts (m / (R * S)) = Some act ->
         at3 y r m o = model_out X act r m o.
Proof.
  intros HX.
  destruct laid_out_fields
    as (Hin & Hout & Ha & Hh & Htot & Hnum & Hsplit & Hhw & Hhb & HW & Hb).
  unfold forward, hidden_layer, Linear.
  rewrite Hin, HX, Nat.eqb_refl. cbn [bind].
  set (x1 := mkTensor2 (rows X) (total_hidden_neurons e)
               (fun r j => add (dot zero add mul in_f (at2 X r) (hidden_layer_weight e j))
                               (hidden_layer_bias e j))).
  destruct (@apply_activations_uniform A zero e x1 (R * start_of w S))
    as (x2 & Hx2 & Hrows & Hcols & Hat).
  { exact Hsplit. }
  { pose proof segment_neurons_pos. lia. }
  { rewrite Ha. intros E. rewrite E in Hacts. simpl in Hacts. congruence. }
  { rewrite Ha, Hacts. cbn [cols x1]. rewrite Htot. lia. }
  rewrite Ha, Hacts in Hcols, Hat.
  rewrite Hx2. cbn [bind].
  unfold mul_weight. rewrite Hcols, Htot.
  unfold broadcast_dim. rewrite Nat.eqb_refl. cbn [bind].
  unfold scatter_add_zeros. cbn [dim1].
  assert (Hlen : length (hidden_neuron__model_id e) = K * (R * start_of w S))
    by (rewrite Hh, layout_length; apply laid_out_total).
  cbv zeta. rewrite Hlen, Nat.leb_refl.
  cbn [negb].
  assert (Hall : forallb (fun m => m <? num_unique_models e)
                   (hidden_neuron__model_id e) = true).
  { apply forallb_forall. intros m Hm. rewrite Hh in Hm.
    apply layout_In in Hm. rewrite Hnum. now apply Nat.ltb_lt. }
  rewrite Hall, !orb_true_r. cbn [bind].
  eexists. split; [reflexivity|].
  cbn [dim0 dim1 dim2 at3].
  split; [reflexivity|]. split; [exact Hnum|]. split; [exact Hout|].
  intros r m o act Hact. unfold model_out. rewrite Hb. f_equal.
  unfold scatter_sum. rewrite fold_left_filter.
  change (filter _ _) with (model_neurons e m).
  apply fold_left_ext_on. intros acc j Hj.
  destruct (model_neurons_segment m j Hj) as (Hjlt & Hjseg & _).
  f_equal.
  assert (Hb1 : bidx (K * (R * start_of w S)) j = j).
  { unfold bidx. destruct (K * (R * start_of w S) =? 1) eqn:E; [|reflexivity].
    apply Nat.eqb_eq in E. lia. }
  rewrite Hb1, HW. f_equal.
  rewrite Hat by exact Hjlt.
  rewrite Hjseg, Hact. cbn [x1 at2]. rewrite Hhw, Hhb. reflexivity.
Qed.

(** [extract_mlp] returns a network for every model, with the activation
    of the model's segment, and the network computes the same sum. *)
Lemma laid_out_extract (X : Tensor2 A) (m : nat) :
  cols X = in_f -> m < S * K * R ->
  exists net act z,
    extract_mlp e m = Ok net
    /\ nth_error acts (m / (R * S)) = Some act
    /\ seq_activation net = act
    /\ Sequential_call zero add mul net X = Ok z
    /\ rows z = rows X /\ cols z = out_f
    /\ forall r o, at2 z r o = model_out X act r m o.
Proof.
  intros HX Hm.
  destruct laid_out_fields
    as (Hin & Hout & Ha & Hh & Htot & Hnum & Hsplit & Hhw & Hhb & HW & Hb).
  destruct (model_neurons_nonempty Hm) as (first & rest & Hne).
  assert (Hfirst : In first (model_neurons e m)) by (rewrite Hne; now left).
  destruct (model_neurons_segment m first Hfirst) as (_ & Hseg & HltK).
  destruct (nth_error acts (m / (R * S))) as [act|] eqn:Hact.
  2:{ apply nth_error_None in Hact. lia. }
  unfold extract_mlp, activation_index.
  rewrite Hnum. replace (S * K * R <=? m) with false by (symmetry; apply Nat.leb_gt; lia).
  rewrite Hne, Hsplit.
  replace (R * start_of w S =? 0) with false
    by (symmetry; apply Nat.eqb_neq; pose proof segment_neurons_pos; lia).
  cbn [bind]. rewrite Hseg, Ha, Hact. rewrite <- Hne.
  eexists _, act, _. split; [reflexivity|].
  split; [reflexivity|]. split; [reflexivity|].
  unfold Sequential_call, Linear.
  cbn [seq_in_features seq_hidden_features seq_hidden_weight seq_hidden_bias
       seq_activation seq_out_features seq_out_weight seq_out_bias].
  rewrite Hin, HX, Nat.eqb_refl. cbn [bind rows cols at2].
  rewrite Nat.eqb_refl.
  split; [reflexivity|]. cbn [rows cols at2].
  split; [reflexivity|]. split; [exact Hout|].
  intros r o. unfold model_out. rewrite Hb. f_equal.
  rewrite Hhw, Hhb, HW.
  exact (fold_left_seq_nth
           (fun acc j => add acc (mul (act_fn act (pre X r j)) (W o j)))
           0 (model_neurons e m) zero).
Qed.

(** [apply_activations] applies to every neuron of model [m] the
    activation of the segment of [m]. *)
Lemma laid_out_apply_activations (x : Tensor2 A) :
  cols x = K * (R * start_of w S) ->
  exists y,
    apply_activations zero e x = Ok y
    /\ forall r m j act,
         In j (model_neurons e m) ->
         nth_error acts (m / (R * S)) = Some act ->
         at2 y r j = act_fn act (at2 x r j).
Proof.
  intros Hc.
  destruct laid_out_fields as (_ & _ & Ha & _ & _ & _ & Hsplit & _).
  destruct (@apply_activations_uniform A zero e x (R * start_of w S))
    as (y & Hy & _ & _ & Hat).
  { exact Hsplit. }
  { pose proof segment_neurons_pos. lia. }
  { rewrite Ha. intros E. rewrite E in Hacts. simpl in Hacts. congruence. }
  { rewrite Ha, Hacts, Hc. lia. }
  exists y. split; [exact Hy|].
  intros r m j act Hj Hact.
  destruct (model_neurons_segment m j Hj) as (Hjlt & Hjseg & _).
  rewrite Hat by (rewrite Ha, Hacts; exact Hjlt).
  rewrite Ha, Hjseg, Hact. reflexivity.
Qed.

End LaidOutEngine.

Lemma width_pos (min_neurons step : Z) (S m : nat) :
  S <> 0 -> (1 <= min_neurons)%Z -> (0 <= step)%Z ->
  1 <= width (neuron_sequence min_neurons step S) m.
Proof.
  intros HS Hmin Hstep.
  pose proof (@width_nonneg_exact min_neurons step S m HS) as Hw.
  rewrite neuron_sequence_nth in Hw by (apply Nat.mod_upper_bound; exact HS).
  specialize (Hw ltac:(lia) Hstep). nia.
Qed.

Lemma neuron_count_pos (min_neurons max_neurons step : Z) :
  (min_neurons <= max_neurons)%Z -> (1 <= step)%Z ->
  Z.to_nat ((max_neurons - min_neurons) / step + 1) <> 0.
Proof.
  intros Hmm Hstep.
  assert (0 <= (max_neurons - min_neurons) / step)%Z by (apply Z.div_pos; lia).
  lia.
Qed.

Lemma ParallelMLPs_init_Ok (A : Type) (in_f out_f : nat) (h o a : list nat)
  (acts : list (Activation A)) (hw : nat -> nat -> A) (hb : nat -> A)
  (W b : nat -> nat -> A) :
  acts <> [] ->
  exists e, ParallelMLPs_init in_f out_f h o a acts hw hb W b = Ok e.
Proof.
  intros Hne. unfold ParallelMLPs_init.
  destruct acts as [|act acts]; [congruence|].
  cbn [length Nat.eqb]. eexists. reflexivity.
Qed.

(** C1 (forward and extraction agree). For a configuration with
    [R >= 1], at least one activation, distinct class names,
    [1 <= min <= max] and [step >= 1], the engine built from the arrays of
    [build_model_ids], whatever its parameters hold, and a batch [X] of
    [in_features] columns: [forward] returns a tensor of shape
    [batch, M, out_features]; for every model id [m < M], [extract_mlp]
    returns a network, the network applied to [X] returns a tensor of
    shape [batch, out_features], and its entry [(r, o)] is entry
    [(r, m, o)] of the result of [forward]. Sums are taken in index order
    on both sides, so the two entries are the same scalar expression:
    whatever remains between the two in floating point is the order of
    summation of the library kernels. *)
Theorem forward_extract_equivalence (A : Type) (zero : A) (add mul : A -> A -> A)
  (R : Z) (acts : list (Activation A)) (min_neurons max_neurons step : Z)
  (in_f out_f : nat) (hw : nat -> nat -> A) (hb : nat -> A) (W b : nat -> nat -> A)
  (X : Tensor2 A) (m : nat) :
  (1 <= R)%Z -> acts <> [] -> NoDup (map (@class_name A) acts) ->
  (1 <= min_neurons)%Z -> (min_neurons <= max_neurons)%Z -> (1 <= step)%Z ->
  cols X = in_f ->
  m < Z.to_nat ((max_neurons - min_neurons) / step + 1) * length acts * Z.to_nat R ->
  exists h o a e y net z,
    build_model_ids R acts min_neurons max_neurons step = Ok (h, o, a)
    /\ ParallelMLPs_init in_f out_f h o a acts hw hb W b = Ok e
    /\ forward zero add mul e X = Ok y
    /\ dim0 y = rows X
    /\ dim1 y =
       Z.to_nat ((max_neurons - min_neurons) / step + 1) * length acts * Z.to_nat R
    /\ dim2 y = out_f
    /\ extract_mlp e m = Ok net
    /\ Sequential_call zero add mul net X = Ok z
    /\ rows z = rows X /\ cols z = out_f
    /\ forall r o, at2 z r o = at3 y r m o.
Proof.
  intros HR Hne Hnd Hmin Hmm Hstep HX Hm.
  pose proof (arange_neuron_sequence Hmm Hstep) as Har.
  pose proof (neuron_count_pos Hmm Hstep) as HS0.
  set (S := Z.to_nat ((max_neurons - min_neurons) / step + 1)) in *.
  set (ns := neuron_sequence min_neurons step S) in *.
  assert (HS : length ns = S) by apply neuron_sequence_length.
  pose proof (@build_model_ids_Ok A R _ _ _ _ _ Hne Hnd Har) as Hb. cbv zeta in Hb.
  rewrite HS in Hb.
  set (h := layout (width ns) (S * length acts * Z.to_nat R)) in *.
  destruct (@ParallelMLPs_init_Ok A in_f out_f h (groupby_keys h)
              (list_times (firstn (length acts * S) (groupby_keys h)) R)
              acts hw hb W b Hne) as [e He].
  assert (Hper : forall k, width ns (k + S) = width ns k)
    by (intros k; rewrite <- HS; apply width_periodic).
  assert (Hpos : forall k, 1 <= width ns k)
    by (intros k; apply width_pos; [exact HS0 | lia | lia]).
  assert (HK : length acts <> 0)
    by (destruct acts; [congruence | discriminate]).
  assert (HRn : Z.to_nat R <> 0) by lia.
  destruct (@laid_out_forward A zero add mul (width ns) S (length acts) (Z.to_nat R)
              Hper Hpos HS0 HK HRn in_f out_f _ _ acts eq_refl hw hb W b e He X HX)
    as (y & Hy & Hd0 & Hd1 & Hd2 & Hyat).
  destruct (@laid_out_extract A zero add mul (width ns) S (length acts) (Z.to_nat R)
              Hper Hpos HS0 HK HRn in_f out_f _ _ acts eq_refl hw hb W b e He X m HX Hm)
    as (net & act & z & Hnet & Hact & _ & Hz & Hzr & Hzc & Hzat).
  exists h, (groupby_keys h),
    (list_times (firstn (length acts * S) (groupby_keys h)) R), e, y, net, z.
  repeat (split; [assumption|]).
  intros r o. rewrite Hzat. symmetry. apply Hyat. exact Hact.
Qed.

(** The activation the code gives a model. For a configuration with
    [R >= 1], distinct activations, [1 <= min <= max] and [step >= 1],
    with [S] neuron counts, [K] activations
    and [R] repetitions, the hidden layer is cut into [K] segments of
    [R * S] consecutive models: [extract_mlp] gives model [m] the
    activation [activations[m // (R * S)]], and [apply_activations]
    applies that activation to every hidden neuron of [m]. *)
Theorem activation_of_model_segment (A : Type) (zero : A)
  (R : Z) (acts : list (Activation A)) (min_neurons max_neurons step : Z)
  (in_f out_f : nat) (hw : nat -> nat -> A) (hb : nat -> A) (W b : nat -> nat -> A)
  (m : nat) :
  (1 <= R)%Z -> acts <> [] -> NoDup (map (@class_name A) acts) ->
  (1 <= min_neurons)%Z -> (min_neurons <= max_neurons)%Z -> (1 <= step)%Z ->
  m < Z.to_nat ((max_neurons - min_neurons) / step + 1) * length acts * Z.to_nat R ->
  exists h o a e net act,
    build_model_ids R acts min_neurons max_neurons step = Ok (h, o, a)
    /\ ParallelMLPs_init in_f out_f h o a acts hw hb W b = Ok e
    /\ nth_error acts
         (m / (Z.to_nat R * Z.to_nat ((max_neurons - min_neurons) / step + 1)))
       = Some act
    /\ extract_mlp e m = Ok net
    /\ seq_activation net = act
    /\ model_neurons e m <> []
    /\ forall x, cols x = length h ->
         exists y,
           apply_activations zero e x = Ok y
           /\ forall r j, In j (model_neurons e m) ->
                 at2 y r j = act_fn act (at2 x r j).
Proof.
  intros HR Hne Hnd Hmin Hmm Hstep Hm.
  pose proof (arange_neuron_sequence Hmm Hstep) as Har.
  pose proof (neuron_count_pos Hmm Hstep) as HS0.
  set (S := Z.to_nat ((max_neurons - min_neurons) / step + 1)) in *.
  set (ns := neuron_sequence min_neurons step S) in *.
  assert (HS : length ns = S) by apply neuron_sequence_length.
  pose proof (@build_model_ids_Ok A R _ _ _ _ _ Hne Hnd Har) as Hb. cbv zeta in Hb.
  rewrite HS in Hb.
  set (h := layout (width ns) (S * length acts * Z.to_nat R)) in *.
  destruct (@ParallelMLPs_init_Ok A in_f out_f h (groupby_keys h)
              (list_times (firstn (length acts * S) (groupby_keys h)) R)
              acts hw hb W b Hne) as [e He].
  assert (Hper : forall k, width ns (k + S) = width ns k)
    by (intros k; rewrite <- HS; apply width_periodic).
  assert (Hpos : forall k, 1 <= width ns k)
    by (intros k; apply width_pos; [exact HS0 | lia | lia]).
  assert (HK : length acts <> 0)
    by (destruct acts; [congruence | discriminate]).
  assert (HRn : Z.to_nat R <> 0) by lia.
  destruct (@laid_out_extract A zero (fun x _ => x) (fun x _ => x)
              (width ns) S (length acts) (Z.to_nat R)
              Hper Hpos HS0 HK HRn in_f out_f _ _ acts eq_refl hw hb W b e He
              (mkTensor2 0 in_f (fun _ _ => zero)) m eq_refl Hm)
    as (net & act & _ & Hnet & Hact & Hsa & _).
  destruct (@model_neurons_nonempty A (width ns) S (length acts) (Z.to_nat R)
              Hper Hpos HS0 HK HRn in_f out_f _ _ acts eq_refl hw hb W b e He m Hm)
    as (first & rest & Hfirst).
  exists h, (groupby_keys h),
    (list_times (firstn (length acts * S) (groupby_keys h)) R), e, net, act.
  split; [exact Hb|]. split; [exact He|]. split; [exact Hact|].
  split; [exact Hnet|]. split; [exact Hsa|].
  split; [rewrite Hfirst; discriminate|].
  intros x Hx.
  destruct (@laid_out_apply_activations A zero (width ns) S (length acts) (Z.to_nat R)
              Hper Hpos HS0 HK HRn in_f out_f _ _ acts eq_refl hw hb W b e He x)
    as (y & Hy & Hat).
  { rewrite Hx. unfold h. rewrite layout_length.
    apply laid_out_total. exact Hper. }
  exists y. split; [exact Hy|].
  intros r j Hj. exact (Hat r m j act Hj Hact).
Qed.

Lemma activation_of_model_segment_witness :
  exists h o a e net act,
    build_model_ids 3 test_acts 1 3 1 = Ok (h, o, a)
    /\ ParallelMLPs_init 3 2 h o a test_acts test_hw test_hb test_W test_b = Ok e
    /\ nth_error test_acts (12 / (3 * 3)) = Some act
    /\ extract_mlp e 12 = Ok net
    /\ seq_activation net = act.
Proof.
  destruct (@activation_of_model_segment Z 0%Z 3 test_acts 1 3 1 3 2
              test_hw test_hb test_W test_b 12)
    as (h & o & a & e & net & act & H1 & H2 & H3 & H4 & H5 & _);
    [lia | discriminate | exact NoDup_test_acts | lia | lia | lia
    | vm_compute; lia |].
  exists h, o, a, e, net, act. repeat (split; [assumption|]). exact H5.
Defined.

Lemma forward_extract_equivalence_witness :
  exists h o a e y net z,
    build_model_ids 3 test_acts 1 3 1 = Ok (h, o, a)
    /\ ParallelMLPs_init 3 2 h o a test_acts test_hw test_hb test_W test_b = Ok e
    /\ forward 0%Z Z.add Z.mul e test_X = Ok y
    /\ extract_mlp e 4 = Ok net
    /\ Sequential_call 0%Z Z.add Z.mul net test_X = Ok z
    /\ forall r o, at2 z r o = at3 y r 4 o.
Proof.
  destruct (@forward_extract_equivalence Z 0%Z Z.add Z.mul 3 test_acts 1 3 1 3 2
              test_hw test_hb test_W test_b test_X 4)
    as (h & o & a & e & y & net & z & H1 & H2 & H3 & _ & _ & _ & H4 & H5 & _ & _ & H6);
    [lia | discriminate | exact NoDup_test_acts | lia | lia | lia | reflexivity
    | vm_compute; lia |].
  exists h, o, a, e, y, net, z. repeat (split; [assumption|]). exact H6.
Defined.

Section SegmentCheck.

Variable A : Type.
Variable zero : A.
Variable add mul : A -> A -> A.

Variables in_f out_f : nat.
Variables h out_ids arch_ids : list nat.
Variable acts : list (Activation A).
Variable hw : nat -> nat -> A.
Variable hb : nat -> A.
Variable W : nat -> nat -> A.
Variable b : nat -> nat -> A.
Variable e : ParallelMLPs A.
Hypothesis He :
  ParallelMLPs_init in_f out_f h out_ids arch_ids acts hw hb W b = Ok e.

Lemma init_fields :
  length acts <> 0
  /\ in_features e = in_f /\ out_features e = out_f /\ activations e = acts
  /\ hidden_neuron__model_id e = h
  /\ total_hidden_neurons e = length h
  /\ activations_split e = length h / length acts.
Proof.
  unfold ParallelMLPs_init in He.
  destruct (length acts =? 0) eqn:EK; [discriminate|].
  apply Nat.eqb_neq in EK.
  inversion He; subst e; clear He. repeat split; try reflexivity. exact EK.
Qed.

(** With a hidden layer of [K * activations_split] neurons the loop of
    [apply_activations] finds every chunk as wide as the first. *)
Lemma apply_activations_divisible (x : Tensor2 A) :
  length h mod length acts = 0 -> cols x = length h ->
  exists y, apply_activations zero e x = Ok y /\ cols y = length h.
Proof.
  intros Hdiv Hc.
  destruct init_fields as (HK & _ & _ & Ha & _ & _ & Hsplit).
  assert (Htot : length h = length acts * (length h / length acts))
    by (apply Nat.Div0.div_exact; exact Hdiv).
  destruct (Nat.eq_dec (length h / length acts) 0) as [Hq|Hq].
  - rewrite Hq, Nat.mul_0_r in Htot.
    unfold apply_activations, split_dim1, split_sizes.
    rewrite Hsplit, Hq, Hc, Htot. cbn [Nat.eqb bind map].
    rewrite Ha. destruct acts as [|act0 acts']; [simpl in HK; congruence|].
    cbn. rewrite combine_nil. cbn. eexists. split; reflexivity.
  - destruct (@apply_activations_uniform A zero e x (length h / length acts))
      as (y & Hy & _ & Hcols & _).
    + exact Hsplit.
    + exact Hq.
    + rewrite Ha. intros E. rewrite E in HK. simpl in HK. congruence.
    + rewrite Ha, Hc. lia.
    + exists y. split; [exact Hy|]. rewrite Hcols, Ha. lia.
Qed.

(** On a batch of the right width, an engine whose number of hidden
    neurons is not a multiple of its number of activations fails in
    [split] when it has fewer neurons than activations, and otherwise in
    the product with the output weight: [zip] has dropped the chunks
    after the [K]-th, and the activations have fewer columns than the
    weight. *)
Lemma forward_nondivisible_raises (X : Tensor2 A) :
  length h mod length acts <> 0 -> cols X = in_f ->
  forward zero add mul e X
  = Raise (RuntimeError (if length h <? length acts then msg_split
                         else msg_broadcast)).
Proof.
  intros Hnd HX.
  destruct init_fields as (HK & Hin & _ & Ha & _ & Htot & Hsplit).
  pose proof (Nat.Div0.mul_div_le (length h) (length acts)) as Hle.
  unfold forward, hidden_layer, Linear.
  rewrite Hin, HX, Nat.eqb_refl. cbn [bind].
  set (x1 := mkTensor2 (rows X) (total_hidden_neurons e) _).
  destruct (Nat.eq_dec (length h / length acts) 0) as [Hq|Hq].
  - assert (Hlt : length h < length acts) by (apply Nat.div_small_iff; assumption).
    replace (length h <? length acts) with true by (symmetry; now apply Nat.ltb_lt).
    unfold apply_activations, split_dim1, split_sizes.
    rewrite Hsplit, Hq. cbn [Nat.eqb cols x1]. rewrite Htot.
    destruct (length h =? 0) eqn:E0.
    + apply Nat.eqb_eq in E0. rewrite E0 in Hnd.
      rewrite Nat.Div0.mod_0_l in Hnd. congruence.
    + reflexivity.
  - assert (Hge : ~ length h < length acts)
      by (intros Hlt; apply Hq; now apply Nat.div_small).
    replace (length h <? length acts) with false by (symmetry; now apply Nat.ltb_nlt).
    destruct (@apply_activations_uniform A zero e x1 (length h / length acts))
      as (x2 & Hx2 & _ & Hcols & _).
    + exact Hsplit.
    + exact Hq.
    + rewrite Ha. intros E. rewrite E in HK. simpl in HK. congruence.
    + rewrite Ha. cbn [cols x1]. rewrite Htot. lia.
    + rewrite Hx2. cbn [bind]. unfold mul_weight. rewrite Hcols, Ha, Htot.
      assert (Hne : length acts * (length h / length acts) <> length h).
      { intros E. apply Hnd. rewrite <- E, Nat.mul_comm. apply Nat.Div0.mod_mul. }
      assert (HK1 : length acts <> 1).
      { intros E. apply Hnd. rewrite E. apply Nat.mod_1_r. }
      unfold broadcast_dim.
      replace (length acts * (length h / length acts) =? length h) with false
        by (symmetry; now apply Nat.eqb_neq).
      replace (length acts * (length h / length acts) =? 1) with false
        by (symmetry; apply Nat.eqb_neq; nia).
      replace (length h =? 1) with false
        by (symmetry; apply Nat.eqb_neq; nia).
      reflexivity.
Qed.

Lemma forward_wrong_width (X : Tensor2 A) :
  cols X <> in_f -> forward zero add mul e X = Raise (RuntimeError msg_linear).
Proof.
  intros HX. destruct init_fields as (_ & Hin & _).
  unfold forward, hidden_layer, Linear. rewrite Hin.
  replace (cols X =? in_f) with false by (symmetry; now apply Nat.eqb_neq).
  reflexivity.
Qed.

(** With a multiple of [K] hidden neurons, [forward] on a batch of the
    right width gets through [split], the activations and the product;
    what is left to fail is the index of [scatter_add_]. *)
Lemma forward_divisible_outcome (X : Tensor2 A) :
  length h mod length acts = 0 -> cols X = in_f ->
  (exists y, forward zero add mul e X = Ok y)
  \/ forward zero add mul e X = Raise (RuntimeError msg_scatter).
Proof.
  intros Hdiv HX.
  destruct init_fields as (HK & Hin & _ & Ha & Hh & Htot & Hsplit).
  unfold forward, hidden_layer, Linear.
  rewrite Hin, HX, Nat.eqb_refl. cbn [bind].
  set (x1 := mkTensor2 (rows X) (total_hidden_neurons e) _).
  destruct (@apply_activations_divisible x1 Hdiv) as (x2 & Hx2 & Hc2);
    [cbn [cols x1]; exact Htot|].
  rewrite Hx2. cbn [bind]. unfold mul_weight.
  rewrite Hc2, Htot. unfold broadcast_dim. rewrite Nat.eqb_refl. cbn [bind].
  unfold scatter_add_zeros. cbn [dim1]. rewrite Hh, Nat.leb_refl. cbn [negb].
  match goal with
  | |- context [if ?c then _ else _] => destruct c
  end; cbn [bind]; [left; eexists; reflexivity | right; reflexivity].
Qed.

Lemma forward_no_segment_error (X : Tensor2 A) :
  forward zero add mul e X <> Raise (RuntimeError msg_sub_tensors).
Proof.
  destruct (Nat.eq_dec (cols X) in_f) as [HX|HX];
    [|rewrite (@forward_wrong_width X HX); discriminate].
  destruct (Nat.eq_dec (length h mod length acts) 0) as [Hdiv|Hnd].
  - destruct (@forward_divisible_outcome X Hdiv HX) as [[y ->]| ->]; discriminate.
  - rewrite (@forward_nondivisible_raises X Hnd HX).
    destruct (length h <? length acts); discriminate.
Qed.

End SegmentCheck.

(** C4 (segments of unequal size). For an engine whose number of hidden
    neurons is not a multiple of its number [K] of activations, every
    [forward] call raises a [RuntimeError] before any output exists: on a
    batch of [in_features] columns it is the shape error of [split] when
    there are fewer neurons than activations, and otherwise the shape
    error of the product with the output weight (any other batch is
    refused by the hidden layer). For an engine whose number of hidden
    neurons is a multiple of [K], [forward] raises neither of these two
    errors on any batch, and on a batch of [in_features] columns the
    segments are uniform: [apply_activations] returns a tensor with every
    hidden neuron. The error written in [apply_activations] itself is
    raised by [forward] on no engine and no batch: [zip] pairs the first
    [K] chunks only, so the failure above is the one of [split] or of the
    product. *)
Theorem forward_segment_check (A : Type) (zero : A) (add mul : A -> A -> A)
  (in_f out_f : nat) (h out_ids arch_ids : list nat) (acts : list (Activation A))
  (hw : nat -> nat -> A) (hb : nat -> A) (W b : nat -> nat -> A)
  (e : ParallelMLPs A) :
  ParallelMLPs_init in_f out_f h out_ids arch_ids acts hw hb W b = Ok e ->
  (length h mod length acts <> 0 ->
   forall X,
     forward zero add mul e X
     = Raise (RuntimeError
                (if cols X =? in_f
                 then if length h <? length acts then msg_split else msg_broadcast
                 else msg_linear)))
  /\ (length h mod length acts = 0 ->
      forall X,
        forward zero add mul e X <> Raise (RuntimeError msg_split)
        /\ forward zero add mul e X <> Raise (RuntimeError msg_broadcast)
        /\ (cols X = in_f ->
            exists x1 x2,
              hidden_layer zero add mul e X = Ok x1
              /\ apply_activations zero e x1 = Ok x2
              /\ cols x2 = length h))
  /\ (forall X, forward zero add mul e X <> Raise (RuntimeError msg_sub_tensors)).
Proof.
  intros He. split; [|split].
  - intros Hnd X. destruct (Nat.eq_dec (cols X) in_f) as [HX|HX].
    + rewrite HX, Nat.eqb_refl.
      exact (@forward_nondivisible_raises A zero add mul _ _ _ _ _ _ _ _ _ _ e He
               X Hnd HX).
    + replace (cols X =? in_f) with false by (symmetry; now apply Nat.eqb_neq).
      exact (@forward_wrong_width A zero add mul _ _ _ _ _ _ _ _ _ _ e He X HX).
  - intros Hdiv X.
    assert (Hout : forward zero add mul e X <> Raise (RuntimeError msg_split)
                   /\ forward zero add mul e X <> Raise (RuntimeError msg_broadcast)).
    { destruct (Nat.eq_dec (cols X) in_f) as [HX|HX].
      - destruct (@forward_divisible_outcome A zero add mul _ _ _ _ _ _ _ _ _ _ e He
                    X Hdiv HX) as [[y ->]| ->]; split; discriminate.
      - rewrite (@forward_wrong_width A zero add mul _ _ _ _ _ _ _ _ _ _ e He X HX).
        split; discriminate. }
    destruct Hout as [H1 H2]. split; [exact H1|]. split; [exact H2|].
    intros HX.
    destruct (@init_fields A _ _ _ _ _ _ _ _ _ _ e He) as (_ & Hin & _ & _ & _ & Htot & _).
    unfold hidden_layer, Linear. rewrite Hin, HX, Nat.eqb_refl.
    eexists.
    destruct (@apply_activations_divisible A zero in_f out_f h out_ids arch_ids
                acts hw hb W b e He
                (mkTensor2 (rows X) (total_hidden_neurons e)
                   (fun r j => add (dot zero add mul in_f (at2 X r)
                                      (hidden_layer_weight e j))
                                   (hidden_layer_bias e j)))
                Hdiv Htot) as (x2 & Hx2 & Hc).
    exists x2. split; [reflexivity|]. split; [exact Hx2 | exact Hc].
  - intros X.
    exact (@forward_no_segment_error A zero add mul _ _ _ _ _ _ _ _ _ _ e He X).
Qed.

(** Three hidden neurons for two activations: [split(1)] gives three
    chunks, [zip] pairs two of them, and the product of the two columns
    left with the three columns of the output weight fails. *)
Lemma forward_segment_check_witness :
  exists e,
    ParallelMLPs_init 3 2 [0; 0; 1] [0; 1] [0; 1] test_acts
      test_hw test_hb test_W test_b = Ok e
    /\ forward 0%Z Z.add Z.mul e test_X = Raise (RuntimeError msg_broadcast).
Proof.
  destruct (@ParallelMLPs_init_Ok Z 3 2 [0; 0; 1] [0; 1] [0; 1] test_acts
              test_hw test_hb test_W test_b) as [e He]; [discriminate|].
  destruct (@forward_segment_check Z 0%Z Z.add Z.mul 3 2 [0; 0; 1] [0; 1] [0; 1]
              test_acts test_hw test_hb test_W test_b e He) as [Hbad _].
  exists e. split; [exact He|].
  exact (Hbad ltac:(discriminate) test_X).
Defined.

(** The segment check of [apply_activations] is never what fails: on a
    tensor with one column per hidden neuron the chunks that [zip] pairs
    with an activation are all as wide as the first. *)
Lemma apply_activations_check_unreachable (A : Type) (zero : A)
  (in_f out_f : nat) (h out_ids arch_ids : list nat) (acts : list (Activation A))
  (hw : nat -> nat -> A) (hb : nat -> A) (W b : nat -> nat -> A)
  (e : ParallelMLPs A) (x : Tensor2 A) :
  ParallelMLPs_init in_f out_f h out_ids arch_ids acts hw hb W b = Ok e ->
  cols x = length h ->
  apply_activations zero e x <> Raise (RuntimeError msg_sub_tensors).
Proof.
  intros He Hc.
  destruct (@init_fields A _ _ _ _ _ _ _ _ _ _ e He) as (HK & _ & _ & Ha & _ & _ & Hsplit).
  destruct (Nat.eq_dec (length h / length acts) 0) as [Hq|Hq].
  - unfold apply_activations, split_dim1, split_sizes.
    rewrite Hsplit, Hq, Hc. cbn [Nat.eqb].
    destruct (length h =? 0) eqn:E0; [|cbn [bind]; discriminate].
    apply Nat.eqb_eq in E0.
    destruct (@apply_activations_divisible A zero _ _ _ _ _ _ _ _ _ _ e He x)
      as (y & Hy & _); [rewrite E0; apply Nat.Div0.mod_0_l | exact Hc |].
    unfold apply_activations, split_dim1, split_sizes in Hy.
    rewrite Hsplit, Hq, Hc in Hy. cbn [Nat.eqb] in Hy. rewrite E0 in Hy.
    cbn [Nat.eqb] in Hy. rewrite Hy. discriminate.
  - destruct (@apply_activations_uniform A zero e x (length h / length acts))
      as (y & Hy & _).
    + exact Hsplit.
    + exact Hq.
    + rewrite Ha. intros E. rewrite E in HK. simpl in HK. congruence.
    + rewrite Ha, Hc. apply Nat.Div0.mul_div_le.
    + rewrite Hy. discriminate.
Qed.

(** C2 (which activation a model gets), evaluated on the configuration of
    the tests: 3 repetitions, [LeakyReLU] and [Sigmoid], 1 to 3 neurons
    ([S = 3], [K = 2], 18 models, 36 hidden neurons, segments of 18
    neurons). Model 3 owns hidden neuron 6 alone. [extract_mlp] gives it
    [LeakyReLU], and [apply_activations] applies [LeakyReLU] to column 6,
    where [activations[(3 // 3) mod 2]] is [Sigmoid]. Models 0 and 12
    have the same architecture id and get [LeakyReLU] and [Sigmoid]. *)
Theorem activation_assignment_test_config :
  exists h o a e net3 net0 net12,
    build_model_ids 3 test_acts 1 3 1 = Ok (h, o, a)
    /\ ParallelMLPs_init 3 2 h o a test_acts test_hw test_hb test_W test_b = Ok e
    /\ model_neurons e 3 = [6]
    /\ extract_mlp e 3 = Ok net3
    /\ class_name (seq_activation net3) = "LeakyReLU"%string
    /\ (forall x, cols x = 36 ->
        exists y, apply_activations 0%Z e x = Ok y
                  /\ forall r, at2 y r 6 = Z.max (at2 x r 6) 0)
    /\ option_map (@class_name Z) (nth_error test_acts ((3 / 3) mod 2))
       = Some "Sigmoid"%string
    /\ nth 0 a 0 = nth 12 a 0
    /\ extract_mlp e 0 = Ok net0
    /\ class_name (seq_activation net0) = "LeakyReLU"%string
    /\ extract_mlp e 12 = Ok net12
    /\ class_name (seq_activation net12) = "Sigmoid"%string.
Proof.
  eexists _, _, _, _, _, _, _.
  split; [vm_compute; reflexivity|].
  split; [vm_compute; reflexivity|].
  split; [vm_compute; reflexivity|].
  split; [vm_compute; reflexivity|].
  split; [vm_compute; reflexivity|].
  split.
  { intros [r c f] Hc. simpl in Hc. subst c.
    eexists. split; [vm_compute; reflexivity|].
    intros r0. reflexivity. }
  split; [reflexivity|].
  split; [reflexivity|].
  split; [vm_compute; reflexivity|].
  split; [vm_compute; reflexivity|].
  split; [vm_compute; reflexivity|].
  vm_compute; reflexivity.
Qed.

(** ** [reset_parameters] leaves the other models alone *)

Lemma list_sum_firstn_succ (l : list nat) (a : nat) :
  list_sum (firstn (S a) l) = list_sum (firstn a l) + nth a l 0.
Proof.
  revert a. induction l as [|x l IH]; intros a.
  - rewrite !firstn_nil. now destruct a.
  - destruct a as [|a]; [simpl; lia|].
    change (list_sum (firstn (S (S a)) (x :: l))) with (x + list_sum (firstn (S a) l)).
    change (list_sum (firstn (S a) (x :: l))) with (x + list_sum (firstn a l)).
    change (nth (S a) (x :: l) 0) with (nth a l 0).
    rewrite IH. lia.
Qed.

Lemma nth_error_combine_inv {T U : Type} (l : list T) (l' : list U) (n : nat) (x : T) (y : U) :
  nth_error (combine l l') n = Some (x, y) ->
  nth_error l n = Some x /\ nth_error l' n = Some y.
Proof.
  revert l' n. induction l as [|a l IH]; intros [|a' l'] [|n] H; simpl in *;
    try discriminate.
  - inversion H. now split.
  - now apply IH.
Qed.

Lemma list_sum_firstn_le (l : list nat) (a c : nat) :
  a <= c -> list_sum (firstn a l) <= list_sum (firstn c l).
Proof.
  induction 1 as [|c Hac IH]; [lia|]. rewrite list_sum_firstn_succ. lia.
Qed.

Lemma cumsum_from_map (acc : nat) (l : list nat) :
  cumsum_from acc l =
  map (fun m => acc + list_sum (firstn (S m) l)) (seq 0 (length l)).
Proof.
  revert acc. induction l as [|x l IH]; intros acc; [reflexivity|].
  cbn [cumsum_from length seq map]. f_equal; [simpl; lia|].
  rewrite IH, <- seq_shift, map_map. apply map_ext. intros m. simpl. lia.
Qed.

(** The offsets [__init__] derives: model [m] starts after the neurons of
    the models before it and ends after its own. *)
Lemma start_idx_nth (counts : list nat) (m s : nat) :
  nth_error (0 :: removelast (cumsum counts)) m = Some s ->
  m < length counts ->
  s = list_sum (firstn m counts).
Proof.
  intros Hs Hm. unfold cumsum in Hs. rewrite cumsum_from_map in Hs.
  set (f := fun m : nat => 0 + list_sum (firstn (S m) counts)) in Hs.
  destruct m as [|k]; [simpl in Hs; now inversion Hs|].
  cbn [nth_error] in Hs.
  destruct (length counts) as [|n] eqn:En; [lia|].
  rewrite seq_S, map_app in Hs. cbn [map] in Hs.
  rewrite removelast_last in Hs.
  assert (Hk : k < n).
  { assert (Hlt : nth_error (map f (seq 0 n)) k <> None) by (rewrite Hs; discriminate).
    apply nth_error_Some in Hlt. now rewrite length_map, length_seq in Hlt. }
  apply nth_error_nth with (d := f 0) in Hs.
  rewrite map_nth, seq_nth in Hs by exact Hk. subst f. cbv beta in Hs.
  rewrite !Nat.add_0_l in Hs. now symmetry.
Qed.

Lemma end_idx_nth (counts : list nat) (m t : nat) :
  nth_error
    (map (fun se => fst se + snd se)
       (combine (0 :: removelast (cumsum counts)) counts)) m = Some t ->
  m < length counts /\ t = list_sum (firstn (S m) counts).
Proof.
  intros Ht.
  assert (Hm : m < length counts).
  { assert (Hlt : nth_error
                    (map (fun se => fst se + snd se)
                       (combine (0 :: removelast (cumsum counts)) counts)) m <> None)
      by (rewrite Ht; discriminate).
    apply nth_error_Some in Hlt.
    rewrite length_map, length_combine in Hlt. lia. }
  split; [exact Hm|].
  rewrite nth_error_map in Ht.
  destruct (nth_error (combine (0 :: removelast (cumsum counts)) counts) m)
    as [[s c]|] eqn:Ec; [|discriminate].
  cbn in Ht. inversion Ht; subst t; clear Ht.
  destruct (nth_error_combine_inv _ _ _ Ec) as [Hl Hr].
  apply start_idx_nth in Hl; [|exact Hm].
  apply nth_error_nth with (d := 0) in Hr.
  rewrite list_sum_firstn_succ. lia.
Qed.

Section ResetFrame.

Variable A : Type.
Variable rng : Type.
Variable kaiming_uniform_ : rng -> nat -> nat -> (nat -> nat -> A) * rng.
Variable uniform_ : rng -> nat -> nat -> (nat -> A) * rng.

(** One turn of the loop keeps the offsets and touches nothing outside
    the slice of its model. *)
Lemma reset_layer_frame (e e1 : ParallelMLPs A) (g g1 : rng) (l : nat) :
  reset_layer kaiming_uniform_ uniform_ e g l = Ok (e1, g1) ->
  model_id__start_idx e1 = model_id__start_idx e
  /\ model_id__end_idx e1 = model_id__end_idx e
  /\ exists sl tl,
       nth_error (model_id__start_idx e) l = Some sl
       /\ nth_error (model_id__end_idx e) l = Some tl
       /\ (forall j, ~ (sl <= j < tl) ->
             (forall i, hidden_layer_weight e1 j i = hidden_layer_weight e j i)
             /\ hidden_layer_bias e1 j = hidden_layer_bias e j
             /\ (forall o, weight e1 o j = weight e o j))
       /\ (forall m o, m <> l -> bias e1 m o = bias e m o).
Proof.
  unfold reset_layer.
  destruct (nth_error (model_id__start_idx e) l) as [sl|]; [|discriminate].
  destruct (nth_error (model_id__end_idx e) l) as [tl|]; [|discriminate].
  destruct (num_unique_models e <=? l); [discriminate|].
  destruct (in_features e =? 0); [discriminate|].
  destruct (kaiming_uniform_ g (tl - sl) (in_features e)) as [w1 g2].
  destruct (uniform_ g2 (in_features e) (tl - sl)) as [b1 g3].
  destruct (tl - sl =? 0); [discriminate|].
  destruct (kaiming_uniform_ g3 (out_features e) (tl - sl)) as [w2 g4].
  destruct (uniform_ g4 (tl - sl) (out_features e)) as [b2 g5].
  intros H. inversion H; subst e1 g1; clear H.
  cbn [model_id__start_idx model_id__end_idx hidden_layer_weight hidden_layer_bias
       weight bias].
  split; [reflexivity|]. split; [reflexivity|].
  exists sl, tl. split; [reflexivity|]. split; [reflexivity|]. split.
  - intros j Hj.
    assert (Hs : in_slice sl tl j = false).
    { unfold in_slice. apply andb_false_iff.
      destruct (Nat.le_gt_cases sl j) as [Hle|Hgt].
      - right. apply Nat.ltb_ge. lia.
      - left. apply Nat.leb_gt. exact Hgt. }
    rewrite Hs. repeat split; reflexivity.
  - intros m o Hm. replace (m =? l) with false by (symmetry; now apply Nat.eqb_neq).
    reflexivity.
Qed.

Variable counts : list nat.

(** The offsets of an engine are those of the counts [counts]. *)
Let offsets_of (e : ParallelMLPs A) : Prop :=
  forall m s t,
    nth_error (model_id__start_idx e) m = Some s ->
    nth_error (model_id__end_idx e) m = Some t ->
    s = list_sum (firstn m counts) /\ t = list_sum (firstn (S m) counts).

Lemma reset_loop_frame (layer_ids : list nat) (e e' : ParallelMLPs A) (g g' : rng)
  (m' s t : nat) :
  offsets_of e ->
  reset_loop kaiming_uniform_ uniform_ e g layer_ids = Ok (e', g') ->
  ~ In m' layer_ids ->
  nth_error (model_id__start_idx e) m' = Some s ->
  nth_error (model_id__end_idx e) m' = Some t ->
  (forall j, s <= j < t ->
     (forall i, hidden_layer_weight e' j i = hidden_layer_weight e j i)
     /\ hidden_layer_bias e' j = hidden_layer_bias e j
     /\ (forall o, weight e' o j = weight e o j))
  /\ (forall o, bias e' m' o = bias e m' o).
Proof.
  revert e g. induction layer_ids as [|l rest IH]; intros e g Hoff Hloop Hnot Hs Ht.
  - simpl in Hloop. inversion Hloop; subst. split; [|reflexivity].
    intros j _. repeat split; reflexivity.
  - cbn [reset_loop] in Hloop.
    destruct (reset_layer kaiming_uniform_ uniform_ e g l) as [[e1 g1]|] eqn:Hl;
      [|discriminate].
    cbn [bind] in Hloop.
    destruct (reset_layer_frame _ _ _ Hl)
      as (Hst & Hen & sl & tl & Hsl & Htl & Hout & Hbias).
    assert (Hml : m' <> l) by (intros ->; apply Hnot; now left).
    assert (Hoff1 : offsets_of e1)
      by (unfold offsets_of; rewrite Hst, Hen; exact Hoff).
    destruct (IH e1 g1 Hoff1 Hloop) as [Hrows Hb];
      [intros Hin; apply Hnot; now right | now rewrite Hst | now rewrite Hen |].
    destruct (Hoff m' s t Hs Ht) as [-> ->].
    destruct (Hoff l sl tl Hsl Htl) as [-> ->].
    split.
    + intros j Hj.
      assert (Hdis : ~ (list_sum (firstn l counts) <= j < list_sum (firstn (S l) counts))).
      { destruct (Nat.lt_gt_cases m' l) as [Hc _]. destruct (Hc Hml) as [Hlt|Hgt].
        - pose proof (@list_sum_firstn_le counts (S m') l Hlt). lia.
        - pose proof (@list_sum_firstn_le counts (S l) m' Hgt). lia. }
      destruct (Hout j Hdis) as (H1 & H2 & H3).
      destruct (Hrows j Hj) as (H4 & H5 & H6).
      repeat split.
      * intros i. now rewrite H4, H1.
      * now rewrite H5, H2.
      * intros o. now rewrite H6, H3.
    + intros o. now rewrite Hb, Hbias.
Qed.

End ResetFrame.

(** C9 (frame of [reset_parameters]). After [reset_parameters] has
    returned, for every model [m'] that is not among the ids it was called
    with (all the models when none are given): the rows
    [start(m') .. end(m')-1] of the hidden weight and of the hidden bias,
    the same columns of the output weight, and row [m'] of the output
    bias hold what they held before the call. *)
Theorem reset_parameters_frame (A rng : Type)
  (kaiming_uniform_ : rng -> nat -> nat -> (nat -> nat -> A) * rng)
  (uniform_ : rng -> nat -> nat -> (nat -> A) * rng)
  (in_f out_f : nat) (h out_ids arch_ids : list nat) (acts : list (Activation A))
  (hw : nat -> nat -> A) (hb : nat -> A) (W b : nat -> nat -> A)
  (e e' : ParallelMLPs A) (g g' : rng) (layer_ids : option (list nat))
  (m' start stop : nat) :
  ParallelMLPs_init in_f out_f h out_ids arch_ids acts hw hb W b = Ok e ->
  reset_parameters kaiming_uniform_ uniform_ e g layer_ids = Ok (e', g') ->
  ~ In m' (match layer_ids with
           | None => unique_model_ids e
           | Some l => l
           end) ->
  nth_error (model_id__start_idx e) m' = Some start ->
  nth_error (model_id__end_idx e) m' = Some stop ->
  (forall j, start <= j < stop ->
     (forall i, hidden_layer_weight e' j i = hidden_layer_weight e j i)
     /\ hidden_layer_bias e' j = hidden_layer_bias e j
     /\ (forall o, weight e' o j = weight e o j))
  /\ (forall o, bias e' m' o = bias e m' o).
Proof.
  intros He Hreset Hnot Hs Ht.
  unfold reset_parameters in Hreset.
  eapply (@reset_loop_frame A rng kaiming_uniform_ uniform_ (bincount h));
    [ | exact Hreset | exact Hnot | exact Hs | exact Ht ].
  clear - He. unfold ParallelMLPs_init in He.
  destruct (length acts =? 0); [discriminate|].
  inversion He; subst e; clear He.
  cbn [model_id__start_idx model_id__end_idx].
  intros m s t Hms Hmt.
  destruct (end_idx_nth _ _ Hmt) as [Hm ->].
  split; [|reflexivity]. now apply start_idx_nth.
Qed.

Lemma reset_parameters_frame_witness :
  exists e e' g',
    ParallelMLPs_init 3 2 (layout (width [1; 2; 3]%Z) 18) (seq 0 18) (seq 0 18)
      test_acts test_hw test_hb test_W test_b = Ok e
    /\ reset_parameters test_kaiming test_uniform e 0 (Some [1; 4]) = Ok (e', g')
    /\ (forall j, 3 <= j < 6 ->
          (forall i, hidden_layer_weight e' j i = hidden_layer_weight e j i)
          /\ hidden_layer_bias e' j = hidden_layer_bias e j
          /\ (forall o, weight e' o j = weight e o j))
    /\ (forall o, bias e' 2 o = bias e 2 o).
Proof.
  eexists _, _, _.
  split; [vm_compute; reflexivity|].
  split; [vm_compute; reflexivity|].
  eapply (@reset_parameters_frame Z nat test_kaiming test_uniform 3 2
            (layout (width [1; 2; 3]%Z) 18) (seq 0 18) (seq 0 18)
            test_acts test_hw test_hb test_W test_b _ _ 0 _ (Some [1; 4]) 2 3 6).
  - vm_compute; reflexivity.
  - vm_compute; reflexivity.
  - simpl. intros [H|[H|[]]]; discriminate.
  - reflexivity.
  - reflexivity.
Defined.

(** ** The multi-model confusion matrix *)




(** An accumulator on the cpu, 5 models, 2 classes, one sample, with the
    predictions on [cuda:0] and the targets on [cuda:1]: [update] returns
    and counts the sample. *)
Example update_from_other_devices :
  exists self',
    update Z.ltb (MultiConfusionMatrix_init 5 2 cpu)
      (ClassIndices Z (mkITensor2 (cuda 0) 5 [[0; 0; 1; 1; 0]%Z]))
      (mkITensor1 (cuda 1) [0%Z]) = Ok self'
    /\ cm self' = [ [[1; 0]; [0; 0]]; [[1; 0]; [0; 0]]; [[0; 1]; [0; 0]];
                    [[0; 1]; [0; 0]]; [[1; 0]; [0; 0]] ]%Z.
Proof. eexists. split; vm_compute; reflexivity. Qed.

(** The worked example of the tests: 5 models, 2 classes, 9 samples. *)
Example update_test_multi_confusion_matrix :
  exists self',
    update Z.ltb (MultiConfusionMatrix_init 5 2 cpu)
      (ClassIndices Z
         (mkITensor2 cpu 5
            [ [0; 0; 1; 1; 0]; [0; 0; 1; 0; 1]; [0; 0; 1; 0; 0]; [0; 0; 1; 1; 0];
              [1; 1; 0; 0; 0]; [1; 1; 1; 0; 0]; [0; 0; 0; 0; 0]; [1; 0; 1; 1; 1];
              [1; 0; 1; 0; 1] ]%Z))
      (mkITensor1 cpu [0; 0; 0; 0; 1; 1; 0; 1; 1]%Z) = Ok self'
    /\ cm self' = [ [[5; 0]; [0; 4]]; [[5; 0]; [2; 2]]; [[1; 4]; [1; 3]];
                    [[3; 2]; [3; 1]]; [[4; 1]; [2; 2]] ]%Z.
Proof. eexists. split; vm_compute; reflexivity. Qed.

Lemma accumulate_app (nm ncls : nat) (value : Z) (l1 l2 : list (Z * Z * Z))
  (cm : list (list (list Z))) :
  accumulate nm ncls cm value (l1 ++ l2) =
  (cm1 <- accumulate nm ncls cm value l1 ;; accumulate nm ncls cm1 value l2).
Proof.
  revert cm. induction l1 as [|[[m t] p] l1 IH]; intros cm; [reflexivity|].
  cbn [app accumulate].
  destruct (norm_index nm m), (norm_index ncls t), (norm_index ncls p);
    try reflexivity.
  apply IH.
Qed.

Lemma bidx_small (d i : nat) : i < d -> bidx d i = i.
Proof.
  intros Hi. unfold bidx. destruct (d =? 1) eqn:E; [|reflexivity].
  apply Nat.eqb_eq in E. lia.
Qed.

(** The triples of a batch whose targets and predictions have as many
    rows: those of the first [k] rows, then those of the others. *)
Lemma index_triples_split (arange targets : list Z) (cols : nat)
  (predictions : list (list Z)) (N k : nat) :
  length targets = length predictions ->
  index_triples arange targets cols predictions (length targets) N =
  index_triples arange (firstn k targets) cols (firstn k predictions)
    (length (firstn k targets)) N
  ++ index_triples arange (skipn k targets) cols (skipn k predictions)
       (length (skipn k targets)) N.
Proof.
  intros Hlen. unfold index_triples.
  rewrite !length_firstn, !length_skipn, <- Hlen.
  set (b := length targets) in *.
  replace b with (Nat.min k b + (b - k)) at 1 by lia.
  rewrite seq_app, flat_map_app. f_equal.
  - apply flat_map_ext_on. intros i Hi. apply in_seq in Hi.
    apply map_ext. intros j.
    rewrite (@bidx_small b i), (@bidx_small (Nat.min k b) i) by lia.
    rewrite !nth_firstn.
    replace (i <? k) with true by (symmetry; apply Nat.ltb_lt; lia).
    reflexivity.
  - rewrite (flat_map_seq_shift _ (0 + Nat.min k b)).
    apply flat_map_ext_on. intros i Hi. apply in_seq in Hi.
    apply map_ext. intros j.
    rewrite (@bidx_small b (0 + Nat.min k b + i)), (@bidx_small (b - k) i) by lia.
    rewrite !nth_skipn.
    replace (0 + Nat.min k b + i) with (k + i) by lia. reflexivity.
Qed.

Lemma broadcast_dim_same (n : nat) : broadcast_dim n n = Some n.
Proof. unfold broadcast_dim. now rewrite Nat.eqb_refl. Qed.

(** [index_put_] on a batch is [index_put_] on its first [k] samples
    followed by [index_put_] on the others. *)
Lemma index_put_accumulate_split (self : MultiConfusionMatrix)
  (targets : ITensor1) (predictions : ITensor2) (k : nat) :
  length (it1_data targets) = length (it2_data predictions) ->
  index_put_accumulate self targets predictions =
  (cm1 <- index_put_accumulate self (targets_take k targets)
            (mkITensor2 (it2_device predictions) (it2_cols predictions)
               (firstn k (it2_data predictions))) ;;
   index_put_accumulate
     (mkMultiConfusionMatrix (n_models self) (n_classes self) cm1
        (n_models_arange self) (one self) (device self))
     (targets_drop k targets)
     (mkITensor2 (it2_device predictions) (it2_cols predictions)
        (skipn k (it2_data predictions)))).
Proof.
  intros Hlen. unfold index_put_accumulate, it1_to, it2_to.
  cbn [targets_take targets_drop it1_device it1_data it2_device it2_cols it2_data
       n_models n_classes cm n_models_arange one device].
  rewrite <- Hlen, broadcast_dim_same.
  assert (H1 : length (firstn k (it2_data predictions))
               = length (firstn k (it1_data targets)))
    by (rewrite !length_firstn; lia).
  assert (H2 : length (skipn k (it2_data predictions))
               = length (skipn k (it1_data targets)))
    by (rewrite !length_skipn; lia).
  rewrite H1, H2, !broadcast_dim_same.
  destruct (broadcast_dim (length (it1_data (n_models_arange self)))
              (it2_cols predictions)) as [N|]; [|reflexivity].
  rewrite (index_triples_split _ _ _ _ N k) by exact Hlen.
  apply accumulate_app.
Qed.

Lemma argmax_last_take (score : Type) (score_ltb : score -> score -> bool)
  (k : nat) (p : Predictions score) :
  argmax_last score_ltb (predictions_take k p) =
  (q <- argmax_last score_ltb p ;;
   Ok (mkITensor2 (it2_device q) (it2_cols q) (firstn k (it2_data q)))).
Proof.
  destruct p as [q|d models classes s]; cbn [predictions_take argmax_last bind].
  - reflexivity.
  - destruct (classes =? 0); cbn [bind it2_device it2_cols it2_data]; [reflexivity|].
    now rewrite firstn_map.
Qed.

Lemma argmax_last_drop (score : Type) (score_ltb : score -> score -> bool)
  (k : nat) (p : Predictions score) :
  argmax_last score_ltb (predictions_drop k p) =
  (q <- argmax_last score_ltb p ;;
   Ok (mkITensor2 (it2_device q) (it2_cols q) (skipn k (it2_data q)))).
Proof.
  destruct p as [q|d models classes s]; cbn [predictions_drop argmax_last bind].
  - reflexivity.
  - destruct (classes =? 0); cbn [bind it2_device it2_cols it2_data]; [reflexivity|].
    now rewrite skipn_map.
Qed.

Lemma argmax_last_rows (score : Type) (score_ltb : score -> score -> bool)
  (p : Predictions score) (q : ITensor2) :
  argmax_last score_ltb p = Ok q ->
  length (it2_data q) = predictions_rows p /\ it2_cols q = predictions_models p.
Proof.
  destruct p as [q'|d models classes s]; cbn [argmax_last predictions_rows predictions_models].
  - intros H. inversion H. now split.
  - destruct (classes =? 0); [discriminate|]. intros H. inversion H.
    cbn [it2_data it2_cols]. now rewrite length_map.
Qed.

(** C6 (accumulation over sub-batches). For a batch with one target per
    row of predictions, cut after its first [k] samples: [update] on the
    first part followed by [update] on the second has the result of one
    [update] on the whole batch, the same state when the calls return and
    the same exception when one does not. *)
Theorem update_split_batches (score : Type) (score_ltb : score -> score -> bool)
  (self : MultiConfusionMatrix) (predictions : Predictions score)
  (targets : ITensor1) (k : nat) :
  predictions_rows predictions = length (it1_data targets) ->
  (self1 <- update score_ltb self (predictions_take k predictions)
              (targets_take k targets) ;;
   update score_ltb self1 (predictions_drop k predictions) (targets_drop k targets))
  = update score_ltb self predictions targets.
Proof.
  intros Hrows. unfold update.
  rewrite argmax_last_take, argmax_last_drop.
  destruct (argmax_last score_ltb predictions) as [q|err] eqn:Hq; [|reflexivity].
  destruct (argmax_last_rows _ _ Hq) as [Hlen _].
  cbn [bind it2_device it2_cols it2_data n_models n_classes cm n_models_arange one device].
  set (q' := if negb (device_eqb (it2_device q) (device self))
             then mkITensor2 (device self) (it2_cols q) (it2_data q) else q).
  assert (Hq' : length (it1_data targets) = length (it2_data q')).
  { subst q'. destruct (negb _); cbn [it2_data]; lia. }
  rewrite (index_put_accumulate_split self targets q' k Hq').
  assert (Htake :
    (if negb (device_eqb (it2_device q) (device self))
     then mkITensor2 (device self) (it2_cols q) (firstn k (it2_data q))
     else mkITensor2 (it2_device q) (it2_cols q) (firstn k (it2_data q)))
    = mkITensor2 (it2_device q') (it2_cols q') (firstn k (it2_data q'))).
  { subst q'. now destruct (negb _). }
  assert (Hdrop :
    (if negb (device_eqb (it2_device q) (device self))
     then mkITensor2 (device self) (it2_cols q) (skipn k (it2_data q))
     else mkITensor2 (it2_device q) (it2_cols q) (skipn k (it2_data q)))
    = mkITensor2 (it2_device q') (it2_cols q') (skipn k (it2_data q'))).
  { subst q'. now destruct (negb _). }
  rewrite Htake.
  destruct (index_put_accumulate self (targets_take k targets) _) as [cm1|err];
    [|reflexivity].
  cbn [bind n_models n_classes cm n_models_arange one device].
  rewrite Hdrop. reflexivity.
Qed.

Lemma update_split_batches_witness :
  (self1 <- update Z.ltb (MultiConfusionMatrix_init 2 3 cpu)
              (predictions_take 1
                 (ClassIndices Z (mkITensor2 cpu 2 [[0; 2]; [1; 1]; [2; 0]]%Z)))
              (targets_take 1 (mkITensor1 cpu [0; 1; 1]%Z)) ;;
   update Z.ltb self1
     (predictions_drop 1 (ClassIndices Z (mkITensor2 cpu 2 [[0; 2]; [1; 1]; [2; 0]]%Z)))
     (targets_drop 1 (mkITensor1 cpu [0; 1; 1]%Z)))
  = update Z.ltb (MultiConfusionMatrix_init 2 3 cpu)
      (ClassIndices Z (mkITensor2 cpu 2 [[0; 2]; [1; 1]; [2; 0]]%Z))
      (mkITensor1 cpu [0; 1; 1]%Z).
Proof.
  apply (@update_split_batches Z Z.ltb (MultiConfusionMatrix_init 2 3 cpu)
           (ClassIndices Z (mkITensor2 cpu 2 [[0; 2]; [1; 1]; [2; 0]]%Z))
           (mkITensor1 cpu [0; 1; 1]%Z) 1).
  reflexivity.
Defined.

(** *** Integers of 32 and 64 bits *)

Lemma wrap_small (w z : Z) :
  (0 < w)%Z -> (- 2 ^ (w - 1) <= z < 2 ^ (w - 1))%Z -> wrap w z = z.
Proof.
  intros Hw Hz. unfold wrap.
  assert (H2 : (2 ^ w = 2 * 2 ^ (w - 1))%Z).
  { replace w with (Z.succ (w - 1)) at 1 by lia. apply Z.pow_succ_r. lia. }
  rewrite Z.mod_small by lia. lia.
Qed.

Lemma wrap_eqm (w z : Z) : (0 < w)%Z -> eqm (2 ^ w) (wrap w z) z.
Proof.
  intros Hw. unfold eqm, wrap.
  rewrite Zminus_mod_idemp_l. f_equal. lia.
Qed.

Lemma wrap_congr (w a b : Z) : eqm (2 ^ w) a b -> wrap w a = wrap w b.
Proof.
  intros H. unfold wrap. f_equal.
  apply (Zplus_eqm (2 ^ w) a b H (2 ^ (w - 1)) (2 ^ (w - 1)))%Z. reflexivity.
Qed.

Lemma add32_one (c : Z) : (0 <= c < 2 ^ 31 - 1)%Z -> add32 c 1 = (c + 1)%Z.
Proof.
  intros Hc. unfold add32. apply wrap_small; [lia|].
  change (2 ^ (32 - 1))%Z with (2 ^ 31)%Z. lia.
Qed.

Lemma zsum_app (l1 l2 : list Z) : zsum (l1 ++ l2) = (zsum l1 + zsum l2)%Z.
Proof.
  induction l1 as [|x l1 IH]; simpl; [reflexivity|]. rewrite IH. lia.
Qed.

Lemma fold_add64_eqm (l : list Z) (acc : Z) :
  eqm (2 ^ 64) (fold_left add64 l acc) (acc + zsum l).
Proof.
  revert acc. induction l as [|x l IH]; intros acc; simpl.
  - unfold eqm. f_equal. lia.
  - eapply eqm_trans; [apply IH|].
    replace (acc + (x + zsum l))%Z with ((acc + x) + zsum l)%Z by lia.
    apply Zplus_eqm; [|apply eqm_refl].
    unfold add64. apply wrap_eqm. lia.
Qed.

Lemma sum64_eqm (l : list Z) : eqm (2 ^ 64) (sum64 l) (zsum l).
Proof. unfold sum64. apply (fold_add64_eqm l 0). Qed.

Lemma wrap_idem (w z : Z) : (0 < w)%Z -> wrap w (wrap w z) = wrap w z.
Proof. intros Hw. apply wrap_congr, wrap_eqm, Hw. Qed.

Lemma fold_add64_wrapped (l : list Z) (acc : Z) :
  wrap 64 acc = acc -> wrap 64 (fold_left add64 l acc) = fold_left add64 l acc.
Proof.
  revert acc. induction l as [|x l IH]; intros acc Hacc; simpl; [exact Hacc|].
  apply IH. unfold add64. apply wrap_idem. lia.
Qed.

Lemma sum64_exact (l : list Z) :
  (- 2 ^ 63 <= zsum l < 2 ^ 63)%Z -> sum64 l = zsum l.
Proof.
  intros Hr.
  assert (H : sum64 l = wrap 64 (sum64 l))
    by (symmetry; apply (@fold_add64_wrapped l 0%Z eq_refl)).
  rewrite H. rewrite (wrap_congr 64 (sum64_eqm l)).
  apply wrap_small; [lia|]. exact Hr.
Qed.

(** *** Counting *)

Lemma list_update_length {T : Type} (n : nat) (f : T -> T) (l : list T) :
  length (list_update n f l) = length l.
Proof.
  revert n. induction l as [|x l IH]; intros [|n]; simpl; try reflexivity.
  now rewrite IH.
Qed.

Lemma nth_list_update {T : Type} (n n' : nat) (f : T -> T) (l : list T) (d : T) :
  n < length l ->
  nth n' (list_update n f l) d = if n' =? n then f (nth n l d) else nth n' l d.
Proof.
  revert n n'. induction l as [|x l IH]; intros n n' Hn; simpl in Hn; [lia|].
  destruct n as [|n], n' as [|n']; simpl; try reflexivity.
  apply IH. lia.
Qed.

Lemma Forall_list_update {T : Type} (P : T -> Prop) (n : nat) (f : T -> T) (l : list T) :
  Forall P l -> (forall x, P x -> P (f x)) -> Forall P (list_update n f l).
Proof.
  intros Hl Hf. revert n. induction Hl as [|x l Hx Hl IH]; intros [|n]; simpl;
    constructor; auto.
Qed.

Lemma cm_shape_rows (cm : list (list (list Z))) (nm ncls m : nat) :
  cm_shape cm nm ncls -> m < nm ->
  length (nth m cm []) = ncls
  /\ forall t, t < ncls -> length (nth t (nth m cm []) []) = ncls.
Proof.
  intros [Hlen Hall] Hm. rewrite Forall_forall in Hall.
  destruct (Hall (nth m cm []) ltac:(apply nth_In; lia)) as [Hr Hrows].
  split; [exact Hr|]. intros t Ht. rewrite Forall_forall in Hrows.
  apply Hrows. apply nth_In. lia.
Qed.

Lemma cm_add_shape (cm : list (list (list Z))) (nm ncls m t p : nat) (v : Z) :
  cm_shape cm nm ncls -> cm_shape (cm_add cm m t p v) nm ncls.
Proof.
  intros [Hlen Hall]. unfold cm_add. split.
  - now rewrite list_update_length.
  - apply Forall_list_update; [exact Hall|].
    intros M [HM Hrows]. split.
    + now rewrite list_update_length.
    + apply Forall_list_update; [exact Hrows|].
      intros r Hr. now rewrite list_update_length.
Qed.

Lemma cm_at_cm_add (cm : list (list (list Z))) (nm ncls m0 t0 p0 m t p : nat) (v : Z) :
  cm_shape cm nm ncls -> m0 < nm -> t0 < ncls -> p0 < ncls ->
  cm_at (cm_add cm m0 t0 p0 v) m t p =
  if (m =? m0) && (t =? t0) && (p =? p0)
  then add32 (cm_at cm m0 t0 p0) v
  else cm_at cm m t p.
Proof.
  intros Hshape Hm0 Ht0 Hp0.
  destruct (cm_shape_rows Hshape Hm0) as [Hrow Hcols].
  destruct Hshape as [Hlen _].
  unfold cm_at, cm_add.
  rewrite nth_list_update by lia.
  destruct (m =? m0) eqn:Em; [|reflexivity].
  apply Nat.eqb_eq in Em. subst m.
  rewrite nth_list_update by lia.
  destruct (t =? t0) eqn:Et; [|reflexivity].
  apply Nat.eqb_eq in Et. subst t.
  rewrite nth_list_update by (rewrite Hcols; lia).
  destruct (p =? p0) eqn:Ep; [|reflexivity].
  reflexivity.
Qed.

Lemma zsum_map_ext_seq (f g : nat -> Z) (n : nat) :
  (forall p, p < n -> g p = f p) ->
  zsum (map g (seq 0 n)) = zsum (map f (seq 0 n)).
Proof.
  intros H. f_equal. apply map_ext_in. intros p Hp. apply in_seq in Hp.
  apply H. lia.
Qed.

Lemma zsum_map_bump (f g : nat -> Z) (p0 : nat) (d : Z) (n : nat) :
  p0 < n ->
  (forall p, p < n -> g p = (f p + (if (p =? p0)%nat then d else 0))%Z) ->
  zsum (map g (seq 0 n)) = (zsum (map f (seq 0 n)) + d)%Z.
Proof.
  induction n as [|n IH]; intros Hp0 H; [lia|].
  rewrite seq_S, !map_app, !zsum_app. simpl.
  destruct (Nat.eq_dec p0 n) as [->|Hne].
  - rewrite (H n) by lia. rewrite Nat.eqb_refl.
    rewrite (zsum_map_ext_seq f g).
    + lia.
    + intros p Hp. rewrite H by lia.
      replace (p =? n) with false by (symmetry; apply Nat.eqb_neq; lia). lia.
  - rewrite IH by (try lia; intros p Hp; apply H; lia).
    rewrite (H n) by lia.
    replace (n =? p0) with false by (symmetry; apply Nat.eqb_neq; lia). lia.
Qed.

Lemma zsum_map_nonneg (f : nat -> Z) (n : nat) :
  (forall p, p < n -> (0 <= f p)%Z) -> (0 <= zsum (map f (seq 0 n)))%Z.
Proof.
  induction n as [|n IH]; intros H; [simpl; lia|].
  rewrite seq_S, map_app, zsum_app. simpl.
  specialize (IH ltac:(intros p Hp; apply H; lia)).
  pose proof (H n ltac:(lia)). lia.
Qed.

Lemma zsum_map_ge (f : nat -> Z) (p0 n : nat) :
  (forall p, p < n -> (0 <= f p)%Z) -> p0 < n ->
  (f p0 <= zsum (map f (seq 0 n)))%Z.
Proof.
  induction n as [|n IH]; intros H Hp0; [lia|].
  rewrite seq_S, map_app, zsum_app. simpl.
  pose proof (H n ltac:(lia)) as Hn.
  pose proof (@zsum_map_nonneg f n ltac:(intros p Hp; apply H; lia)) as Hs.
  destruct (Nat.eq_dec p0 n) as [->|Hne]; [lia|].
  specialize (IH ltac:(intros p Hp; apply H; lia) ltac:(lia)). lia.
Qed.

Lemma cm_at_le_total (cm : list (list (list Z))) (ncls m t p : nat) :
  (forall m' t' p', (0 <= cm_at cm m' t' p')%Z) ->
  t < ncls -> p < ncls ->
  (cm_at cm m t p <= cm_total cm ncls m)%Z.
Proof.
  intros Hnn Ht Hp. unfold cm_total.
  apply Z.le_trans with (zsum (map (fun p' => cm_at cm m t p') (seq 0 ncls))).
  - apply (@zsum_map_ge (fun p' => cm_at cm m t p') p ncls); [|exact Hp].
    intros p' _. apply Hnn.
  - apply (@zsum_map_ge
             (fun t' => zsum (map (fun p' => cm_at cm m t' p') (seq 0 ncls))) t ncls);
      [|exact Ht].
    intros t' _. apply zsum_map_nonneg. intros p' _. apply Hnn.
Qed.

(** One more count in cell [(m0, t0, p0)], away from the largest
    [torch.int]: the total of model [m0] grows by one, no other total
    changes. *)
Lemma cm_total_cm_add (cm : list (list (list Z))) (nm ncls m0 t0 p0 m : nat) :
  cm_shape cm nm ncls -> m0 < nm -> t0 < ncls -> p0 < ncls ->
  (0 <= cm_at cm m0 t0 p0 < 2 ^ 31 - 1)%Z ->
  cm_total (cm_add cm m0 t0 p0 1) ncls m =
  (cm_total cm ncls m + (if (m =? m0)%nat then 1 else 0))%Z.
Proof.
  intros Hshape Hm0 Ht0 Hp0 Hc. unfold cm_total.
  destruct (m =? m0) eqn:Em.
  - apply Nat.eqb_eq in Em. subst m.
    apply (@zsum_map_bump _ _ t0 1%Z ncls Ht0). intros t Ht.
    destruct (t =? t0) eqn:Et.
    + apply Nat.eqb_eq in Et. subst t.
      apply (@zsum_map_bump _ _ p0 1%Z ncls Hp0). intros p Hp.
      rewrite (cm_at_cm_add _ _ _ _ Hshape Hm0 Ht0 Hp0).
      rewrite !Nat.eqb_refl. cbn [andb].
      destruct (p =? p0) eqn:Ep; [|lia].
      apply Nat.eqb_eq in Ep. subst p. rewrite add32_one by exact Hc. lia.
    + rewrite Z.add_0_r. apply zsum_map_ext_seq. intros p Hp.
      rewrite (cm_at_cm_add _ _ _ _ Hshape Hm0 Ht0 Hp0).
      rewrite Et, andb_false_r. reflexivity.
  - rewrite Z.add_0_r. apply zsum_map_ext_seq. intros t Ht.
    apply zsum_map_ext_seq. intros p Hp.
    rewrite (cm_at_cm_add _ _ _ _ Hshape Hm0 Ht0 Hp0).
    rewrite Em. reflexivity.
Qed.

Lemma norm_index_lt (size : nat) (z : Z) (i : nat) :
  norm_index size z = Some i -> i < size.
Proof.
  unfold norm_index.
  destruct ((- Z.of_nat size <=? z)%Z && (z <? Z.of_nat size)%Z) eqn:E; [|discriminate].
  apply andb_true_iff in E. destruct E as [H1 H2].
  apply Z.leb_le in H1. apply Z.ltb_lt in H2.
  intros H. inversion H; subst i; clear H.
  destruct (z <? 0)%Z eqn:E0.
  - apply Z.ltb_lt in E0. lia.
  - apply Z.ltb_ge in E0. lia.
Qed.

Lemma count_model_cons (nm m : nat) (tr : Z * Z * Z) (l : list (Z * Z * Z)) :
  count_model nm m (tr :: l) =
  (if addresses_model nm m tr then 1 else 0) + count_model nm m l.
Proof.
  unfold count_model. simpl. now destruct (addresses_model nm m tr).
Qed.

Lemma count_model_app (nm m : nat) (l1 l2 : list (Z * Z * Z)) :
  count_model nm m (l1 ++ l2) = count_model nm m l1 + count_model nm m l2.
Proof. unfold count_model. now rewrite filter_app, length_app. Qed.

(** [accumulate] adds to the total of every model the number of triples
    that address it, as long as no total passes the largest [torch.int]. *)
Lemma accumulate_totals (nm ncls : nat) (triples : list (Z * Z * Z))
  (cm cm' : list (list (list Z))) :
  cm_shape cm nm ncls ->
  (forall m t p, (0 <= cm_at cm m t p)%Z) ->
  (forall m, m < nm ->
     (cm_total cm ncls m + Z.of_nat (count_model nm m triples) <= 2 ^ 31 - 1)%Z) ->
  accumulate nm ncls cm 1 triples = Ok cm' ->
  cm_shape cm' nm ncls
  /\ (forall m t p, (0 <= cm_at cm' m t p)%Z)
  /\ (forall m, m < nm ->
        cm_total cm' ncls m
        = (cm_total cm ncls m + Z.of_nat (count_model nm m triples))%Z).
Proof.
  revert cm. induction triples as [|[[mz tz] pz] rest IH];
    intros cm Hshape Hnn Hbound Hacc.
  - simpl in Hacc. inversion Hacc; subst cm'.
    split; [assumption|]. split; [assumption|].
    intros m Hm. unfold count_model. simpl. lia.
  - cbn [accumulate] in Hacc.
    destruct (norm_index nm mz) as [m0|] eqn:Em; [|discriminate].
    destruct (norm_index ncls tz) as [t0|] eqn:Et; [|discriminate].
    destruct (norm_index ncls pz) as [p0|] eqn:Ep; [|discriminate].
    pose proof (norm_index_lt _ _ Em) as Hm0.
    pose proof (norm_index_lt _ _ Et) as Ht0.
    pose proof (norm_index_lt _ _ Ep) as Hp0.
    assert (Haddr : forall m, addresses_model nm m (mz, tz, pz) = (m0 =? m)).
    { intros m. unfold addresses_model. cbn [fst]. now rewrite Em. }
    assert (Hc : (0 <= cm_at cm m0 t0 p0 < 2 ^ 31 - 1)%Z).
    { split; [apply Hnn|].
      pose proof (@cm_at_le_total cm ncls m0 t0 p0 Hnn Ht0 Hp0) as Hle.
      pose proof (Hbound m0 Hm0) as Hb.
      rewrite count_model_cons, Haddr, Nat.eqb_refl in Hb. lia. }
    destruct (IH (cm_add cm m0 t0 p0 1)) as (Hs' & Hnn' & Htot').
    + now apply cm_add_shape.
    + intros m t p. rewrite (cm_at_cm_add _ _ _ _ Hshape Hm0 Ht0 Hp0).
      destruct ((m =? m0) && (t =? t0) && (p =? p0)); [|apply Hnn].
      rewrite add32_one by exact Hc. lia.
    + intros m Hm. rewrite (cm_total_cm_add _ Hshape Hm0 Ht0 Hp0 Hc).
      pose proof (Hbound m Hm) as Hb.
      rewrite count_model_cons, Haddr in Hb.
      rewrite (Nat.eqb_sym m m0). destruct (m0 =? m); lia.
    + exact Hacc.
    + split; [exact Hs'|]. split; [exact Hnn'|].
      intros m Hm. rewrite (Htot' m Hm).
      rewrite (cm_total_cm_add _ Hshape Hm0 Ht0 Hp0 Hc).
      rewrite count_model_cons, Haddr.
      rewrite (Nat.eqb_sym m m0). destruct (m0 =? m); lia.
Qed.

Lemma norm_index_of_nat (size j : nat) :
  j < size -> norm_index size (Z.of_nat j) = Some j.
Proof.
  intros Hj. unfold norm_index.
  replace ((- Z.of_nat size <=? Z.of_nat j)%Z) with true
    by (symmetry; apply Z.leb_le; lia).
  replace ((Z.of_nat j <? Z.of_nat size)%Z) with true
    by (symmetry; apply Z.ltb_lt; lia).
  replace ((Z.of_nat j <? 0)%Z) with false by (symmetry; apply Z.ltb_ge; lia).
  cbn [andb]. now rewrite Nat2Z.id.
Qed.

Lemma count_row (nm m : nat) (h : nat -> Z * Z * Z) (n : nat) :
  (forall j, j < n -> addresses_model nm m (h j) = (j =? m)) ->
  count_model nm m (map h (seq 0 n)) = if m <? n then 1 else 0.
Proof.
  induction n as [|n IH]; intros H; [reflexivity|].
  rewrite seq_S, map_app, count_model_app. cbn [map Nat.add].
  rewrite count_model_cons, (H n) by lia.
  rewrite IH by (intros j Hj; apply H; lia).
  unfold count_model at 1. simpl.
  destruct (Nat.lt_trichotomy m n) as [Hlt|[->|Hgt]].
  - replace (m <? n) with true by (symmetry; apply Nat.ltb_lt; lia).
    replace (n =? m) with false by (symmetry; apply Nat.eqb_neq; lia).
    replace (m <? S n) with true by (symmetry; apply Nat.ltb_lt; lia). lia.
  - rewrite Nat.eqb_refl, Nat.ltb_irrefl.
    replace (n <? S n) with true by (symmetry; apply Nat.ltb_lt; lia). lia.
  - replace (m <? n) with false by (symmetry; apply Nat.ltb_ge; lia).
    replace (n =? m) with false by (symmetry; apply Nat.eqb_neq; lia).
    replace (m <? S n) with false by (symmetry; apply Nat.ltb_ge; lia). lia.
Qed.

(** In a batch of [B] samples for [nm] models every model is addressed
    once per sample. *)
Lemma count_model_batch (nm m : nat) (targets : list Z) (predictions : list (list Z))
  (B : nat) :
  m < nm ->
  count_model nm m
    (index_triples (map Z.of_nat (seq 0 nm)) targets nm predictions B nm) = B.
Proof.
  intros Hm. unfold index_triples.
  induction B as [|B IH]; [reflexivity|].
  rewrite seq_S, flat_map_app, count_model_app, IH. cbn [flat_map Nat.add].
  rewrite app_nil_r.
  rewrite (@count_row nm m _ nm).
  - replace (m <? nm) with true by (symmetry; now apply Nat.ltb_lt). lia.
  - intros j Hj. unfold addresses_model. cbn [fst].
    rewrite length_map, length_seq, bidx_small by exact Hj.
    change 0%Z with (Z.of_nat 0) at 1.
    rewrite map_nth, seq_nth by exact Hj.
    now rewrite norm_index_of_nat by exact Hj.
Qed.

Lemma nth_repeat_any {T : Type} (n k : nat) (a d : T) :
  nth n (repeat a k) d = if n <? k then a else d.
Proof.
  revert n. induction k as [|k IH]; intros [|n]; simpl; try reflexivity.
  rewrite IH. reflexivity.
Qed.

Lemma cm_at_zeros (nm ncls m t p : nat) :
  cm_at (repeat (repeat (repeat 0%Z ncls) ncls) nm) m t p = 0%Z.
Proof.
  unfold cm_at. rewrite nth_repeat_any.
  destruct (m <? nm); [|now destruct t, p].
  rewrite nth_repeat_any. destruct (t <? ncls); [|now destruct p].
  rewrite nth_repeat_any. now destruct (p <? ncls).
Qed.

Lemma zsum_zero (n : nat) : zsum (map (fun _ : nat => 0%Z) (seq 0 n)) = 0%Z.
Proof.
  generalize 0. induction n as [|n IH]; intros a; simpl; [reflexivity|].
  now rewrite IH.
Qed.

Lemma init_inv (nm ncls : nat) (dev : Device) :
  mcm_inv (MultiConfusionMatrix_init nm ncls dev) 0.
Proof.
  unfold mcm_inv, MultiConfusionMatrix_init.
  cbn [n_models n_classes cm n_models_arange one it1_data].
  split; [reflexivity|]. split; [reflexivity|]. split.
  - split; [apply repeat_length|].
    apply Forall_forall. intros M HM. apply repeat_spec in HM. subst M.
    split; [apply repeat_length|].
    apply Forall_forall. intros r Hr. apply repeat_spec in Hr. subst r.
    apply repeat_length.
  - split.
    + intros m t p. rewrite cm_at_zeros. lia.
    + intros m _. unfold cm_total.
      rewrite (zsum_map_ext_seq (fun _ => 0%Z)); [apply zsum_zero|].
      intros t _. rewrite (zsum_map_ext_seq (fun _ => 0%Z)); [apply zsum_zero|].
      intros p _. apply cm_at_zeros.
Qed.

(** One [update] with a batch of [b] samples for all the models: every
    total grows by [b]. *)
Lemma update_inv (score : Type) (score_ltb : score -> score -> bool)
  (self self' : MultiConfusionMatrix) (predictions : Predictions score)
  (targets : ITensor1) (T : Z) :
  mcm_inv self T ->
  update score_ltb self predictions targets = Ok self' ->
  predictions_rows predictions = length (it1_data targets) ->
  predictions_models predictions = n_models self ->
  (T + Z.of_nat (predictions_rows predictions) <= 2 ^ 31 - 1)%Z ->
  mcm_inv self' (T + Z.of_nat (predictions_rows predictions))
  /\ n_models self' = n_models self /\ n_classes self' = n_classes self.
Proof.
  intros (Har & Hone & Hshape & Hnn & Htot) Hup Hrows Hmodels Hbound.
  unfold update in Hup.
  destruct (argmax_last score_ltb predictions) as [q|] eqn:Hq; [|discriminate].
  destruct (argmax_last_rows _ _ Hq) as [Hlen Hcols].
  cbn [bind] in Hup.
  set (q' := if negb (device_eqb (it2_device q) (device self))
             then mkITensor2 (device self) (it2_cols q) (it2_data q) else q) in Hup.
  assert (Hq' : it2_cols q' = it2_cols q /\ it2_data q' = it2_data q)
    by (subst q'; now destruct (negb _)).
  destruct Hq' as [Hc' Hd'].
  destruct (index_put_accumulate self targets q') as [cm'|] eqn:Hidx; [|discriminate].
  cbn [bind] in Hup. inversion Hup; subst self'; clear Hup.
  unfold index_put_accumulate, it1_to, it2_to in Hidx.
  cbn [it1_data it2_cols it2_data] in Hidx.
  rewrite Hd', Hlen, Hrows, broadcast_dim_same in Hidx.
  rewrite Har, length_map, length_seq, Hc', Hcols, Hmodels, broadcast_dim_same in Hidx.
  rewrite Hone in Hidx.
  assert (Hcount : forall m, m < n_models self ->
            count_model (n_models self) m
              (index_triples (map Z.of_nat (seq 0 (n_models self))) (it1_data targets)
                 (n_models self) (it2_data q) (length (it1_data targets))
                 (n_models self))
            = length (it1_data targets))
    by (intros m Hm; now apply count_model_batch).
  assert (Hb : forall m, m < n_models self ->
            (cm_total (cm self) (n_classes self) m
             + Z.of_nat
                 (count_model (n_models self) m
                    (index_triples (map Z.of_nat (seq 0 (n_models self)))
                       (it1_data targets) (n_models self) (it2_data q)
                       (length (it1_data targets)) (n_models self)))
             <= 2 ^ 31 - 1)%Z)
    by (intros m Hm; rewrite (Hcount m Hm), (Htot m Hm); lia).
  destruct (@accumulate_totals _ _ _ _ _ Hshape Hnn Hb Hidx) as (Hs' & Hnn' & Htot').
  cbn [n_models n_classes].
  split; [|split; reflexivity].
  unfold mcm_inv. cbn [n_models n_classes cm n_models_arange one].
  split; [exact Har|]. split; [exact Hone|]. split; [exact Hs'|].
  split; [exact Hnn'|].
  intros m Hm. rewrite (Htot' m Hm), (Hcount m Hm), (Htot m Hm), Hrows. reflexivity.
Qed.

Lemma run_updates_inv (score : Type) (score_ltb : score -> score -> bool)
  (batches : list (Predictions score * ITensor1))
  (self self' : MultiConfusionMatrix) (T : Z) :
  mcm_inv self T ->
  run_updates score_ltb self batches = Ok self' ->
  Forall (fun pt => predictions_rows (fst pt) = length (it1_data (snd pt))
                    /\ predictions_models (fst pt) = n_models self) batches ->
  (0 <= T)%Z ->
  (T + Z.of_nat (batch_sizes batches) <= 2 ^ 31 - 1)%Z ->
  mcm_inv self' (T + Z.of_nat (batch_sizes batches))
  /\ n_models self' = n_models self /\ n_classes self' = n_classes self.
Proof.
  revert self T. induction batches as [|[p t] rest IH];
    intros self T Hinv Hrun Hall HT Hbound.
  - simpl in Hrun. inversion Hrun; subst self'.
    unfold batch_sizes. simpl. rewrite Z.add_0_r.
    split; [exact Hinv | split; reflexivity].
  - cbn [run_updates] in Hrun.
    destruct (update score_ltb self p t) as [s1|] eqn:Hup; [|discriminate].
    cbn [bind] in Hrun.
    inversion Hall as [|x l [Hrows Hmodels] Hrest]; subst x l. cbn [fst snd] in *.
    unfold batch_sizes in *. cbn [map list_sum fold_right] in *.
    change (fold_right Nat.add 0 ?l) with (list_sum l) in *.
    cbn [fst snd] in *.
    destruct (@update_inv _ _ _ _ _ _ T Hinv Hup Hrows Hmodels) as (Hinv1 & Hn1 & Hc1);
      [lia|].
    destruct (IH s1 _ Hinv1 Hrun) as (Hinv' & Hn' & Hc').
    + rewrite Hn1. exact Hrest.
    + lia.
    + lia.
    + split; [|split; congruence].
      rewrite Nat2Z.inj_add, Z.add_assoc. exact Hinv'.
Qed.

Lemma zsum_list_prod (F : nat -> nat -> Z) (l1 l2 : list nat) :
  zsum (map (fun tc => F (fst tc) (snd tc)) (list_prod l1 l2))
  = zsum (map (fun t => zsum (map (F t) l2)) l1).
Proof.
  induction l1 as [|x l1 IH]; [reflexivity|].
  cbn [list_prod map zsum fold_right].
  rewrite map_app, zsum_app, map_map. cbn [fst snd].
  change (fold_right Z.add 0%Z ?l) with (zsum l).
  rewrite IH. reflexivity.
Qed.

Lemma nth_map_seq {T : Type} (F : nat -> T) (n m : nat) (d : T) :
  m < n -> nth m (map F (seq 0 n)) d = F m.
Proof.
  intros Hm. rewrite (nth_indep _ d (F 0)) by (now rewrite length_map, length_seq).
  rewrite map_nth, seq_nth by exact Hm. reflexivity.
Qed.

(** What [calculate_metrics] returns, entry by entry. *)
Lemma calculate_metrics_fields (self : MultiConfusionMatrix) :
  n_models self <> 0 ->
  exists mt,
    calculate_metrics self = Ok mt
    /\ total_samples mt =
       sum64 (map (fun tc => cm_at (cm self) 0 (fst tc) (snd tc))
                  (list_prod (seq 0 (n_classes self)) (seq 0 (n_classes self))))
    /\ forall m, m < n_models self ->
         nth m (overall_acc mt) (FQuot 0 0)
         = FQuot (sum64 (diagonal self m)) (total_samples mt)
         /\ (forall d, nth m (matthews_corrcoef mt) d
                        = matthews_corrcoef_model self (total_samples mt) m)
         /\ forall c, c < n_classes self ->
              nth c (nth m (tn mt) []) 0%Z
              = sub64 (sub64 (sub64 (total_samples mt)
                                    (nth c (nth m (fn mt) []) 0%Z))
                             (nth c (nth m (fp mt) []) 0%Z))
                      (nth c (nth m (tp mt) []) 0%Z).
Proof.
  intros Hnm. unfold calculate_metrics.
  destruct (n_models self) as [|n'] eqn:En; [congruence|].
  eexists. split; [reflexivity|].
  cbn [total_samples overall_acc matthews_corrcoef tn fn fp tp].
  split; [reflexivity|].
  intros m Hm. split; [|split].
  - rewrite (nth_map_seq _ _ Hm). now rewrite (nth_map_seq _ _ Hm).
  - intros d. now rewrite (nth_map_seq _ _ Hm).
  - intros c Hc. rewrite (nth_map_seq _ _ Hm). now rewrite (nth_map_seq _ _ Hc).
Qed.

Lemma total_samples_exact (self : MultiConfusionMatrix) (T : Z) :
  mcm_inv self T -> n_models self <> 0 -> (0 <= T <= 2 ^ 31 - 1)%Z ->
  sum64 (map (fun tc => cm_at (cm self) 0 (fst tc) (snd tc))
             (list_prod (seq 0 (n_classes self)) (seq 0 (n_classes self))))
  = T.
Proof.
  intros (_ & _ & _ & _ & Htot) Hnm HT.
  assert (Hz : zsum (map (fun tc => cm_at (cm self) 0 (fst tc) (snd tc))
                         (list_prod (seq 0 (n_classes self)) (seq 0 (n_classes self))))
               = T).
  { rewrite (zsum_list_prod (cm_at (cm self) 0)). apply (Htot 0). lia. }
  rewrite sum64_exact; rewrite Hz; [reflexivity|].
  change (2 ^ 63)%Z with 9223372036854775808%Z.
  change (2 ^ 31)%Z with 2147483648%Z in HT. lia.
Qed.

(** C10 (equal totals). Starting from an empty accumulator, after any run
    of [update] calls that returned, on batches with one target per row
    of predictions and one column per model, and as long as the number of
    samples fits a [torch.int]: the entries of every model's matrix add
    up to the number of samples seen; one more [update] with a batch of
    [b] samples adds [b] to the total of every model; and
    [calculate_metrics] returns, its [total_samples] (the sum of the
    matrix of model 0) being the total of every model [m], so that the
    accuracy and the true negatives it computes for [m] are those
    normalised by the total of [m]. *)
Theorem update_totals_equal (score : Type) (score_ltb : score -> score -> bool)
  (nm ncls : nat) (dev : Device) (batches : list (Predictions score * ITensor1))
  (self : MultiConfusionMatrix) :
  run_updates score_ltb (MultiConfusionMatrix_init nm ncls dev) batches = Ok self ->
  Forall (fun pt => predictions_rows (fst pt) = length (it1_data (snd pt))
                    /\ predictions_models (fst pt) = nm) batches ->
  (Z.of_nat (batch_sizes batches) <= 2 ^ 31 - 1)%Z ->
  (forall m, m < nm -> cm_total (cm self) ncls m = Z.of_nat (batch_sizes batches))
  /\ (forall predictions targets self',
        update score_ltb self predictions targets = Ok self' ->
        predictions_rows predictions = length (it1_data targets) ->
        predictions_models predictions = nm ->
        (Z.of_nat (batch_sizes batches + predictions_rows predictions)
         <= 2 ^ 31 - 1)%Z ->
        forall m, m < nm ->
          cm_total (cm self') ncls m
          = (cm_total (cm self) ncls m + Z.of_nat (predictions_rows predictions))%Z)
  /\ (nm <> 0 ->
      exists mt,
        calculate_metrics self = Ok mt
        /\ forall m, m < nm ->
             total_samples mt = cm_total (cm self) ncls m
             /\ nth m (overall_acc mt) (FQuot 0 0)
                = FQuot (sum64 (diagonal self m)) (cm_total (cm self) ncls m)
             /\ forall c, c < ncls ->
                  nth c (nth m (tn mt) []) 0%Z
                  = sub64 (sub64 (sub64 (cm_total (cm self) ncls m)
                                        (nth c (nth m (fn mt) []) 0%Z))
                                 (nth c (nth m (fp mt) []) 0%Z))
                          (nth c (nth m (tp mt) []) 0%Z)).
Proof.
  intros Hrun Hall Hbound.
  destruct (@run_updates_inv score score_ltb batches
              (MultiConfusionMatrix_init nm ncls dev) self 0%Z
              (init_inv nm ncls dev) Hrun Hall ltac:(lia) ltac:(lia))
    as (Hinv & Hn & Hc).
  cbn [Z.add] in Hinv. cbn [MultiConfusionMatrix_init n_models n_classes] in Hn, Hc.
  pose proof Hinv as (_ & _ & _ & _ & Htot). rewrite Hn, Hc in Htot.
  split; [exact Htot|]. split.
  - intros predictions targets self' Hup Hrows Hmodels Hb m Hm.
    destruct (@update_inv score score_ltb self self' predictions targets _
                Hinv Hup Hrows ltac:(congruence) ltac:(lia))
      as ((_ & _ & _ & _ & Htot') & Hn' & Hc').
    rewrite Hn', Hn, Hc', Hc in Htot'.
    rewrite (Htot' m Hm), (Htot m Hm). reflexivity.
  - intros Hnm.
    destruct (@calculate_metrics_fields self ltac:(congruence))
      as (mt & Hmt & Htotal & Hfields).
    rewrite (@total_samples_exact self _ Hinv ltac:(congruence) ltac:(lia)) in Htotal.
    exists mt. split; [exact Hmt|].
    intros m Hm. rewrite Hn in Hfields. destruct (Hfields m Hm) as (Hacc & _ & Htn).
    rewrite (Htot m Hm), <- Htotal.
    split; [reflexivity|]. split; [exact Hacc|].
    intros c Hcl. apply Htn. now rewrite Hc.
Qed.

Lemma update_totals_equal_witness :
  cm_total
    [ [[1; 0; 0]; [0; 1; 0]; [0; 0; 0]]; [[0; 0; 1]; [0; 1; 0]; [0; 0; 0]] ]%Z 3 0
  = 2%Z
  /\ cm_total
       [ [[1; 0; 0]; [0; 1; 0]; [0; 0; 0]]; [[0; 0; 1]; [0; 1; 0]; [0; 0; 0]] ]%Z 3 1
     = 2%Z.
Proof.
  destruct (@update_totals_equal Z Z.ltb 2 3 cpu
              [ (ClassIndices Z (mkITensor2 cpu 2 [[0; 2]]%Z), mkITensor1 cpu [0%Z]);
                (ClassIndices Z (mkITensor2 cpu 2 [[1; 1]]%Z), mkITensor1 cpu [1%Z]) ]
              (mkMultiConfusionMatrix 2 3
                 [ [[1; 0; 0]; [0; 1; 0]; [0; 0; 0]]; [[0; 0; 1]; [0; 1; 0]; [0; 0; 0]] ]%Z
                 (mkITensor1 cpu [0; 1]%Z) 1 cpu))
    as [Htot _].
  - vm_compute. reflexivity.
  - repeat constructor.
  - vm_compute. discriminate.
  - split; [exact (Htot 0 ltac:(lia)) | exact (Htot 1 ltac:(lia))].
Defined.

(** *** The Matthews correlation coefficient *)

Lemma zsum_map_eqm (N : Z) (F G : nat -> Z) (l : list nat) :
  (forall c, eqm N (F c) (G c)) -> eqm N (zsum (map F l)) (zsum (map G l)).
Proof.
  intros H. induction l as [|x l IH]; simpl; [apply eqm_refl|].
  apply Zplus_eqm; [apply H | exact IH].
Qed.

Lemma map2_map_same {T U V W : Type} (h : U -> V -> W) (f : T -> U) (g : T -> V)
  (l : list T) :
  map2 h (map f l) (map g l) = map (fun x => h (f x) (g x)) l.
Proof.
  unfold map2. induction l as [|x l IH]; simpl; [reflexivity|]. now rewrite IH.
Qed.

Lemma mul64_eqm (a b a' b' : Z) :
  eqm (2 ^ 64) a a' -> eqm (2 ^ 64) b b' -> eqm (2 ^ 64) (mul64 a b) (a' * b').
Proof.
  intros Ha Hb. unfold mul64.
  eapply eqm_trans; [apply wrap_eqm; lia|]. now apply Zmult_eqm.
Qed.

Lemma sub64_eqm (a b a' b' : Z) :
  eqm (2 ^ 64) a a' -> eqm (2 ^ 64) b b' -> eqm (2 ^ 64) (sub64 a b) (a' - b').
Proof.
  intros Ha Hb. unfold sub64.
  eapply eqm_trans; [apply wrap_eqm; lia|]. now apply Zminus_eqm.
Qed.

Lemma sum64_map_eqm (F G : nat -> Z) (l : list nat) :
  (forall c, eqm (2 ^ 64) (F c) (G c)) ->
  eqm (2 ^ 64) (sum64 (map F l)) (zsum (map G l)).
Proof.
  intros H. eapply eqm_trans; [apply sum64_eqm|]. now apply zsum_map_eqm.
Qed.

(** The total [calculate_metrics] computes, modulo [2^64], is the sum of
    the entries of the matrix of model 0. *)
Lemma total_samples_eqm (self : MultiConfusionMatrix) :
  eqm (2 ^ 64)
    (sum64 (map (fun tc => cm_at (cm self) 0 (fst tc) (snd tc))
                (list_prod (seq 0 (n_classes self)) (seq 0 (n_classes self)))))
    (cm_total (cm self) (n_classes self) 0).
Proof.
  eapply eqm_trans; [apply sum64_eqm|].
  rewrite (zsum_list_prod (cm_at (cm self) 0)). apply eqm_refl.
Qed.

(** The product [_matthews_corrcoef] tests against zero is, modulo
    [2^64], the denominator of the coefficient. *)
Lemma invalid_mask_eqm (self : MultiConfusionMatrix) (total : Z) (m : nat) :
  eqm (2 ^ 64) total (cm_total (cm self) (n_classes self) 0) ->
  eqm (2 ^ 64)
    (mul64
       (sub64 (mul64 total total) (sum64 (map2 mul64 (p_sum self m) (p_sum self m))))
       (sub64 (mul64 total total) (sum64 (map2 mul64 (t_sum self m) (t_sum self m)))))
    (mcc_denominator self m).
Proof.
  intros HT. unfold mcc_denominator. cbv zeta.
  rewrite Z.mul_comm. rewrite !Z.pow_2_r.
  unfold p_sum, t_sum. rewrite !map2_map_same.
  apply mul64_eqm; apply sub64_eqm; try (now apply mul64_eqm);
    apply sum64_map_eqm; intros c; rewrite Z.pow_2_r;
    apply mul64_eqm; apply sum64_eqm.
Qed.

(** C7 (degenerate Matthews coefficient). For every state of the count
    tensor and every model [m] for which
    [(total^2 - sum of squared row sums) * (total^2 - sum of squared
    column sums)] is zero, [calculate_metrics] returns, and the Matthews
    coefficient it reports for [m] is the literal [0.000000001]. *)
Theorem matthews_corrcoef_degenerate (self : MultiConfusionMatrix) (m : nat) :
  m < n_models self ->
  mcc_denominator self m = 0%Z ->
  exists mt,
    calculate_metrics self = Ok mt
    /\ nth m (matthews_corrcoef mt) (FQuot 0 0) = FLit_1e_9.
Proof.
  intros Hm Hden.
  destruct (@calculate_metrics_fields self ltac:(lia)) as (mt & Hmt & Htotal & Hfields).
  exists mt. split; [exact Hmt|].
  destruct (Hfields m Hm) as (_ & Hmcc & _). rewrite Hmcc.
  unfold matthews_corrcoef_model. cbv zeta.
  assert (HT : eqm (2 ^ 64) (total_samples mt) (cm_total (cm self) (n_classes self) 0))
    by (rewrite Htotal; apply total_samples_eqm).
  pose proof (invalid_mask_eqm self m HT) as Hmask.
  set (prod :=
         mul64
           (sub64 (mul64 (total_samples mt) (total_samples mt))
              (sum64 (map2 mul64 (p_sum self m) (p_sum self m))))
           (sub64 (mul64 (total_samples mt) (total_samples mt))
              (sum64 (map2 mul64 (t_sum self m) (t_sum self m))))) in *.
  assert (Hzero : prod = 0%Z).
  { transitivity (wrap 64 prod).
    - unfold prod, mul64. symmetry. apply wrap_idem. lia.
    - rewrite (wrap_congr 64 Hmask), Hden. reflexivity. }
  rewrite Hzero. reflexivity.
Qed.

Lemma matthews_corrcoef_degenerate_witness :
  exists mt,
    calculate_metrics
      (mkMultiConfusionMatrix 2 2 [ [[3; 0]; [0; 2]]; [[3; 0]; [2; 0]] ]%Z
         (mkITensor1 cpu [0; 1]%Z) 1 cpu) = Ok mt
    /\ nth 1 (matthews_corrcoef mt) (FQuot 0 0) = FLit_1e_9.
Proof.
  apply (@matthews_corrcoef_degenerate
           (mkMultiConfusionMatrix 2 2 [ [[3; 0]; [0; 2]]; [[3; 0]; [2; 0]] ]%Z
              (mkITensor1 cpu [0; 1]%Z) 1 cpu) 1).
  - simpl. lia.
  - reflexivity.
Defined.

(** Two models, two classes, five samples; model 0 is always right and
    model 1 always predicts class 0: the coefficient of model 1 is the
    literal, that of model 0 is [25 - 13 = 12] over [sqrt(12 * 12)]. *)
Example matthews_corrcoef_constant_predictions :
  exists self mt,
    update Z.ltb (MultiConfusionMatrix_init 2 2 cpu)
      (ClassIndices Z (mkITensor2 cpu 2 [[0; 0]; [0; 0]; [0; 0]; [1; 0]; [1; 0]]%Z))
      (mkITensor1 cpu [0; 0; 0; 1; 1]%Z) = Ok self
    /\ calculate_metrics self = Ok mt
    /\ matthews_corrcoef mt = [FQuotSqrt 12 144; FLit_1e_9]
    /\ overall_acc mt = [FQuot 5 5; FQuot 3 5].
Proof. eexists _, _. repeat split; vm_compute; reflexivity. Qed.

Lemma apply_activations_check_unreachable_witness :
  exists e,
    ParallelMLPs_init 3 2 [0; 0; 1] [0; 1] [0; 1] test_acts
      test_hw test_hb test_W test_b = Ok e
    /\ apply_activations 0%Z e (mkTensor2 5 3 (fun r j => Z.of_nat (r + j)))
       <> Raise (RuntimeError msg_sub_tensors).
Proof.
  destruct (@ParallelMLPs_init_Ok Z 3 2 [0; 0; 1] [0; 1] [0; 1] test_acts
              test_hw test_hb test_W test_b) as [e He]; [discriminate|].
  exists e. split; [exact He|].
  apply (@apply_activations_check_unreachable Z 0%Z 3 2 [0; 0; 1] [0; 1] [0; 1]
           test_acts test_hw test_hb test_W test_b e _ He).
  reflexivity.
Defined.

(** * Further properties of the code *)

(** ** The output arrays of [build_model_ids] *)

Lemma groupby_keys_repeat (x n : nat) :
  n <> 0 -> groupby_keys (repeat x n) = [x].
Proof.
  induction n as [|n IH]; intros Hn; [congruence|].
  destruct n as [|n]; [reflexivity|].
  change (repeat x (S (S n))) with (x :: x :: repeat x n).
  cbn [groupby_keys]. rewrite Nat.eqb_refl.
  change (x :: repeat x n) with (repeat x (S n)). apply IH. discriminate.
Qed.

(** A run of a new key after a list adds that key. *)
Lemma groupby_keys_app_run (l : list nat) (x n : nat) :
  (forall y, In y l -> y <> x) -> n <> 0 ->
  groupby_keys (l ++ repeat x n) = groupby_keys l ++ [x].
Proof.
  intros Hl Hn. induction l as [|y l IH].
  - simpl. now apply groupby_keys_repeat.
  - assert (Hy : y <> x) by (apply Hl; now left).
    specialize (IH ltac:(intros z Hz; apply Hl; now right)).
    destruct l as [|z l].
    + destruct n as [|n]; [congruence|].
      change ([y] ++ repeat x (S n)) with (y :: x :: repeat x n).
      change (groupby_keys (y :: x :: repeat x n))
        with (if y =? x then groupby_keys (x :: repeat x n)
              else y :: groupby_keys (x :: repeat x n)).
      replace (y =? x) with false by (symmetry; now apply Nat.eqb_neq).
      change (x :: repeat x n) with (repeat x (S n)).
      rewrite groupby_keys_repeat by discriminate. reflexivity.
    + change ((y :: z :: l) ++ repeat x n) with (y :: z :: (l ++ repeat x n)).
      change (groupby_keys (y :: z :: l ++ repeat x n))
        with (if y =? z then groupby_keys (z :: l ++ repeat x n)
              else y :: groupby_keys (z :: l ++ repeat x n)).
      change (groupby_keys (y :: z :: l))
        with (if y =? z then groupby_keys (z :: l) else y :: groupby_keys (z :: l)).
      change (z :: l ++ repeat x n) with ((z :: l) ++ repeat x n).
      rewrite IH. now destruct (y =? z).
Qed.

Lemma groupby_keys_layout (w : nat -> nat) (M : nat) :
  (forall m, 1 <= w m) -> groupby_keys (layout w M) = seq 0 M.
Proof.
  intros Hw. induction M as [|M IH]; [reflexivity|].
  rewrite layout_succ, groupby_keys_app_run, IH.
  - now rewrite seq_S.
  - intros y Hy. apply layout_In in Hy. lia.
  - pose proof (Hw M). lia.
Qed.

Lemma concat_repeat_length {T : Type} (l : list T) (r : nat) :
  length (concat (repeat l r)) = r * length l.
Proof.
  induction r as [|r IH]; [reflexivity|].
  simpl. rewrite length_app, IH. reflexivity.
Qed.

Lemma concat_repeat_nth {T : Type} (l : list T) (r i : nat) (d : T) :
  i < r * length l ->
  nth i (concat (repeat l r)) d = nth (i mod length l) l d.
Proof.
  revert i. induction r as [|r IH]; intros i Hi; [simpl in Hi; lia|].
  simpl in *. destruct (Nat.lt_ge_cases i (length l)) as [Hlt|Hge].
  - rewrite app_nth1 by exact Hlt. now rewrite Nat.mod_small.
  - rewrite app_nth2 by exact Hge. rewrite IH by lia.
    f_equal. replace i with ((i - length l) + 1 * length l) at 2 by lia.
    now rewrite Nat.Div0.mod_add.
Qed.

Lemma firstn_seq_le (n a m : nat) : n <= m -> firstn n (seq a m) = seq a n.
Proof.
  revert a m. induction n as [|n IH]; intros a m Hn; [reflexivity|].
  destruct m as [|m]; [lia|]. simpl. f_equal. apply IH. lia.
Qed.

(** The ids of the outputs and of the architectures. For a configuration
    with [R >= 1], distinct activations, [1 <= min <= max] and
    [step >= 1]: [output__model_id] is [0, 1, ..., M-1], and
    [output__architecture_id] has [M] entries, entry [m] being
    [m mod (K * S)]. *)
Theorem build_model_ids_outputs (A : Type) (R : Z) (acts : list (Activation A))
  (min_neurons max_neurons step : Z) :
  (1 <= R)%Z -> acts <> [] -> NoDup (map (@class_name A) acts) ->
  (1 <= min_neurons)%Z -> (min_neurons <= max_neurons)%Z -> (1 <= step)%Z ->
  let S := Z.to_nat ((max_neurons - min_neurons) / step + 1) in
  let M := S * length acts * Z.to_nat R in
  exists hidden output__model_id output__architecture_id,
    build_model_ids R acts min_neurons max_neurons step
    = Ok (hidden, output__model_id, output__architecture_id)
    /\ output__model_id = seq 0 M
    /\ length output__architecture_id = M
    /\ forall m, m < M ->
         nth m output__architecture_id 0 = m mod (length acts * S).
Proof.
  intros HR Hne Hnd Hmin Hmm Hstep S M.
  pose proof (arange_neuron_sequence Hmm Hstep) as Har.
  pose proof (neuron_count_pos Hmm Hstep) as HS0. fold S in Har, HS0.
  set (ns := neuron_sequence min_neurons step S) in *.
  assert (HS : length ns = S) by apply neuron_sequence_length.
  pose proof (@build_model_ids_Ok A R _ _ _ _ _ Hne Hnd Har) as Hb. cbv zeta in Hb.
  rewrite HS in Hb. fold M in Hb.
  assert (Hpos : forall k, 1 <= width ns k)
    by (intros k; apply width_pos; [exact HS0 | lia | lia]).
  rewrite (@groupby_keys_layout (width ns) M Hpos) in Hb.
  assert (HK : length acts <> 0) by (destruct acts; [congruence | discriminate]).
  assert (Hfirst : firstn (length acts * S) (seq 0 M) = seq 0 (length acts * S)).
  { apply firstn_seq_le. subst M. nia. }
  rewrite Hfirst in Hb.
  eexists _, _, _. split; [exact Hb|]. split; [reflexivity|].
  unfold list_times. split.
  - rewrite concat_repeat_length, length_seq. subst M. lia.
  - intros m Hm. rewrite concat_repeat_nth by (rewrite length_seq; subst M; lia).
    rewrite length_seq, seq_nth; [reflexivity|].
    apply Nat.mod_upper_bound. nia.
Qed.

Lemma build_model_ids_outputs_witness :
  exists hidden output__model_id output__architecture_id,
    build_model_ids 3 test_acts 1 3 1
    = Ok (hidden, output__model_id, output__architecture_id)
    /\ output__model_id = seq 0 18
    /\ nth 13 output__architecture_id 0 = 1.
Proof.
  destruct (@build_model_ids_outputs Z 3 test_acts 1 3 1)
    as (h & o & a & Hb & Ho & _ & Ha);
    [lia | discriminate | exact NoDup_test_acts | lia | lia | lia |].
  exists h, o, a. split; [exact Hb|]. split; [exact Ho|].
  exact (Ha 13 ltac:(vm_compute; lia)).
Defined.

Lemma concat_repeat_nil {T : Type} (n : nat) : concat (repeat (@nil T) n) = [].
Proof. induction n as [|n IH]; [reflexivity|]. exact IH. Qed.

(** Configurations without models, and ranges [arange] refuses. With a
    valid activation list, and bounds [min], [max + 1] and a step that
    fit a 64-bit integer: when [step >= 1] and [repetitions <= 0], with
    [min <= max + 1] and fewer than [2^24] integers between the bounds,
    the three arrays are empty and nothing is raised; so they are when
    [step >= 1] and [min = max + 1], whatever [repetitions] is; when
    [step = 0], or [step >= 1] and [min > max + 1], [torch.arange]
    raises a [RuntimeError]. *)
Theorem build_model_ids_degenerate (A : Type) (R : Z) (acts : list (Activation A))
  (min_neurons max_neurons step : Z) :
  acts <> [] -> NoDup (map (@class_name A) acts) ->
  fits_int64 min_neurons -> fits_int64 (max_neurons + 1) -> fits_int64 step ->
  ((1 <= step)%Z -> (R <= 0)%Z -> (min_neurons <= max_neurons + 1)%Z ->
   (max_neurons - min_neurons < 2 ^ 24)%Z ->
   build_model_ids R acts min_neurons max_neurons step = Ok ([], [], []))
  /\ ((1 <= step)%Z -> min_neurons = (max_neurons + 1)%Z ->
      build_model_ids R acts min_neurons max_neurons step = Ok ([], [], []))
  /\ (step = 0%Z ->
      exists msg,
        build_model_ids R acts min_neurons max_neurons step
        = Raise (RuntimeError msg))
  /\ ((1 <= step)%Z -> (max_neurons + 1 < min_neurons)%Z ->
      exists msg,
        build_model_ids R acts min_neurons max_neurons step
        = Raise (RuntimeError msg)).
Proof.
  intros Hne Hnd _ _ _.
  assert (Hchecks : forall r,
            arange min_neurons (max_neurons + 1) step = Raise r ->
            build_model_ids R acts min_neurons max_neurons step = Raise r).
  { intros r Har. unfold build_model_ids.
    destruct acts as [|a acts']; [congruence|]. cbn [length Nat.eqb].
    apply nodup_length_NoDup in Hnd. rewrite Hnd, Nat.eqb_refl. cbn [negb].
    now rewrite Har. }
  assert (Hempty : (1 <= step)%Z -> (min_neurons <= max_neurons + 1)%Z ->
            (R <= 0)%Z \/ min_neurons = (max_neurons + 1)%Z ->
            build_model_ids R acts min_neurons max_neurons step = Ok ([], [], [])).
  { intros Hstep Hle Hcase.
    assert (Har : arange min_neurons (max_neurons + 1) step
                  = Ok (neuron_sequence min_neurons step
                          (Z.to_nat (ceil_div (max_neurons + 1 - min_neurons) step)))).
    { unfold arange, neuron_sequence.
      replace (step =? 0)%Z with false by (symmetry; apply Z.eqb_neq; lia).
      replace (0 <? step)%Z with true by (symmetry; apply Z.ltb_lt; lia).
      replace (max_neurons + 1 <? min_neurons)%Z with false
        by (symmetry; apply Z.ltb_ge; lia).
      reflexivity. }
    rewrite (@build_model_ids_Ok A R _ _ _ _ _ Hne Hnd Har).
    rewrite neuron_sequence_length.
    assert (HM : Z.to_nat (ceil_div (max_neurons + 1 - min_neurons) step)
                 * length acts * Z.to_nat R = 0).
    { destruct Hcase as [HR|Heq].
      - replace (Z.to_nat R) with 0 by lia. lia.
      - subst min_neurons. unfold ceil_div.
        replace (max_neurons + 1 - (max_neurons + 1) + step - 1)%Z
          with (step - 1)%Z by lia.
        rewrite Z.div_small by lia. reflexivity. }
    rewrite HM. change (layout _ 0) with (@nil nat).
    cbn [groupby_keys]. rewrite firstn_nil. unfold list_times.
    now rewrite concat_repeat_nil. }
  split; [|split; [|split]].
  - intros Hstep HR Hle _. apply Hempty; [exact Hstep | exact Hle | now left].
  - intros Hstep Heq. apply Hempty; [exact Hstep | lia | now right].
  - intros ->. eexists. apply Hchecks. reflexivity.
  - intros Hstep Hgt. eexists. apply Hchecks. unfold arange.
    replace (step =? 0)%Z with false by (symmetry; apply Z.eqb_neq; lia).
    replace (0 <? step)%Z with true by (symmetry; apply Z.ltb_lt; lia).
    replace (max_neurons + 1 <? min_neurons)%Z with true
      by (symmetry; apply Z.ltb_lt; lia).
    reflexivity.
Qed.

Lemma build_model_ids_degenerate_witness :
  build_model_ids 0 test_acts 1 3 1 = Ok ([], [], [])
  /\ build_model_ids 3 test_acts 4 3 1 = Ok ([], [], [])
  /\ (exists msg, build_model_ids 3 test_acts 1 3 0 = Raise (RuntimeError msg))
  /\ (exists msg, build_model_ids 3 test_acts 5 3 1 = Raise (RuntimeError msg)).
Proof.
  assert (H24 : (2 ^ 24 = 16777216)%Z) by reflexivity.
  assert (H63 : (2 ^ 63 = 9223372036854775808)%Z) by reflexivity.
  assert (Hne : test_acts <> []) by discriminate.
  split; [|split; [|split]].
  - destruct (@build_model_ids_degenerate Z 0 test_acts 1 3 1 Hne NoDup_test_acts)
      as (H & _); [unfold fits_int64; lia ..|].
    apply H; lia.
  - destruct (@build_model_ids_degenerate Z 3 test_acts 4 3 1 Hne NoDup_test_acts)
      as (_ & H & _); [unfold fits_int64; lia ..|].
    apply H; lia.
  - destruct (@build_model_ids_degenerate Z 3 test_acts 1 3 0 Hne NoDup_test_acts)
      as (_ & _ & H & _); [unfold fits_int64; lia ..|].
    apply H. reflexivity.
  - destruct (@build_model_ids_degenerate Z 3 test_acts 5 3 1 Hne NoDup_test_acts)
      as (_ & _ & _ & H); [unfold fits_int64; lia ..|].
    apply H; lia.
Defined.

(** ** The offsets of the engine and the slices [extract_mlp] copies *)

Lemma list_max_layout (w : nat -> nat) (M : nat) :
  (forall m, 1 <= w m) -> list_max (layout w (S M)) = M.
Proof.
  intros Hw. apply Nat.le_antisymm.
  - apply list_max_le, Forall_forall. intros x Hx. apply layout_In in Hx. lia.
  - pose proof (proj1 (list_max_le (layout w (S M)) _) (Nat.le_refl _)) as HF.
    rewrite Forall_forall in HF. apply HF.
    apply layout_In_iff. split; [lia | apply Hw].
Qed.

(** Counting the ids of a layout gives the widths back. *)
Lemma bincount_layout (w : nat -> nat) (M : nat) :
  (forall m, 1 <= w m) -> bincount (layout w M) = map w (seq 0 M).
Proof.
  intros Hw. destruct M as [|M]; [reflexivity|].
  unfold bincount.
  destruct (layout w (S M)) as [|x l] eqn:El.
  - apply (f_equal (@length nat)) in El. rewrite layout_length, start_of_succ in El.
    pose proof (Hw M). simpl in El. lia.
  - rewrite <- El, list_max_layout by exact Hw.
    apply map_ext_in. intros m Hm. apply in_seq in Hm.
    apply layout_count_occ. lia.
Qed.

Lemma list_sum_firstn_widths (w : nat -> nat) (M m : nat) :
  m <= M -> list_sum (firstn m (map w (seq 0 M))) = start_of w m.
Proof.
  intros Hm. unfold start_of. now rewrite firstn_map, firstn_seq_le.
Qed.

Lemma filter_all_false {T : Type} (p : T -> bool) (l : list T) :
  (forall x, In x l -> p x = false) -> filter p l = [].
Proof.
  induction l as [|x l IH]; intros H; [reflexivity|].
  simpl. rewrite (H x (or_introl eq_refl)). apply IH.
  intros y Hy. apply H. now right.
Qed.

Lemma filter_all_true {T : Type} (p : T -> bool) (l : list T) :
  (forall x, In x l -> p x = true) -> filter p l = l.
Proof.
  induction l as [|x l IH]; intros H; [reflexivity|].
  simpl. rewrite (H x (or_introl eq_refl)). f_equal. apply IH.
  intros y Hy. apply H. now right.
Qed.

(** The positions below [n] that satisfy a test true exactly on
    [a .. a+len-1]. *)
Lemma filter_seq_range (p : nat -> bool) (a len n : nat) :
  a + len <= n ->
  (forall j, j < n -> p j = true <-> a <= j < a + len) ->
  filter p (seq 0 n) = seq a len.
Proof.
  intros Hle Hp.
  replace n with (a + (len + (n - a - len))) by lia.
  rewrite seq_app, seq_app, !filter_app. cbn [Nat.add].
  rewrite filter_all_false, filter_all_true, filter_all_false.
  - now rewrite app_nil_r.
  - intros j Hj. apply in_seq in Hj.
    destruct (p j) eqn:E; [|reflexivity]. apply Hp in E; lia.
  - intros j Hj. apply in_seq in Hj. apply Hp; lia.
  - intros j Hj. apply in_seq in Hj.
    destruct (p j) eqn:E; [|reflexivity]. apply Hp in E; lia.
Qed.

(** What a network returned by [extract_mlp] holds, for any engine. *)
Lemma extract_mlp_fields (A : Type) (e : ParallelMLPs A) (m : nat) (net : Sequential A) :
  extract_mlp e m = Ok net ->
  m < num_unique_models e
  /\ seq_in_features net = in_features e
  /\ seq_hidden_features net = length (model_neurons e m)
  /\ seq_out_features net = out_features e
  /\ (forall k i, seq_hidden_weight net k i
                  = hidden_layer_weight e (nth k (model_neurons e m) 0) i)
  /\ (forall k, seq_hidden_bias net k
                = hidden_layer_bias e (nth k (model_neurons e m) 0))
  /\ (forall o k, seq_out_weight net o k = weight e o (nth k (model_neurons e m) 0))
  /\ (forall o, seq_out_bias net o = bias e m o).
Proof.
  unfold extract_mlp.
  destruct (num_unique_models e <=? m) eqn:Em; [discriminate|].
  apply Nat.leb_gt in Em.
  destruct (activation_index e m) as [a|]; [|discriminate]. cbn [bind].
  destruct (nth_error (activations e) a) as [act|]; [|discriminate].
  intros H. inversion H; subst net; clear H. cbn.
  repeat split; try reflexivity. exact Em.
Qed.

Section LaidOutOffsets.

Variable A : Type.
Variable w : nat -> nat.
Variable M : nat.
Hypothesis Hpos : forall m, 1 <= w m.
Variables in_f out_f : nat.
Variables out_ids arch_ids : list nat.
Variable acts : list (Activation A).
Variable hw : nat -> nat -> A.
Variable hb : nat -> A.
Variable W : nat -> nat -> A.
Variable b : nat -> nat -> A.
Variable e : ParallelMLPs A.
Hypothesis He :
  ParallelMLPs_init in_f out_f (layout w M) out_ids arch_ids acts hw hb W b = Ok e.

(** The offsets [__init__] derives from a layout: model [m] owns the
    positions from the sum of the widths before it, and the mask of [m]
    selects exactly them. *)
Lemma laid_out_offsets (m : nat) :
  m < M ->
  nth_error (model_id__start_idx e) m = Some (start_of w m)
  /\ nth_error (model_id__end_idx e) m = Some (start_of w m + w m)
  /\ model_neurons e m = seq (start_of w m) (w m)
  /\ unique_model_ids e = seq 0 M
  /\ num_unique_models e = M.
Proof.
  intros Hm.
  unfold ParallelMLPs_init in He.
  destruct (length acts =? 0); [discriminate|].
  inversion He; subst e; clear He.
  cbn [model_id__start_idx model_id__end_idx unique_model_ids num_unique_models].
  unfold model_neurons. cbn [hidden_neuron__model_id].
  rewrite bincount_layout by exact Hpos.
  rewrite sorted_set_layout by exact Hpos. rewrite length_seq.
  set (counts := map w (seq 0 M)).
  assert (Hlen : length counts = M) by (subst counts; now rewrite length_map, length_seq).
  assert (Hend : exists t,
            nth_error (map (fun se => fst se + snd se)
                         (combine (0 :: removelast (cumsum counts)) counts)) m = Some t).
  { destruct (nth_error (map (fun se => fst se + snd se)
                           (combine (0 :: removelast (cumsum counts)) counts)) m)
      as [t|] eqn:E; [now exists t|].
    apply nth_error_None in E.
    rewrite length_map, length_combine in E. cbn [length] in E.
    unfold cumsum in E. rewrite cumsum_from_map in E.
    rewrite Hlen in E. destruct M as [|M']; [lia|].
    rewrite seq_S, map_app in E. cbn [map] in E.
    rewrite removelast_last, length_map, length_seq in E. lia. }
  destruct Hend as [t Ht].
  assert (Hstart : exists s, nth_error (0 :: removelast (cumsum counts)) m = Some s).
  { rewrite nth_error_map in Ht.
    destruct (nth_error (combine (0 :: removelast (cumsum counts)) counts) m)
      as [[s c]|] eqn:Ec; [|discriminate].
    destruct (nth_error_combine_inv _ _ _ Ec) as [Hs _]. now exists s. }
  destruct Hstart as [s Hs].
  pose proof (@start_idx_nth _ _ _ Hs ltac:(lia)) as Hsv.
  destruct (@end_idx_nth _ _ _ Ht) as [_ Htv].
  subst counts. rewrite list_sum_firstn_widths in Hsv, Htv by lia.
  rewrite start_of_succ in Htv. subst s t.
  split; [exact Hs|]. split; [exact Ht|]. split; [|split; reflexivity].
  apply filter_seq_range.
  - rewrite layout_length. pose proof (@start_of_le w (S m) M Hm) as Hle.
    now rewrite start_of_succ in Hle.
  - intros j Hj. rewrite Nat.eqb_eq. now apply layout_nth.
Qed.

End LaidOutOffsets.

(** The network [extract_mlp] returns holds the slice of its model. For a
    configuration with [R >= 1], distinct activations,
    [1 <= min <= max] and [step >= 1], and a model [m < M]: the offsets
    [start(m)] and [end(m)] the engine derived are [width m] apart, the
    extracted network has [in_features] inputs, [width m] hidden units
    and [out_features] outputs, and its parameters are rows
    [start(m) .. end(m)-1] of the hidden weight and bias, the same columns
    of the output weight, and row [m] of the output bias: the entries
    [reset_parameters] redraws for [m]. *)
Theorem extract_mlp_copies_slice (A : Type)
  (R : Z) (acts : list (Activation A)) (min_neurons max_neurons step : Z)
  (in_f out_f : nat) (hw : nat -> nat -> A) (hb : nat -> A) (W b : nat -> nat -> A)
  (m : nat) :
  (1 <= R)%Z -> acts <> [] -> NoDup (map (@class_name A) acts) ->
  (1 <= min_neurons)%Z -> (min_neurons <= max_neurons)%Z -> (1 <= step)%Z ->
  let S := Z.to_nat ((max_neurons - min_neurons) / step + 1) in
  let wd := width (neuron_sequence min_neurons step S) m in
  m < S * length acts * Z.to_nat R ->
  exists h o a e net start,
    build_model_ids R acts min_neurons max_neurons step = Ok (h, o, a)
    /\ ParallelMLPs_init in_f out_f h o a acts hw hb W b = Ok e
    /\ extract_mlp e m = Ok net
    /\ nth_error (model_id__start_idx e) m = Some start
    /\ nth_error (model_id__end_idx e) m = Some (start + wd)
    /\ seq_in_features net = in_f
    /\ seq_hidden_features net = wd
    /\ seq_out_features net = out_f
    /\ (forall k, k < wd ->
          (forall i, seq_hidden_weight net k i = hw (start + k) i)
          /\ seq_hidden_bias net k = hb (start + k)
          /\ (forall o, seq_out_weight net o k = W o (start + k)))
    /\ (forall o, seq_out_bias net o = b m o).
Proof.
  intros HR Hne Hnd Hmin Hmm Hstep S wd Hm.
  pose proof (arange_neuron_sequence Hmm Hstep) as Har.
  pose proof (neuron_count_pos Hmm Hstep) as HS0. fold S in Har, HS0.
  set (ns := neuron_sequence min_neurons step S) in *.
  assert (HS : length ns = S) by apply neuron_sequence_length.
  pose proof (@build_model_ids_Ok A R _ _ _ _ _ Hne Hnd Har) as Hb. cbv zeta in Hb.
  rewrite HS in Hb.
  set (h := layout (width ns) (S * length acts * Z.to_nat R)) in *.
  destruct (@ParallelMLPs_init_Ok A in_f out_f h (groupby_keys h)
              (list_times (firstn (length acts * S) (groupby_keys h)) R)
              acts hw hb W b Hne) as [e He].
  assert (Hper : forall k, width ns (k + S) = width ns k)
    by (intros k; rewrite <- HS; apply width_periodic).
  assert (Hpos : forall k, 1 <= width ns k)
    by (intros k; apply width_pos; [exact HS0 | lia | lia]).
  assert (HK : length acts <> 0)
    by (destruct acts; [congruence | discriminate]).
  assert (HRn : Z.to_nat R <> 0) by lia.
  destruct (@laid_out_extract A (hb 0) (fun x _ => x) (fun x _ => x)
              (width ns) S (length acts) (Z.to_nat R)
              Hper Hpos HS0 HK HRn in_f out_f _ _ acts eq_refl hw hb W b e He
              (mkTensor2 0 in_f (fun _ _ => hb 0)) m eq_refl Hm)
    as (net & _ & _ & Hnet & _).
  destruct (@laid_out_fields A (width ns) S (length acts) (Z.to_nat R)
              Hper Hpos HK in_f out_f _ _ acts eq_refl hw hb W b e He)
    as (Hin & Hout & _ & _ & _ & _ & _ & Hhw & Hhb & HW & Hbias).
  destruct (@laid_out_offsets A (width ns) _ Hpos in_f out_f _ _ acts hw hb W b e He m Hm)
    as (Hst & Hen & Hneur & _ & _).
  destruct (extract_mlp_fields _ _ Hnet)
    as (_ & F1 & F2 & F3 & F4 & F5 & F6 & F7).
  rewrite Hneur, length_seq in F2.
  exists h, (groupby_keys h),
    (list_times (firstn (length acts * S) (groupby_keys h)) R), e, net,
    (start_of (width ns) m).
  split; [exact Hb|]. split; [exact He|]. split; [exact Hnet|].
  split; [exact Hst|]. split; [exact Hen|].
  split; [congruence|]. split; [exact F2|]. split; [congruence|].
  split.
  - intros k Hk.
    assert (Hnth : nth k (model_neurons e m) 0 = start_of (width ns) m + k)
      by (rewrite Hneur; now apply seq_nth).
    split; [|split].
    + intros i. now rewrite F4, Hnth, Hhw.
    + now rewrite F5, Hnth, Hhb.
    + intros o. now rewrite F6, Hnth, HW.
  - intros o. now rewrite F7, Hbias.
Qed.

Lemma extract_mlp_copies_slice_witness :
  exists h o a e net start,
    build_model_ids 3 test_acts 1 3 1 = Ok (h, o, a)
    /\ ParallelMLPs_init 3 2 h o a test_acts test_hw test_hb test_W test_b = Ok e
    /\ extract_mlp e 5 = Ok net
    /\ nth_error (model_id__start_idx e) 5 = Some start
    /\ seq_hidden_features net = 3.
Proof.
  destruct (@extract_mlp_copies_slice Z 3 test_acts 1 3 1 3 2
              test_hw test_hb test_W test_b 5)
    as (h & o & a & e & net & start & H1 & H2 & H3 & H4 & _ & _ & H5 & _);
    [lia | discriminate | exact NoDup_test_acts | lia | lia | lia
    | vm_compute; lia |].
  exists h, o, a, e, net, start. repeat (split; [assumption|]). exact H5.
Defined.

(** ** When [reset_parameters] returns, and what it keeps *)

Section ResetReturns.

Variable A : Type.
Variable rng : Type.
Variable kaiming_uniform_ : rng -> nat -> nat -> (nat -> nat -> A) * rng.
Variable uniform_ : rng -> nat -> nat -> (nat -> A) * rng.

Variables in_f out_f : nat.
Variables h out_ids arch_ids : list nat.
Variable acts : list (Activation A).

(** An engine is the one [__init__] builds from the index arrays, with
    the parameters it currently holds. *)
Let built (e : ParallelMLPs A) : Prop :=
  ParallelMLPs_init in_f out_f h out_ids arch_ids acts
    (hidden_layer_weight e) (hidden_layer_bias e) (weight e) (bias e) = Ok e.

Lemma built_init (hw : nat -> nat -> A) (hb : nat -> A) (W b : nat -> nat -> A)
  (e : ParallelMLPs A) :
  ParallelMLPs_init in_f out_f h out_ids arch_ids acts hw hb W b = Ok e -> built e.
Proof.
  unfold built, ParallelMLPs_init.
  destruct (length acts =? 0); [intros H; discriminate H|].
  intros H. injection H as <-. reflexivity.
Qed.

(** One turn of the loop changes parameters only. *)
Lemma reset_layer_built (e e1 : ParallelMLPs A) (g g1 : rng) (l : nat) :
  built e -> reset_layer kaiming_uniform_ uniform_ e g l = Ok (e1, g1) -> built e1.
Proof.
  unfold built, ParallelMLPs_init.
  destruct (length acts =? 0); [intros H; discriminate H|].
  intros He. injection He as He'. unfold reset_layer.
  destruct (nth_error (model_id__start_idx e) l) as [sl|]; [|discriminate].
  destruct (nth_error (model_id__end_idx e) l) as [tl|]; [|discriminate].
  destruct (num_unique_models e <=? l); [discriminate|].
  destruct (in_features e =? 0); [discriminate|].
  destruct (kaiming_uniform_ g (tl - sl) (in_features e)) as [w1 g2].
  destruct (uniform_ g2 (in_features e) (tl - sl)) as [b1 g3].
  destruct (tl - sl =? 0); [discriminate|].
  destruct (kaiming_uniform_ g3 (out_features e) (tl - sl)) as [w2 g4].
  destruct (uniform_ g4 (tl - sl) (out_features e)) as [b2 g5].
  intros H. inversion H; subst e1 g1; clear H.
  rewrite <- He'. reflexivity.
Qed.

Lemma reset_layer_returns (e : ParallelMLPs A) (g : rng) (l start wd : nat) :
  nth_error (model_id__start_idx e) l = Some start ->
  nth_error (model_id__end_idx e) l = Some (start + wd) ->
  l < num_unique_models e -> in_features e <> 0 -> wd <> 0 ->
  exists e1 g1, reset_layer kaiming_uniform_ uniform_ e g l = Ok (e1, g1).
Proof.
  intros Hs Ht Hl Hin Hwd. unfold reset_layer. rewrite Hs, Ht.
  replace (num_unique_models e <=? l) with false by (symmetry; apply Nat.leb_gt; lia).
  replace (in_features e =? 0) with false by (symmetry; now apply Nat.eqb_neq).
  replace (start + wd - start) with wd by lia.
  destruct (kaiming_uniform_ g wd (in_features e)) as [w1 g2].
  destruct (uniform_ g2 (in_features e) wd) as [b1 g3].
  replace (wd =? 0) with false by (symmetry; now apply Nat.eqb_neq).
  destruct (kaiming_uniform_ g3 (out_features e) wd) as [w2 g4].
  destruct (uniform_ g4 wd (out_features e)) as [b2 g5].
  eexists _, _. reflexivity.
Qed.

End ResetReturns.

Lemma reset_loop_laid_out (A rng : Type)
  (kaiming_uniform_ : rng -> nat -> nat -> (nat -> nat -> A) * rng)
  (uniform_ : rng -> nat -> nat -> (nat -> A) * rng)
  (w : nat -> nat) (M in_f out_f : nat) (out_ids arch_ids : list nat)
  (acts : list (Activation A)) (layer_ids : list nat) :
  (forall m, 1 <= w m) -> in_f <> 0 ->
  Forall (fun l => l < M) layer_ids ->
  forall (e : ParallelMLPs A) (g : rng),
    ParallelMLPs_init in_f out_f (layout w M) out_ids arch_ids acts
      (hidden_layer_weight e) (hidden_layer_bias e) (weight e) (bias e) = Ok e ->
    exists e' g',
      reset_loop kaiming_uniform_ uniform_ e g layer_ids = Ok (e', g')
      /\ ParallelMLPs_init in_f out_f (layout w M) out_ids arch_ids acts
           (hidden_layer_weight e') (hidden_layer_bias e') (weight e') (bias e')
         = Ok e'.
Proof.
  intros Hpos Hin Hall. induction Hall as [|l rest Hl Hrest IH]; intros e g He.
  - exists e, g. split; [reflexivity | exact He].
  - destruct (@laid_out_offsets A w M Hpos in_f out_f _ _ acts _ _ _ _ e He l Hl)
      as (Hs & Ht & _ & _ & Hnum).
    destruct (@init_fields A _ _ _ _ _ _ _ _ _ _ e He) as (_ & Hinf & _).
    destruct (@reset_layer_returns A rng kaiming_uniform_ uniform_ e g l _ _ Hs Ht)
      as (e1 & g1 & H1).
    { lia. }
    { congruence. }
    { pose proof (Hpos l). lia. }
    pose proof (@reset_layer_built A rng kaiming_uniform_ uniform_ _ _ _ _ _ _
                  e e1 g g1 l He H1) as He1.
    destruct (IH e1 g1 He1) as (e' & g' & Hloop & He').
    exists e', g'. split; [|exact He'].
    cbn [reset_loop]. rewrite H1. exact Hloop.
Qed.

(** [reset_parameters] returns, and changes parameters only. For a
    configuration with [R >= 1], distinct activations,
    [1 <= min <= max] and [step >= 1], an engine with at least one input
    feature, and either no list of ids (all models) or a list of ids below
    [M]: the call returns, and the engine it leaves is the one [__init__]
    builds from the same index arrays with the new parameters, so every
    offset, count and split is as before. *)
Theorem reset_parameters_returns (A rng : Type)
  (kaiming_uniform_ : rng -> nat -> nat -> (nat -> nat -> A) * rng)
  (uniform_ : rng -> nat -> nat -> (nat -> A) * rng)
  (R : Z) (acts : list (Activation A)) (min_neurons max_neurons step : Z)
  (in_f out_f : nat) (hw : nat -> nat -> A) (hb : nat -> A) (W b : nat -> nat -> A)
  (g : rng) (layer_ids : option (list nat)) :
  (1 <= R)%Z -> acts <> [] -> NoDup (map (@class_name A) acts) ->
  (1 <= min_neurons)%Z -> (min_neurons <= max_neurons)%Z -> (1 <= step)%Z ->
  in_f <> 0 ->
  (forall l, layer_ids = Some l ->
     Forall (fun i => i < Z.to_nat ((max_neurons - min_neurons) / step + 1)
                          * length acts * Z.to_nat R) l) ->
  exists h o a e e' g',
    build_model_ids R acts min_neurons max_neurons step = Ok (h, o, a)
    /\ ParallelMLPs_init in_f out_f h o a acts hw hb W b = Ok e
    /\ reset_parameters kaiming_uniform_ uniform_ e g layer_ids = Ok (e', g')
    /\ ParallelMLPs_init in_f out_f h o a acts
         (hidden_layer_weight e') (hidden_layer_bias e') (weight e') (bias e')
       = Ok e'.
Proof.
  intros HR Hne Hnd Hmin Hmm Hstep Hin Hids.
  pose proof (arange_neuron_sequence Hmm Hstep) as Har.
  pose proof (neuron_count_pos Hmm Hstep) as HS0.
  set (S := Z.to_nat ((max_neurons - min_neurons) / step + 1)) in *.
  set (ns := neuron_sequence min_neurons step S) in *.
  assert (HS : length ns = S) by apply neuron_sequence_length.
  pose proof (@build_model_ids_Ok A R _ _ _ _ _ Hne Hnd Har) as Hb. cbv zeta in Hb.
  rewrite HS in Hb.
  set (M := S * length acts * Z.to_nat R) in *.
  set (h := layout (width ns) M) in *.
  destruct (@ParallelMLPs_init_Ok A in_f out_f h (groupby_keys h)
              (list_times (firstn (length acts * S) (groupby_keys h)) R)
              acts hw hb W b Hne) as [e He].
  assert (Hpos : forall k, 1 <= width ns k)
    by (intros k; apply width_pos; [exact HS0 | lia | lia]).
  pose proof (@built_init A _ _ _ _ _ _ _ _ _ _ e He) as Hbuilt.
  assert (Hall : Forall (fun i => i < M)
                   (match layer_ids with
                    | None => unique_model_ids e
                    | Some l => l
                    end)).
  { destruct layer_ids as [l|]; [now apply Hids|].
    assert (HM : 0 < M).
    { assert (length acts <> 0) by (destruct acts; [congruence | discriminate]).
      subst M. apply Nat.mul_pos_pos; [apply Nat.mul_pos_pos|]; lia. }
    destruct (@laid_out_offsets A (width ns) M Hpos in_f out_f _ _
                acts hw hb W b e He 0 HM) as (_ & _ & _ & Hu & _).
    rewrite Hu. apply Forall_forall. intros i Hi. apply in_seq in Hi. lia. }
  destruct (@reset_loop_laid_out A rng kaiming_uniform_ uniform_ (width ns) M
              in_f out_f _ _ acts _ Hpos Hin Hall e g Hbuilt)
    as (e' & g' & Hloop & He').
  exists h, (groupby_keys h),
    (list_times (firstn (length acts * S) (groupby_keys h)) R), e, e', g'.
  split; [exact Hb|]. split; [exact He|]. split; [exact Hloop | exact He'].
Qed.

Lemma reset_parameters_returns_witness :
  exists h o a e e' g',
    build_model_ids 3 test_acts 1 3 1 = Ok (h, o, a)
    /\ ParallelMLPs_init 3 2 h o a test_acts test_hw test_hb test_W test_b = Ok e
    /\ reset_parameters test_kaiming test_uniform e 7 None = Ok (e', g')
    /\ ParallelMLPs_init 3 2 h o a test_acts
         (hidden_layer_weight e') (hidden_layer_bias e') (weight e') (bias e')
       = Ok e'.
Proof.
  apply (@reset_parameters_returns Z nat test_kaiming test_uniform 3 test_acts 1 3 1
           3 2 test_hw test_hb test_W test_b 7 None);
    [lia | discriminate | exact NoDup_test_acts | lia | lia | lia | discriminate
    | intros l H; discriminate H].
Defined.

Lemma reset_loop_built (A rng : Type)
  (kaiming_uniform_ : rng -> nat -> nat -> (nat -> nat -> A) * rng)
  (uniform_ : rng -> nat -> nat -> (nat -> A) * rng)
  (in_f out_f : nat) (h out_ids arch_ids : list nat) (acts : list (Activation A))
  (layer_ids : list nat) (e e' : ParallelMLPs A) (g g' : rng) :
  ParallelMLPs_init in_f out_f h out_ids arch_ids acts
    (hidden_layer_weight e) (hidden_layer_bias e) (weight e) (bias e) = Ok e ->
  reset_loop kaiming_uniform_ uniform_ e g layer_ids = Ok (e', g') ->
  ParallelMLPs_init in_f out_f h out_ids arch_ids acts
    (hidden_layer_weight e') (hidden_layer_bias e') (weight e') (bias e') = Ok e'.
Proof.
  revert e g. induction layer_ids as [|l rest IH]; intros e g He Hloop.
  - simpl in Hloop. injection Hloop as <- _. exact He.
  - cbn [reset_loop] in Hloop.
    destruct (reset_layer kaiming_uniform_ uniform_ e g l) as [[e1 g1]|] eqn:Hl;
      [|discriminate].
    cbn [bind] in Hloop.
    apply (IH e1 g1); [|exact Hloop].
    exact (@reset_layer_built A rng kaiming_uniform_ uniform_ _ _ _ _ _ _
             e e1 g g1 l He Hl).
Qed.

(** The offsets of an engine are prefix sums of the counts of its ids. *)
Lemma init_offsets (A : Type) (in_f out_f : nat) (h out_ids arch_ids : list nat)
  (acts : list (Activation A)) (hw : nat -> nat -> A) (hb : nat -> A)
  (W b : nat -> nat -> A) (e : ParallelMLPs A) :
  ParallelMLPs_init in_f out_f h out_ids arch_ids acts hw hb W b = Ok e ->
  forall m s t,
    nth_error (model_id__start_idx e) m = Some s ->
    nth_error (model_id__end_idx e) m = Some t ->
    s = list_sum (firstn m (bincount h))
    /\ t = list_sum (firstn (S m) (bincount h)).
Proof.
  intros He. unfold ParallelMLPs_init in He.
  destruct (length acts =? 0); [discriminate|].
  injection He as <-. cbn [model_id__start_idx model_id__end_idx].
  intros m s t Hms Hmt.
  destruct (@end_idx_nth _ _ _ Hmt) as [Hm ->].
  split; [|reflexivity]. now apply start_idx_nth.
Qed.

(** [reset_parameters] followed by [extract_mlp]. For a configuration
    with [R >= 1], distinct activations, [1 <= min <= max] and
    [step >= 1], a model [m < M] and a list of ids that does not hold
    [m]: when [reset_parameters(layer_ids)] returns, [extract_mlp(m)]
    returns before and after the call, and the two networks have the
    same sizes, the same activation and, entry by entry, the same
    parameters: redrawing other models leaves the network of [m] as it
    was. *)
Theorem reset_then_extract_untouched (A rng : Type)
  (kaiming_uniform_ : rng -> nat -> nat -> (nat -> nat -> A) * rng)
  (uniform_ : rng -> nat -> nat -> (nat -> A) * rng)
  (R : Z) (acts : list (Activation A)) (min_neurons max_neurons step : Z)
  (in_f out_f : nat) (hw : nat -> nat -> A) (hb : nat -> A) (W b : nat -> nat -> A)
  (g : rng) (layer_ids : list nat) (m : nat) :
  (1 <= R)%Z -> acts <> [] -> NoDup (map (@class_name A) acts) ->
  (1 <= min_neurons)%Z -> (min_neurons <= max_neurons)%Z -> (1 <= step)%Z ->
  m < Z.to_nat ((max_neurons - min_neurons) / step + 1) * length acts * Z.to_nat R ->
  ~ In m layer_ids ->
  exists h o a e,
    build_model_ids R acts min_neurons max_neurons step = Ok (h, o, a)
    /\ ParallelMLPs_init in_f out_f h o a acts hw hb W b = Ok e
    /\ forall e' g',
         reset_parameters kaiming_uniform_ uniform_ e g (Some layer_ids) = Ok (e', g') ->
         exists net net',
           extract_mlp e m = Ok net
           /\ extract_mlp e' m = Ok net'
           /\ seq_in_features net' = seq_in_features net
           /\ seq_hidden_features net' = seq_hidden_features net
           /\ seq_out_features net' = seq_out_features net
           /\ seq_activation net' = seq_activation net
           /\ (forall k, k < seq_hidden_features net ->
                 (forall i, seq_hidden_weight net' k i = seq_hidden_weight net k i)
                 /\ seq_hidden_bias net' k = seq_hidden_bias net k
                 /\ (forall o, seq_out_weight net' o k = seq_out_weight net o k))
           /\ (forall o, seq_out_bias net' o = seq_out_bias net o).
Proof.
  intros HR Hne Hnd Hmin Hmm Hstep Hm Hnot.
  pose proof (arange_neuron_sequence Hmm Hstep) as Har.
  pose proof (neuron_count_pos Hmm Hstep) as HS0.
  set (S := Z.to_nat ((max_neurons - min_neurons) / step + 1)) in *.
  set (ns := neuron_sequence min_neurons step S) in *.
  assert (HS : length ns = S) by apply neuron_sequence_length.
  pose proof (@build_model_ids_Ok A R _ _ _ _ _ Hne Hnd Har) as Hb. cbv zeta in Hb.
  rewrite HS in Hb.
  set (M := S * length acts * Z.to_nat R) in *.
  set (h := layout (width ns) M) in *.
  set (o := groupby_keys h) in *.
  set (a := list_times (firstn (length acts * S) o) R) in *.
  destruct (@ParallelMLPs_init_Ok A in_f out_f h o a acts hw hb W b Hne) as [e He].
  exists h, o, a, e. split; [exact Hb|]. split; [exact He|].
  intros e' g' Hreset. unfold reset_parameters in Hreset.
  assert (Hper : forall k, width ns (k + S) = width ns k)
    by (intros k; rewrite <- HS; apply width_periodic).
  assert (Hpos : forall k, 1 <= width ns k)
    by (intros k; apply width_pos; [exact HS0 | lia | lia]).
  assert (HK : length acts <> 0)
    by (destruct acts; [congruence | discriminate]).
  assert (HRn : Z.to_nat R <> 0) by lia.
  pose proof (@built_init A _ _ _ _ _ _ _ _ _ _ e He) as Hbuilt.
  pose proof (@reset_loop_built A rng kaiming_uniform_ uniform_ _ _ _ _ _ _
                layer_ids e e' g g' Hbuilt Hreset) as He'.
  destruct (@laid_out_offsets A (width ns) M Hpos in_f out_f _ _ acts hw hb W b e He m Hm)
    as (Hst & Hen & Hneur & _ & _).
  destruct (@laid_out_offsets A (width ns) M Hpos in_f out_f _ _ acts _ _ _ _ e' He' m Hm)
    as (_ & _ & Hneur' & _ & _).
  destruct (@reset_loop_frame A rng kaiming_uniform_ uniform_ (bincount h) layer_ids
              e e' g g' m _ _
              (@init_offsets A _ _ _ _ _ _ _ _ _ _ e He) Hreset Hnot Hst Hen)
    as [Hrows Hbias].
  destruct (@laid_out_extract A (hb 0) (fun x _ => x) (fun x _ => x)
              (width ns) S (length acts) (Z.to_nat R)
              Hper Hpos HS0 HK HRn in_f out_f _ _ acts eq_refl hw hb W b e He
              (mkTensor2 0 in_f (fun _ _ => hb 0)) m eq_refl Hm)
    as (net & act & _ & Hnet & Hact & Hsa & _).
  destruct (@laid_out_extract A (hb 0) (fun x _ => x) (fun x _ => x)
              (width ns) S (length acts) (Z.to_nat R)
              Hper Hpos HS0 HK HRn in_f out_f _ _ acts eq_refl _ _ _ _ e' He'
              (mkTensor2 0 in_f (fun _ _ => hb 0)) m eq_refl Hm)
    as (net' & act' & _ & Hnet' & Hact' & Hsa' & _).
  destruct (extract_mlp_fields _ _ Hnet) as (_ & F1 & F2 & F3 & F4 & F5 & F6 & F7).
  destruct (extract_mlp_fields _ _ Hnet')
    as (_ & F1' & F2' & F3' & F4' & F5' & F6' & F7').
  destruct (@init_fields A _ _ _ _ _ _ _ _ _ _ e He) as (_ & Hin & Hout & _).
  destruct (@init_fields A _ _ _ _ _ _ _ _ _ _ e' He') as (_ & Hin' & Hout' & _).
  exists net, net'. split; [exact Hnet|]. split; [exact Hnet'|].
  split; [congruence|]. split; [congruence|]. split; [congruence|].
  split; [congruence|]. split.
  - intros k Hk. rewrite F2, Hneur, length_seq in Hk.
    assert (Hnth : nth k (model_neurons e m) 0 = start_of (width ns) m + k)
      by (rewrite Hneur; now apply seq_nth).
    assert (Hnth' : nth k (model_neurons e' m) 0 = start_of (width ns) m + k)
      by (rewrite Hneur'; now apply seq_nth).
    destruct (Hrows (start_of (width ns) m + k) ltac:(lia)) as (Rw & Rb & RW).
    split; [|split].
    + intros i. now rewrite F4', F4, Hnth, Hnth', Rw.
    + now rewrite F5', F5, Hnth, Hnth', Rb.
    + intros o'. now rewrite F6', F6, Hnth, Hnth', RW.
  - intros o'. now rewrite F7', F7, Hbias.
Qed.

Lemma reset_then_extract_untouched_witness :
  exists h o a e,
    build_model_ids 3 test_acts 1 3 1 = Ok (h, o, a)
    /\ ParallelMLPs_init 3 2 h o a test_acts test_hw test_hb test_W test_b = Ok e
    /\ forall e' g',
         reset_parameters test_kaiming test_uniform e 0 (Some [1; 4]) = Ok (e', g') ->
         exists net net',
           extract_mlp e 2 = Ok net
           /\ extract_mlp e' 2 = Ok net'
           /\ seq_activation net' = seq_activation net
           /\ (forall o, seq_out_bias net' o = seq_out_bias net o).
Proof.
  destruct (@reset_then_extract_untouched Z nat test_kaiming test_uniform 3 test_acts
              1 3 1 3 2 test_hw test_hb test_W test_b 0 [1; 4] 2)
    as (h & o & a & e & H1 & H2 & H3);
    [lia | discriminate | exact NoDup_test_acts | lia | lia | lia
    | vm_compute; lia | simpl; intros [H|[H|[]]]; discriminate |].
  exists h, o, a, e. split; [exact H1|]. split; [exact H2|].
  intros e' g' Hr.
  destruct (H3 e' g' Hr) as (net & net' & E1 & E2 & _ & _ & _ & E3 & _ & E4).
  exists net, net'. split; [exact E1|]. split; [exact E2|].
  split; [exact E3 | exact E4].
Defined.

(** ** Ids [reset_parameters] refuses *)

Lemma reset_layer_out_of_range (A rng : Type)
  (kaiming_uniform_ : rng -> nat -> nat -> (nat -> nat -> A) * rng)
  (uniform_ : rng -> nat -> nat -> (nat -> A) * rng)
  (e : ParallelMLPs A) (g : rng) (l : nat) :
  num_unique_models e <= l ->
  reset_layer kaiming_uniform_ uniform_ e g l = Raise IndexError.
Proof.
  intros Hl. unfold reset_layer.
  destruct (nth_error (model_id__start_idx e) l),
           (nth_error (model_id__end_idx e) l); try reflexivity.
  replace (num_unique_models e <=? l) with true by (symmetry; now apply Nat.leb_le).
  reflexivity.
Qed.

Lemma reset_layer_no_input (A rng : Type)
  (kaiming_uniform_ : rng -> nat -> nat -> (nat -> nat -> A) * rng)
  (uniform_ : rng -> nat -> nat -> (nat -> A) * rng)
  (e : ParallelMLPs A) (g : rng) (l start stop : nat) :
  nth_error (model_id__start_idx e) l = Some start ->
  nth_error (model_id__end_idx e) l = Some stop ->
  l < num_unique_models e -> in_features e = 0 ->
  reset_layer kaiming_uniform_ uniform_ e g l = Raise ZeroDivisionError.
Proof.
  intros Hs Ht Hl Hin. unfold reset_layer. rewrite Hs, Ht, Hin.
  replace (num_unique_models e <=? l) with false by (symmetry; apply Nat.leb_gt; lia).
  reflexivity.
Qed.

Lemma reset_loop_out_of_range (A rng : Type)
  (kaiming_uniform_ : rng -> nat -> nat -> (nat -> nat -> A) * rng)
  (uniform_ : rng -> nat -> nat -> (nat -> A) * rng)
  (w : nat -> nat) (M in_f out_f : nat) (out_ids arch_ids : list nat)
  (acts : list (Activation A)) (layer_ids : list nat) :
  (forall m, 1 <= w m) -> in_f <> 0 ->
  Exists (fun l => M <= l) layer_ids ->
  forall (e : ParallelMLPs A) (g : rng),
    ParallelMLPs_init in_f out_f (layout w M) out_ids arch_ids acts
      (hidden_layer_weight e) (hidden_layer_bias e) (weight e) (bias e) = Ok e ->
    reset_loop kaiming_uniform_ uniform_ e g layer_ids = Raise IndexError.
Proof.
  intros Hpos Hin. induction layer_ids as [|l rest IH]; intros Hex e g He.
  - inversion Hex.
  - cbn [reset_loop].
    destruct (Nat.lt_ge_cases l M) as [Hl|Hl].
    + destruct (@reset_loop_laid_out A rng kaiming_uniform_ uniform_ w M in_f out_f
                  out_ids arch_ids acts [l] Hpos Hin
                  ltac:(constructor; [exact Hl | constructor]) e g He)
        as (e1 & g1 & H1 & He1).
      cbn [reset_loop] in H1.
      destruct (reset_layer kaiming_uniform_ uniform_ e g l) as [[e2 g2]|];
        [|discriminate].
      cbn [bind] in H1. injection H1 as -> ->. cbn [bind].
      apply IH; [|exact He1].
      inversion Hex as [? ? Hh|? ? Ht]; subst; [lia | exact Ht].
    + rewrite reset_layer_out_of_range; [reflexivity|].
      destruct (Nat.eq_dec M 0) as [->|HM].
      * unfold ParallelMLPs_init in He.
        destruct (length acts =? 0); [discriminate|].
        injection He as He0. rewrite <- He0. cbn. lia.
      * destruct (@laid_out_offsets A w M Hpos in_f out_f _ _ acts _ _ _ _ e He 0
                    ltac:(lia)) as (_ & _ & _ & _ & Hnum).
        lia.
Qed.

(** Ids [reset_parameters] refuses. For a configuration with [R >= 1],
    distinct activations, [1 <= min <= max] and [step >= 1]: with at
    least one input feature, a list of ids that holds an id [>= M] makes
    [reset_parameters] raise [IndexError] (after the ids before it were
    redrawn, which the exception does not undo in Python); with no input
    feature, [reset_parameters] on all the models raises
    [ZeroDivisionError], the bound [1 / sqrt(fan_in)] of the first
    hidden slice. *)
Theorem reset_parameters_rejects (A rng : Type)
  (kaiming_uniform_ : rng -> nat -> nat -> (nat -> nat -> A) * rng)
  (uniform_ : rng -> nat -> nat -> (nat -> A) * rng)
  (R : Z) (acts : list (Activation A)) (min_neurons max_neurons step : Z)
  (in_f out_f : nat) (hw : nat -> nat -> A) (hb : nat -> A) (W b : nat -> nat -> A)
  (g : rng) (layer_ids : list nat) :
  (1 <= R)%Z -> acts <> [] -> NoDup (map (@class_name A) acts) ->
  (1 <= min_neurons)%Z -> (min_neurons <= max_neurons)%Z -> (1 <= step)%Z ->
  exists h o a e,
    build_model_ids R acts min_neurons max_neurons step = Ok (h, o, a)
    /\ ParallelMLPs_init in_f out_f h o a acts hw hb W b = Ok e
    /\ (in_f <> 0 ->
        Exists (fun i => Z.to_nat ((max_neurons - min_neurons) / step + 1)
                         * length acts * Z.to_nat R <= i) layer_ids ->
        reset_parameters kaiming_uniform_ uniform_ e g (Some layer_ids)
        = Raise IndexError)
    /\ (in_f = 0 ->
        reset_parameters kaiming_uniform_ uniform_ e g None
        = Raise ZeroDivisionError).
Proof.
  intros HR Hne Hnd Hmin Hmm Hstep.
  pose proof (arange_neuron_sequence Hmm Hstep) as Har.
  pose proof (neuron_count_pos Hmm Hstep) as HS0.
  set (S := Z.to_nat ((max_neurons - min_neurons) / step + 1)) in *.
  set (ns := neuron_sequence min_neurons step S) in *.
  assert (HS : length ns = S) by apply neuron_sequence_length.
  pose proof (@build_model_ids_Ok A R _ _ _ _ _ Hne Hnd Har) as Hb. cbv zeta in Hb.
  rewrite HS in Hb.
  set (M := S * length acts * Z.to_nat R) in *.
  set (h := layout (width ns) M) in *.
  set (o := groupby_keys h) in *.
  set (a := list_times (firstn (length acts * S) o) R) in *.
  destruct (@ParallelMLPs_init_Ok A in_f out_f h o a acts hw hb W b Hne) as [e He].
  assert (Hpos : forall k, 1 <= width ns k)
    by (intros k; apply width_pos; [exact HS0 | lia | lia]).
  pose proof (@built_init A _ _ _ _ _ _ _ _ _ _ e He) as Hbuilt.
  exists h, o, a, e. split; [exact Hb|]. split; [exact He|]. split.
  - intros Hin Hex. unfold reset_parameters.
    exact (@reset_loop_out_of_range A rng kaiming_uniform_ uniform_ (width ns) M
             in_f out_f o a acts layer_ids Hpos Hin Hex e g Hbuilt).
  - intros Hin. unfold reset_parameters.
    assert (HM : 0 < M).
    { assert (length acts <> 0) by (destruct acts; [congruence | discriminate]).
      subst M. apply Nat.mul_pos_pos; [apply Nat.mul_pos_pos|]; lia. }
    destruct (@laid_out_offsets A (width ns) M Hpos in_f out_f _ _
                acts hw hb W b e He 0 HM) as (Hs & Ht & _ & Hu & Hnum).
    destruct (@init_fields A _ _ _ _ _ _ _ _ _ _ e He) as (_ & Hinf & _).
    rewrite Hu. destruct M as [|M']; [lia|].
    cbn [seq reset_loop].
    rewrite (@reset_layer_no_input A rng kaiming_uniform_ uniform_ e g 0 _ _ Hs Ht);
      [reflexivity | lia | congruence].
Qed.

Lemma reset_parameters_rejects_witness :
  exists h o a e,
    build_model_ids 3 test_acts 1 3 1 = Ok (h, o, a)
    /\ ParallelMLPs_init 3 2 h o a test_acts test_hw test_hb test_W test_b = Ok e
    /\ reset_parameters test_kaiming test_uniform e 0 (Some [1; 18]) = Raise IndexError.
Proof.
  destruct (@reset_parameters_rejects Z nat test_kaiming test_uniform 3 test_acts
              1 3 1 3 2 test_hw test_hb test_W test_b 0 [1; 18])
    as (h & o & a & e & H1 & H2 & H3 & _);
    [lia | discriminate | exact NoDup_test_acts | lia | lia | lia |].
  exists h, o, a, e. split; [exact H1|]. split; [exact H2|].
  apply H3; [discriminate|].
  apply Exists_cons_tl, Exists_cons_hd. vm_compute. lia.
Defined.

(** ** Ids with a gap *)

Lemma list_max_In (l : list nat) : l <> [] -> In (list_max l) l.
Proof.
  induction l as [|x l IH]; [congruence|]. intros _.
  destruct l as [|y l'].
  - left. cbn. lia.
  - change (list_max (x :: y :: l')) with (Nat.max x (list_max (y :: l'))).
    destruct (Nat.max_spec x (list_max (y :: l'))) as [[_ ->]|[_ ->]].
    + right. apply IH. discriminate.
    + now left.
Qed.

Lemma sorted_set_In (l : list nat) (i : nat) : In i (sorted_set l) <-> In i l.
Proof.
  unfold sorted_set. rewrite filter_In, in_seq, existsb_exists. split.
  - intros (_ & x & Hx & E). apply Nat.eqb_eq in E. now subst x.
  - intros Hi. split.
    + pose proof (proj1 (list_max_le l _) (Nat.le_refl _)) as HF.
      rewrite Forall_forall in HF. specialize (HF i Hi). lia.
    + exists i. split; [exact Hi | apply Nat.eqb_refl].
Qed.

(** A list of ids that skips a value has fewer distinct ids than its
    largest id plus one. *)
Lemma sorted_set_gap (l : list nat) (i k : nat) :
  In i l -> ~ In k l -> k < i -> length (sorted_set l) <= list_max l.
Proof.
  intros Hi Hk Hlt. unfold sorted_set.
  set (f := fun m => existsb (Nat.eqb m) l).
  pose proof (filter_length f (seq 0 (S (list_max l)))) as Hlen.
  rewrite length_seq in Hlen.
  assert (Hin : In k (filter (fun x => negb (f x)) (seq 0 (S (list_max l))))).
  { apply filter_In. split.
    - apply in_seq.
      pose proof (proj1 (list_max_le l _) (Nat.le_refl _)) as HF.
      rewrite Forall_forall in HF. specialize (HF i Hi). lia.
    - unfold f. destruct (existsb (Nat.eqb k) l) eqn:E; [|reflexivity].
      apply existsb_exists in E. destruct E as (x & Hx & E).
      apply Nat.eqb_eq in E. subst x. contradiction. }
  destruct (filter (fun x => negb (f x)) (seq 0 (S (list_max l)))) as [|y t];
    [contradiction|].
  cbn [length] in Hlen. lia.
Qed.

Lemma reset_layer_num_unique (A rng : Type)
  (kaiming_uniform_ : rng -> nat -> nat -> (nat -> nat -> A) * rng)
  (uniform_ : rng -> nat -> nat -> (nat -> A) * rng)
  (e e1 : ParallelMLPs A) (g g1 : rng) (l : nat) :
  reset_layer kaiming_uniform_ uniform_ e g l = Ok (e1, g1) ->
  num_unique_models e1 = num_unique_models e.
Proof.
  unfold reset_layer.
  destruct (nth_error (model_id__start_idx e) l) as [sl|]; [|discriminate].
  destruct (nth_error (model_id__end_idx e) l) as [tl|]; [|discriminate].
  destruct (num_unique_models e <=? l); [discriminate|].
  destruct (in_features e =? 0); [discriminate|].
  destruct (kaiming_uniform_ g (tl - sl) (in_features e)) as [w1 g2].
  destruct (uniform_ g2 (in_features e) (tl - sl)) as [b1 g3].
  destruct (tl - sl =? 0); [discriminate|].
  destruct (kaiming_uniform_ g3 (out_features e) (tl - sl)) as [w2 g4].
  destruct (uniform_ g4 (tl - sl) (out_features e)) as [b2 g5].
  intros H. injection H as <- _. reflexivity.
Qed.

Lemma reset_layer_exn (A rng : Type)
  (kaiming_uniform_ : rng -> nat -> nat -> (nat -> nat -> A) * rng)
  (uniform_ : rng -> nat -> nat -> (nat -> A) * rng)
  (e : ParallelMLPs A) (g : rng) (l : nat) (ex : exn) :
  reset_layer kaiming_uniform_ uniform_ e g l = Raise ex ->
  ex = IndexError \/ ex = ZeroDivisionError.
Proof.
  unfold reset_layer.
  destruct (nth_error (model_id__start_idx e) l) as [sl|];
    [|intros H; injection H as <-; now left].
  destruct (nth_error (model_id__end_idx e) l) as [tl|];
    [|intros H; injection H as <-; now left].
  destruct (num_unique_models e <=? l); [intros H; injection H as <-; now left|].
  destruct (in_features e =? 0); [intros H; injection H as <-; now right|].
  destruct (kaiming_uniform_ g (tl - sl) (in_features e)) as [w1 g2].
  destruct (uniform_ g2 (in_features e) (tl - sl)) as [b1 g3].
  destruct (tl - sl =? 0); [intros H; injection H as <-; now right|].
  destruct (kaiming_uniform_ g3 (out_features e) (tl - sl)) as [w2 g4].
  destruct (uniform_ g4 (tl - sl) (out_features e)) as [b2 g5].
  discriminate.
Qed.

Lemma reset_loop_refused (A rng : Type)
  (kaiming_uniform_ : rng -> nat -> nat -> (nat -> nat -> A) * rng)
  (uniform_ : rng -> nat -> nat -> (nat -> A) * rng)
  (layer_ids : list nat) (i : nat) :
  In i layer_ids ->
  forall (e : ParallelMLPs A) (g : rng),
    num_unique_models e <= i ->
    exists ex,
      reset_loop kaiming_uniform_ uniform_ e g layer_ids = Raise ex
      /\ (ex = IndexError \/ ex = ZeroDivisionError).
Proof.
  induction layer_ids as [|l rest IH]; intros Hi e g Hnum; [destruct Hi|].
  cbn [reset_loop].
  destruct (reset_layer kaiming_uniform_ uniform_ e g l) as [[e1 g1]|ex] eqn:Hl.
  - cbn [bind]. destruct Hi as [->|Hi].
    + rewrite reset_layer_out_of_range in Hl by exact Hnum. discriminate.
    + apply IH; [exact Hi|].
      rewrite (reset_layer_num_unique _ _ _ _ _ Hl). exact Hnum.
  - cbn [bind]. exists ex. split; [reflexivity|].
    exact (reset_layer_exn _ _ _ _ _ Hl).
Qed.

(** Ids with a gap. [ParallelMLPs] takes the list of ids as an argument;
    when the list skips a value (some [k] is absent and a larger id is
    present) the engine has fewer models than its largest id, and then:
    [reset_parameters()], which [__init__] calls, raises [IndexError] or
    [ZeroDivisionError]; [forward] returns on no batch that has a row,
    when there is an output feature; and [extract_mlp] refuses the
    largest id with its [ValueError]. *)
Theorem ids_with_gap_refused (A rng : Type) (zero : A) (add mul : A -> A -> A)
  (kaiming_uniform_ : rng -> nat -> nat -> (nat -> nat -> A) * rng)
  (uniform_ : rng -> nat -> nat -> (nat -> A) * rng)
  (in_f out_f : nat) (h out_ids arch_ids : list nat) (acts : list (Activation A))
  (hw : nat -> nat -> A) (hb : nat -> A) (W b : nat -> nat -> A)
  (e : ParallelMLPs A) (g : rng) (k i : nat) :
  ParallelMLPs_init in_f out_f h out_ids arch_ids acts hw hb W b = Ok e ->
  In i h -> ~ In k h -> k < i ->
  (exists ex,
     reset_parameters kaiming_uniform_ uniform_ e g None = Raise ex
     /\ (ex = IndexError \/ ex = ZeroDivisionError))
  /\ (forall x t, rows x <> 0 -> out_f <> 0 -> forward zero add mul e x <> Ok t)
  /\ extract_mlp e (list_max h) = Raise (ValueError msg_extract).
Proof.
  intros He Hi Hk Hlt.
  pose proof (sorted_set_gap h Hi Hk Hlt) as Hgap.
  assert (Hmax : In (list_max h) h)
    by (apply list_max_In; intros E; rewrite E in Hi; destruct Hi).
  destruct (@init_fields A _ _ _ _ _ _ _ _ _ _ e He) as (_ & _ & Hout & _ & Hh & _).
  assert (Hnum : num_unique_models e = length (sorted_set h)
                 /\ unique_model_ids e = sorted_set h).
  { unfold ParallelMLPs_init in He.
    destruct (length acts =? 0); [discriminate|].
    injection He as <-. split; reflexivity. }
  destruct Hnum as [Hnum Hu].
  split; [|split].
  - unfold reset_parameters. rewrite Hu.
    apply (@reset_loop_refused A rng kaiming_uniform_ uniform_ _ (list_max h)).
    + now apply sorted_set_In.
    + lia.
  - intros x t Hrows Hof. unfold forward.
    destruct (hidden_layer zero add mul e x) as [x1|]; [|discriminate].
    cbn [bind].
    destruct (apply_activations zero e x1) as [x2|]; [|discriminate].
    cbn [bind].
    destruct (mul_weight mul e x2) as [x3|]; [|discriminate].
    cbn [bind]. unfold scatter_add_zeros.
    destruct (negb (length (hidden_neuron__model_id e) <=? dim1 x3));
      [discriminate|].
    replace (rows x =? 0) with false by (symmetry; now apply Nat.eqb_neq).
    replace (out_features e =? 0) with false
      by (symmetry; apply Nat.eqb_neq; congruence).
    destruct (forallb (fun m => m <? num_unique_models e)
                (hidden_neuron__model_id e)) eqn:Hall; [|discriminate].
    exfalso. rewrite forallb_forall in Hall. rewrite Hh in Hall.
    specialize (Hall _ Hmax). apply Nat.ltb_lt in Hall. lia.
  - unfold extract_mlp.
    replace (num_unique_models e <=? list_max h) with true
      by (symmetry; apply Nat.leb_le; lia).
    reflexivity.
Qed.

Lemma ids_with_gap_refused_witness :
  exists e,
    ParallelMLPs_init 3 2 [0; 2; 2] [0; 2] [0; 2] test_acts
      test_hw test_hb test_W test_b = Ok e
    /\ (exists ex, reset_parameters test_kaiming test_uniform e 0 None = Raise ex)
    /\ (forall t, forward 0%Z Z.add Z.mul e test_X <> Ok t)
    /\ extract_mlp e 2 = Raise (ValueError msg_extract).
Proof.
  destruct (@ParallelMLPs_init_Ok Z 3 2 [0; 2; 2] [0; 2] [0; 2] test_acts
              test_hw test_hb test_W test_b) as [e He]; [discriminate|].
  exists e. split; [exact He|].
  destruct (@ids_with_gap_refused Z nat 0%Z Z.add Z.mul test_kaiming test_uniform
              3 2 [0; 2; 2] [0; 2] [0; 2] test_acts test_hw test_hb test_W test_b
              e 0 1 2 He)
    as ((ex & Hex & _) & Hfw & Hext).
  - right. now left.
  - intros [H|[H|[H|[]]]]; discriminate H.
  - lia.
  - split; [exists ex; exact Hex|]. split; [|exact Hext].
    intros t. apply Hfw; discriminate.
Defined.

(** ** What [update] counts *)

Lemma filter_flat_map_length {T U : Type} (P : U -> bool) (F : T -> list U)
  (l : list T) :
  length (filter P (flat_map F l))
  = list_sum (map (fun i => length (filter P (F i))) l).
Proof.
  induction l as [|x l IH]; [reflexivity|].
  cbn [flat_map map list_sum fold_right].
  change (fold_right Nat.add 0 ?l) with (list_sum l).
  now rewrite filter_app, length_app, IH.
Qed.

Lemma filter_length_sum {T : Type} (Q : T -> bool) (l : list T) :
  length (filter Q l) = list_sum (map (fun i => if Q i then 1 else 0) l).
Proof.
  induction l as [|x l IH]; [reflexivity|].
  cbn [filter map list_sum fold_right].
  change (fold_right Nat.add 0 ?l) with (list_sum l).
  destruct (Q x); cbn [length]; lia.
Qed.

Lemma filter_single {U : Type} (P : U -> bool) (f : nat -> U) (n m : nat) :
  m < n -> (forall j, j < n -> j <> m -> P (f j) = false) ->
  length (filter P (map f (seq 0 n))) = if P (f m) then 1 else 0.
Proof.
  induction n as [|n IH]; intros Hm H; [lia|].
  rewrite seq_S, map_app, filter_app, length_app. cbn [map filter Nat.add].
  destruct (Nat.eq_dec m n) as [->|Hne].
  - assert (H0 : length (filter P (map f (seq 0 n))) = 0).
    { rewrite filter_length_sum, map_map.
      rewrite (map_ext_in _ (fun _ => 0)).
      - clear. generalize 0 at 2. induction n as [|n IH]; intros a; [reflexivity|].
        cbn [seq map list_sum fold_right].
        change (fold_right Nat.add 0 ?l) with (list_sum l). now rewrite IH.
      - intros j Hj. apply in_seq in Hj. rewrite H by lia. reflexivity. }
    rewrite H0. destruct (P (f n)); reflexivity.
  - rewrite IH by (try lia; intros j Hj Hjm; apply H; lia).
    rewrite (H n) by lia. cbn [length]. lia.
Qed.

(** In a batch for [nm] models, cell [(m, t, p)] is addressed once per
    sample that falls into it. *)
Lemma count_cell_triples (nm ncls m t p : nat) (targets : list Z)
  (predictions : list (list Z)) :
  m < nm -> length predictions = length targets ->
  length (filter (addresses_cell nm ncls m t p)
            (index_triples (map Z.of_nat (seq 0 nm)) targets nm predictions
               (length targets) nm))
  = count_cell ncls targets predictions m t p.
Proof.
  intros Hm Hlen. unfold index_triples, count_cell.
  rewrite filter_flat_map_length, filter_length_sum. f_equal.
  apply map_ext_in. intros i Hi. apply in_seq in Hi.
  assert (Har : forall j, j < nm ->
            nth (bidx (length (map Z.of_nat (seq 0 nm))) j)
                (map Z.of_nat (seq 0 nm)) 0%Z = Z.of_nat j).
  { intros j Hj. rewrite length_map, length_seq, bidx_small by exact Hj.
    change 0%Z with (Z.of_nat 0). rewrite map_nth, seq_nth by exact Hj.
    reflexivity. }
  rewrite (@filter_single _ (addresses_cell nm ncls m t p) _ nm m Hm).
  - unfold addresses_cell, sample_in_cell. cbn [fst snd].
    rewrite (Har m Hm), norm_index_of_nat by exact Hm.
    rewrite Hlen, !bidx_small by lia. rewrite Nat.eqb_refl.
    destruct (norm_index ncls (nth i targets 0%Z)); [|reflexivity].
    destruct (norm_index ncls (nth m (nth i predictions []) 0%Z)); reflexivity.
  - intros j Hj Hjm. unfold addresses_cell. cbn [fst snd].
    rewrite (Har j Hj), norm_index_of_nat by exact Hj.
    replace (j =? m) with false by (symmetry; now apply Nat.eqb_neq).
    destruct (norm_index ncls _); [|reflexivity].
    destruct (norm_index ncls _); reflexivity.
Qed.

(** [accumulate] adds to every cell, in 32-bit arithmetic, the number of
    triples that address it. *)
Lemma accumulate_cells (nm ncls : nat) (triples : list (Z * Z * Z))
  (cm cm' : list (list (list Z))) :
  cm_shape cm nm ncls ->
  (forall m t p, wrap 32 (cm_at cm m t p) = cm_at cm m t p) ->
  accumulate nm ncls cm 1 triples = Ok cm' ->
  cm_shape cm' nm ncls
  /\ (forall m t p, wrap 32 (cm_at cm' m t p) = cm_at cm' m t p)
  /\ (forall m t p,
        eqm (2 ^ 32) (cm_at cm' m t p)
          (cm_at cm m t p
           + Z.of_nat (length (filter (addresses_cell nm ncls m t p) triples)))).
Proof.
  revert cm. induction triples as [|[[mz tz] pz] rest IH]; intros cm Hshape Hint Hacc.
  - simpl in Hacc. injection Hacc as <-.
    split; [exact Hshape|]. split; [exact Hint|].
    intros m t p. cbn [filter length]. rewrite Z.add_0_r. apply eqm_refl.
  - cbn [accumulate] in Hacc.
    destruct (norm_index nm mz) as [m0|] eqn:Em; [|discriminate].
    destruct (norm_index ncls tz) as [t0|] eqn:Et; [|discriminate].
    destruct (norm_index ncls pz) as [p0|] eqn:Ep; [|discriminate].
    pose proof (norm_index_lt _ _ Em) as Hm0.
    pose proof (norm_index_lt _ _ Et) as Ht0.
    pose proof (norm_index_lt _ _ Ep) as Hp0.
    destruct (IH (cm_add cm m0 t0 p0 1)) as (Hs' & Hint' & Hc').
    + now apply cm_add_shape.
    + intros m t p. rewrite (cm_at_cm_add _ _ _ _ Hshape Hm0 Ht0 Hp0).
      destruct ((m =? m0) && (t =? t0) && (p =? p0)); [|apply Hint].
      unfold add32. apply wrap_idem. lia.
    + exact Hacc.
    + split; [exact Hs'|]. split; [exact Hint'|].
      intros m t p. eapply eqm_trans; [apply Hc'|].
      rewrite (cm_at_cm_add _ _ _ _ Hshape Hm0 Ht0 Hp0).
      cbn [filter]. unfold addresses_cell at 2. cbn [fst snd].
      rewrite Em, Et, Ep.
      rewrite (Nat.eqb_sym m0 m), (Nat.eqb_sym t0 t), (Nat.eqb_sym p0 p).
      destruct ((m =? m0) && (t =? t0) && (p =? p0)) eqn:E.
      * apply andb_true_iff in E. destruct E as [E E3].
        apply andb_true_iff in E. destruct E as [E1 E2].
        apply Nat.eqb_eq in E1, E2, E3. subst m t p.
        cbn [length]. rewrite Nat2Z.inj_succ.
        replace (cm_at cm m0 t0 p0
                 + Z.succ (Z.of_nat (length (filter (addresses_cell nm ncls m0 t0 p0) rest))))%Z
          with ((cm_at cm m0 t0 p0 + 1)
                + Z.of_nat (length (filter (addresses_cell nm ncls m0 t0 p0) rest)))%Z
          by lia.
        apply Zplus_eqm; [|apply eqm_refl].
        unfold add32. apply wrap_eqm. lia.
      * apply eqm_refl.
Qed.

Lemma init_wf (nm ncls : nat) (dev : Device) :
  mcm_wf (MultiConfusionMatrix_init nm ncls dev).
Proof.
  destruct (init_inv nm ncls dev) as (Har & Hone & Hshape & _ & _).
  split; [reflexivity|]. split; [exact Har|]. split; [exact Hone|].
  split; [exact Hshape|].
  intros m t p. cbn [MultiConfusionMatrix_init cm]. now rewrite cm_at_zeros.
Qed.

(** What [update] counts. For an accumulator as [__init__] builds it and
    [update] keeps it, and a batch with one target per row of class
    indices [q] (the predictions themselves, or their [argmax] over the
    class scores) and one column per model: when [update] returns, the
    accumulator is again such a state, and cell [(t, p)] of model [m]
    has grown, in 32-bit arithmetic, by the number of samples whose
    target is [t] and whose prediction for [m] is [p]. A negative target
    or prediction [-k] is not refused: it counts for class
    [n_classes - k]. *)
Theorem update_counts_samples (score : Type) (score_ltb : score -> score -> bool)
  (self self' : MultiConfusionMatrix) (predictions : Predictions score)
  (q : ITensor2) (targets : ITensor1) :
  mcm_wf self ->
  argmax_last score_ltb predictions = Ok q ->
  update score_ltb self predictions targets = Ok self' ->
  length (it2_data q) = length (it1_data targets) ->
  it2_cols q = n_models self ->
  mcm_wf self'
  /\ n_models self' = n_models self
  /\ n_classes self' = n_classes self
  /\ forall m t p,
       m < n_models self ->
       cm_at (cm self') m t p
       = wrap 32 (cm_at (cm self) m t p
                  + Z.of_nat (count_cell (n_classes self) (it1_data targets)
                                (it2_data q) m t p)).
Proof.
  intros (Hdev & Har & Hone & Hshape & Hint) Hq Hup Hlen Hcols.
  unfold update in Hup. rewrite Hq in Hup. cbn [bind] in Hup.
  set (q' := if negb (device_eqb (it2_device q) (device self))
             then mkITensor2 (device self) (it2_cols q) (it2_data q) else q) in Hup.
  assert (Hq' : it2_cols q' = it2_cols q /\ it2_data q' = it2_data q)
    by (subst q'; now destruct (negb _)).
  destruct Hq' as [Hc' Hd'].
  destruct (index_put_accumulate self targets q') as [cm'|] eqn:Hidx; [|discriminate].
  cbn [bind] in Hup. injection Hup as <-.
  unfold index_put_accumulate, it1_to, it2_to in Hidx.
  cbn [it1_data it2_cols it2_data] in Hidx.
  rewrite Hd', Hlen, broadcast_dim_same in Hidx.
  rewrite Har, length_map, length_seq, Hc', Hcols, broadcast_dim_same in Hidx.
  rewrite Hone in Hidx.
  destruct (@accumulate_cells _ _ _ _ _ Hshape Hint Hidx) as (Hs' & Hint' & Hcells).
  cbn [n_models n_classes cm].
  split; [|split; [reflexivity|split; [reflexivity|]]].
  - unfold mcm_wf. cbn [n_models n_classes cm n_models_arange one device].
    split; [exact Hdev|]. split; [exact Har|]. split; [exact Hone|].
    split; [exact Hs' | exact Hint'].
  - intros m t p Hm. rewrite <- (Hint' m t p).
    rewrite (wrap_congr 32 (Hcells m t p)).
    rewrite count_cell_triples by (try exact Hm; exact Hlen).
    reflexivity.
Qed.

Lemma update_counts_samples_witness :
  exists self',
    update Z.ltb (MultiConfusionMatrix_init 2 3 cpu)
      (ClassIndices Z (mkITensor2 cpu 2 [[0; 2]; [-1; 1]]%Z))
      (mkITensor1 cpu [0; -1]%Z) = Ok self'
    /\ cm_at (cm self') 0 2 2 = 1%Z
    /\ cm_at (cm self') 1 0 2 = 1%Z.
Proof.
  eexists. split; [vm_compute; reflexivity|].
  destruct (@update_counts_samples Z Z.ltb (MultiConfusionMatrix_init 2 3 cpu) _
              (ClassIndices Z (mkITensor2 cpu 2 [[0; 2]; [-1; 1]]%Z))
              (mkITensor2 cpu 2 [[0; 2]; [-1; 1]]%Z)
              (mkITensor1 cpu [0; -1]%Z)
              (init_wf 2 3 cpu) eq_refl ltac:(vm_compute; reflexivity)
              eq_refl eq_refl)
    as (_ & _ & _ & H).
  split.
  - rewrite (H 0 2 2) by (simpl; lia). vm_compute. reflexivity.
  - rewrite (H 1 0 2) by (simpl; lia). vm_compute. reflexivity.
Defined.

(** ** The indices [update] accepts *)

Lemma norm_index_Some (size : nat) (z : Z) :
  index_ok size z -> exists i, norm_index size z = Some i.
Proof.
  unfold index_ok, norm_index. intros [H1 H2].
  replace ((- Z.of_nat size <=? z)%Z) with true by (symmetry; now apply Z.leb_le).
  replace ((z <? Z.of_nat size)%Z) with true by (symmetry; now apply Z.ltb_lt).
  cbn [andb]. eexists. reflexivity.
Qed.

Lemma norm_index_None (size : nat) (z : Z) :
  ~ index_ok size z -> norm_index size z = None.
Proof.
  unfold index_ok, norm_index. intros H.
  destruct ((- Z.of_nat size <=? z)%Z) eqn:E1; [|reflexivity].
  destruct ((z <? Z.of_nat size)%Z) eqn:E2; [|reflexivity].
  apply Z.leb_le in E1. apply Z.ltb_lt in E2. exfalso. apply H. lia.
Qed.

Lemma accumulate_returns (nm ncls : nat) (value : Z) (triples : list (Z * Z * Z))
  (cm : list (list (list Z))) :
  Forall (fun tr => index_ok nm (fst (fst tr))
                    /\ index_ok ncls (snd (fst tr))
                    /\ index_ok ncls (snd tr)) triples ->
  exists cm', accumulate nm ncls cm value triples = Ok cm'.
Proof.
  intros Hall. revert cm.
  induction Hall as [|[[mz tz] pz] rest (H1 & H2 & H3) Hrest IH]; intros cm.
  - eexists. reflexivity.
  - cbn [fst snd] in H1, H2, H3. cbn [accumulate].
    destruct (norm_index_Some H1) as [m0 ->].
    destruct (norm_index_Some H2) as [t0 ->].
    destruct (norm_index_Some H3) as [p0 ->].
    apply IH.
Qed.

Lemma accumulate_raises (nm ncls : nat) (value : Z) (triples : list (Z * Z * Z))
  (cm : list (list (list Z))) :
  Exists (fun tr => ~ (index_ok nm (fst (fst tr))
                       /\ index_ok ncls (snd (fst tr))
                       /\ index_ok ncls (snd tr))) triples ->
  accumulate nm ncls cm value triples = Raise IndexError.
Proof.
  intros Hex. revert cm.
  induction triples as [|[[mz tz] pz] rest IH]; intros cm; [inversion Hex|].
  cbn [accumulate].
  destruct (norm_index nm mz) as [m0|] eqn:Em; [|reflexivity].
  destruct (norm_index ncls tz) as [t0|] eqn:Et; [|reflexivity].
  destruct (norm_index ncls pz) as [p0|] eqn:Ep; [|reflexivity].
  apply IH. inversion Hex as [? ? Hh|? ? Ht]; subst; [|exact Ht].
  exfalso. apply Hh. cbn [fst snd]. unfold index_ok.
  pose proof (norm_index_lt _ _ Em). pose proof (norm_index_lt _ _ Et).
  pose proof (norm_index_lt _ _ Ep).
  unfold norm_index in Em, Et, Ep.
  destruct ((- Z.of_nat nm <=? mz)%Z && (mz <? Z.of_nat nm)%Z) eqn:E1; [|discriminate].
  destruct ((- Z.of_nat ncls <=? tz)%Z && (tz <? Z.of_nat ncls)%Z) eqn:E2;
    [|discriminate].
  destruct ((- Z.of_nat ncls <=? pz)%Z && (pz <? Z.of_nat ncls)%Z) eqn:E3;
    [|discriminate].
  apply andb_true_iff in E1, E2, E3.
  destruct E1 as [A1 B1], E2 as [A2 B2], E3 as [A3 B3].
  apply Z.leb_le in A1, A2, A3. apply Z.ltb_lt in B1, B2, B3. lia.
Qed.

Lemma index_triples_In (nm : nat) (targets : list Z) (predictions : list (list Z))
  (tr : Z * Z * Z) :
  length predictions = length targets ->
  In tr (index_triples (map Z.of_nat (seq 0 nm)) targets nm predictions
           (length targets) nm)
  <-> exists i j,
        i < length targets /\ j < nm
        /\ tr = (Z.of_nat j, nth i targets 0%Z, nth j (nth i predictions []) 0%Z).
Proof.
  intros Hlen. unfold index_triples. rewrite in_flat_map.
  assert (Har : forall j, j < nm ->
            nth (bidx (length (map Z.of_nat (seq 0 nm))) j)
                (map Z.of_nat (seq 0 nm)) 0%Z = Z.of_nat j).
  { intros j Hj. rewrite length_map, length_seq, bidx_small by exact Hj.
    change 0%Z with (Z.of_nat 0). rewrite map_nth, seq_nth by exact Hj.
    reflexivity. }
  split.
  - intros (i & Hi & Hin). apply in_seq in Hi. apply in_map_iff in Hin.
    destruct Hin as (j & <- & Hj). apply in_seq in Hj.
    exists i, j. split; [lia|]. split; [lia|].
    rewrite (Har j) by lia. rewrite Hlen, !bidx_small by lia. reflexivity.
  - intros (i & j & Hi & Hj & ->). exists i. split; [apply in_seq; lia|].
    apply in_map_iff. exists j. split; [|apply in_seq; lia].
    rewrite (Har j) by lia. rewrite Hlen, !bidx_small by lia. reflexivity.
Qed.

(** The indices [update] accepts. For an accumulator as [__init__]
    builds it and [update] keeps it, and a batch with one target per row
    of class indices [q] and one column per model, on any devices:
    [update] returns when every target and every prediction lies in
    [-n_classes .. n_classes-1], and raises [IndexError] when one of them
    does not. *)
Theorem update_index_range (score : Type) (score_ltb : score -> score -> bool)
  (self : MultiConfusionMatrix) (predictions : Predictions score)
  (q : ITensor2) (targets : ITensor1) :
  mcm_wf self ->
  argmax_last score_ltb predictions = Ok q ->
  length (it2_data q) = length (it1_data targets) ->
  it2_cols q = n_models self ->
  ((forall i j, i < length (it1_data targets) -> j < n_models self ->
      index_ok (n_classes self) (nth i (it1_data targets) 0%Z)
      /\ index_ok (n_classes self) (nth j (nth i (it2_data q) []) 0%Z)) ->
   exists self', update score_ltb self predictions targets = Ok self')
  /\ (forall i j, i < length (it1_data targets) -> j < n_models self ->
        ~ (index_ok (n_classes self) (nth i (it1_data targets) 0%Z)
           /\ index_ok (n_classes self) (nth j (nth i (it2_data q) []) 0%Z)) ->
        update score_ltb self predictions targets = Raise IndexError).
Proof.
  intros (Hdev & Har & Hone & Hshape & Hint) Hq Hlen Hcols.
  unfold update. rewrite Hq. cbn [bind].
  set (q' := if negb (device_eqb (it2_device q) (device self))
             then mkITensor2 (device self) (it2_cols q) (it2_data q) else q).
  assert (Hq' : it2_cols q' = it2_cols q /\ it2_data q' = it2_data q)
    by (subst q'; now destruct (negb _)).
  destruct Hq' as (Hc' & Hd').
  unfold index_put_accumulate, it1_to, it2_to.
  cbn [it1_data it2_cols it2_data].
  rewrite Hd', Hlen, broadcast_dim_same.
  rewrite Har, length_map, length_seq, Hc', Hcols, broadcast_dim_same.
  split.
  - intros Hok.
    destruct (@accumulate_returns (n_models self) (n_classes self) (one self)
                (index_triples (map Z.of_nat (seq 0 (n_models self)))
                   (it1_data targets) (n_models self) (it2_data q)
                   (length (it1_data targets)) (n_models self)) (cm self))
      as [cm' Hcm'].
    + apply Forall_forall. intros tr Htr.
      apply (index_triples_In _ _ _ _ Hlen) in Htr.
      destruct Htr as (i & j & Hi & Hj & ->). cbn [fst snd].
      destruct (Hok i j Hi Hj) as [Ht Hp].
      split; [unfold index_ok; lia|]. split; [exact Ht | exact Hp].
    + rewrite Hcm'. cbn [bind]. eexists. reflexivity.
  - intros i j Hi Hj Hbad.
    rewrite accumulate_raises; [reflexivity|].
    apply Exists_exists.
    exists (Z.of_nat j, nth i (it1_data targets) 0%Z,
            nth j (nth i (it2_data q) []) 0%Z).
    split.
    + apply (index_triples_In _ _ _ _ Hlen). exists i, j.
      split; [exact Hi|]. split; [exact Hj | reflexivity].
    + cbn [fst snd]. intros (_ & Ht & Hp). apply Hbad. split; assumption.
Qed.

Lemma update_index_range_witness :
  (exists self',
     update Z.ltb (MultiConfusionMatrix_init 2 3 cpu)
       (ClassIndices Z (mkITensor2 cpu 2 [[0; 2]; [-3; 1]]%Z))
       (mkITensor1 cpu [0; -1]%Z) = Ok self')
  /\ update Z.ltb (MultiConfusionMatrix_init 2 3 cpu)
       (ClassIndices Z (mkITensor2 cpu 2 [[0; 2]; [3; 1]]%Z))
       (mkITensor1 cpu [0; -1]%Z) = Raise IndexError.
Proof.
  split.
  - apply (@update_index_range Z Z.ltb (MultiConfusionMatrix_init 2 3 cpu)
             (ClassIndices Z (mkITensor2 cpu 2 [[0; 2]; [-3; 1]]%Z))
             (mkITensor2 cpu 2 [[0; 2]; [-3; 1]]%Z) (mkITensor1 cpu [0; -1]%Z)
             (init_wf 2 3 cpu) eq_refl eq_refl eq_refl).
    intros i j Hi Hj. cbn [it1_data length] in Hi. cbn [n_models MultiConfusionMatrix_init] in Hj.
    unfold index_ok.
    destruct i as [|[|i]]; [| |lia]; (destruct j as [|[|j]]; [| |lia]);
      cbn; lia.
  - apply (proj2 (@update_index_range Z Z.ltb (MultiConfusionMatrix_init 2 3 cpu)
             (ClassIndices Z (mkITensor2 cpu 2 [[0; 2]; [3; 1]]%Z))
             (mkITensor2 cpu 2 [[0; 2]; [3; 1]]%Z) (mkITensor1 cpu [0; -1]%Z)
             (init_wf 2 3 cpu) eq_refl eq_refl eq_refl) 1 0).
    + cbn. lia.
    + cbn. lia.
    + unfold index_ok. cbn. lia.
Defined.

(** ** When the Matthews coefficient is the literal *)

Lemma wrap_zero_iff (w z : Z) :
  (0 < w)%Z -> (wrap w z = 0%Z <-> (z mod 2 ^ w = 0)%Z).
Proof.
  intros Hw. pose proof (wrap_eqm z Hw) as He. unfold eqm in He. split.
  - intros H0. rewrite H0 in He. rewrite <- He. apply Zmod_0_l.
  - intros Hz.
    assert (E : eqm (2 ^ w) z 0) by (unfold eqm; rewrite Hz; symmetry; apply Zmod_0_l).
    rewrite (wrap_congr w E). unfold wrap.
    assert (Hp : (0 < 2 ^ (w - 1))%Z) by (apply Z.pow_pos_nonneg; lia).
    assert (H2 : (2 ^ w = 2 * 2 ^ (w - 1))%Z).
    { replace w with (Z.succ (w - 1)) at 1 by lia. apply Z.pow_succ_r. lia. }
    rewrite Z.add_0_l, Z.mod_small by lia. lia.
Qed.

(** The coefficient of model [m] is the literal exactly when the
    denominator is a multiple of [2^64]. *)
Lemma matthews_corrcoef_model_literal (self : MultiConfusionMatrix) (total : Z)
  (m : nat) :
  eqm (2 ^ 64) total (cm_total (cm self) (n_classes self) 0) ->
  matthews_corrcoef_model self total m = FLit_1e_9
  <-> (mcc_denominator self m mod 2 ^ 64 = 0)%Z.
Proof.
  intros HT. pose proof (invalid_mask_eqm self m HT) as Hmask.
  unfold matthews_corrcoef_model. cbv zeta.
  set (prod :=
         mul64
           (sub64 (mul64 total total)
              (sum64 (map2 mul64 (p_sum self m) (p_sum self m))))
           (sub64 (mul64 total total)
              (sum64 (map2 mul64 (t_sum self m) (t_sum self m))))) in *.
  assert (Hw : wrap 64 prod = prod) by (unfold prod, mul64; apply wrap_idem; lia).
  assert (Hiff : prod = 0%Z <-> (mcc_denominator self m mod 2 ^ 64 = 0)%Z).
  { rewrite <- Hw, (wrap_congr 64 Hmask). apply wrap_zero_iff. lia. }
  destruct (prod =? 0)%Z eqn:E.
  - apply Z.eqb_eq in E. split; [intros _; now apply Hiff | reflexivity].
  - apply Z.eqb_neq in E. split; [discriminate|].
    intros H. exfalso. apply E. now apply Hiff.
Qed.

(** When the Matthews coefficient is the literal. For every state of the
    count tensor and every model [m], [calculate_metrics] returns and the
    coefficient it reports for [m] is the literal [0.000000001] exactly
    when [(total^2 - sum of squared row sums) * (total^2 - sum of squared
    column sums)] is a multiple of [2^64]: when it is zero, and also when
    the 64-bit product the code tests wraps around to zero. *)
Theorem matthews_corrcoef_literal_iff (self : MultiConfusionMatrix) (m : nat) :
  m < n_models self ->
  exists mt,
    calculate_metrics self = Ok mt
    /\ (nth m (matthews_corrcoef mt) (FQuot 0 0) = FLit_1e_9
        <-> (mcc_denominator self m mod 2 ^ 64 = 0)%Z).
Proof.
  intros Hm.
  destruct (@calculate_metrics_fields self ltac:(lia)) as (mt & Hmt & Htotal & Hfields).
  exists mt. split; [exact Hmt|].
  destruct (Hfields m Hm) as (_ & Hmcc & _). rewrite Hmcc.
  apply matthews_corrcoef_model_literal.
  rewrite Htotal. apply total_samples_eqm.
Qed.

(** One model that is always right, on 32768 samples of class 0 and
    65536 of class 1: both factors of the denominator are [2^32], the
    64-bit product is zero, and the coefficient reported is the literal. *)
Lemma matthews_corrcoef_literal_iff_witness :
  exists mt,
    calculate_metrics
      (mkMultiConfusionMatrix 1 2 [ [[32768; 0]; [0; 65536]] ]%Z
         (mkITensor1 cpu [0%Z]) 1 cpu) = Ok mt
    /\ nth 0 (matthews_corrcoef mt) (FQuot 0 0) = FLit_1e_9
    /\ mcc_denominator
         (mkMultiConfusionMatrix 1 2 [ [[32768; 0]; [0; 65536]] ]%Z
            (mkITensor1 cpu [0%Z]) 1 cpu) 0 = (2 ^ 64)%Z.
Proof.
  destruct (@matthews_corrcoef_literal_iff
              (mkMultiConfusionMatrix 1 2 [ [[32768; 0]; [0; 65536]] ]%Z
                 (mkITensor1 cpu [0%Z]) 1 cpu) 0)
    as (mt & Hmt & Hiff); [simpl; lia|].
  exists mt. split; [exact Hmt|]. split.
  - apply Hiff. vm_compute. reflexivity.
  - vm_compute. reflexivity.
Defined.

(** ** The four counts of [calculate_metrics] *)

Lemma zsum_map_le (f g : nat -> Z) (n : nat) :
  (forall p, p < n -> (f p <= g p)%Z) ->
  (zsum (map f (seq 0 n)) <= zsum (map g (seq 0 n)))%Z.
Proof.
  induction n as [|n IH]; intros H; [simpl; lia|].
  rewrite seq_S, !map_app, !zsum_app. simpl.
  specialize (IH ltac:(intros p Hp; apply H; lia)).
  pose proof (H n ltac:(lia)). lia.
Qed.

(** With counts that are not negative, the entries of row [c] and of
    column [c] of a matrix add up to at most its total. *)
Lemma row_col_le_total (self : MultiConfusionMatrix) (m c : nat) :
  (forall m' t' p', (0 <= cm_at (cm self) m' t' p')%Z) ->
  c < n_classes self ->
  (0 <= row_sum self m c - cm_at (cm self) m c c
   /\ 0 <= col_sum self m c - cm_at (cm self) m c c
   /\ row_sum self m c + col_sum self m c - cm_at (cm self) m c c
      <= cm_total (cm self) (n_classes self) m)%Z.
Proof.
  intros Hnn Hc. unfold row_sum, col_sum, cm_total.
  set (n := n_classes self) in *.
  set (R := fun t => zsum (map (fun p => cm_at (cm self) m t p) (seq 0 n))).
  set (G := fun t => if (t =? c)%nat then 0%Z else R t).
  set (H := fun t => if (t =? c)%nat then 0%Z else cm_at (cm self) m t c).
  assert (HR : zsum (map R (seq 0 n)) = (zsum (map G (seq 0 n)) + R c)%Z).
  { apply (@zsum_map_bump G R c (R c) n Hc). intros t Ht. unfold G.
    destruct (t =? c) eqn:E; [apply Nat.eqb_eq in E; subst t|]; lia. }
  assert (HC : zsum (map (fun k => cm_at (cm self) m k c) (seq 0 n))
               = (zsum (map H (seq 0 n)) + cm_at (cm self) m c c)%Z).
  { apply (@zsum_map_bump H (fun k => cm_at (cm self) m k c) c
             (cm_at (cm self) m c c) n Hc).
    intros t Ht. unfold H.
    destruct (t =? c) eqn:E; [apply Nat.eqb_eq in E; subst t|]; lia. }
  assert (HGH : (zsum (map H (seq 0 n)) <= zsum (map G (seq 0 n)))%Z).
  { apply zsum_map_le. intros t Ht. unfold H, G.
    destruct (t =? c); [lia|]. unfold R.
    apply (@zsum_map_ge (fun p => cm_at (cm self) m t p) c n); [|exact Hc].
    intros p _. apply Hnn. }
  assert (H0 : (0 <= zsum (map H (seq 0 n)))%Z).
  { apply zsum_map_nonneg. intros t _. unfold H. destruct (t =? c); [lia|apply Hnn]. }
  assert (Hrc : (cm_at (cm self) m c c <= R c)%Z).
  { unfold R. apply (@zsum_map_ge (fun p => cm_at (cm self) m c p) c n); [|exact Hc].
    intros p _. apply Hnn. }
  fold (R c). change (zsum (map (fun t => zsum (map (fun p => cm_at (cm self) m t p)
                                                (seq 0 n))) (seq 0 n)))
    with (zsum (map R (seq 0 n))).
  rewrite HR, HC. lia.
Qed.

Lemma sub64_exact (a b : Z) :
  (- 2 ^ 63 <= a - b < 2 ^ 63)%Z -> sub64 a b = (a - b)%Z.
Proof.
  intros H. unfold sub64. apply wrap_small; [lia|].
  change (2 ^ (64 - 1))%Z with (2 ^ 63)%Z. exact H.
Qed.

(** The four counts of class [c] for model [m], in a state whose every
    model has seen [T] samples: no 64-bit operation wraps around. *)
Lemma metrics_counts_exact (self : MultiConfusionMatrix) (T : Z) (mt : Metrics)
  (m c : nat) :
  mcm_inv self T -> (0 <= T <= 2 ^ 31 - 1)%Z ->
  calculate_metrics self = Ok mt ->
  m < n_models self -> c < n_classes self ->
  nth c (nth m (tp mt) []) 0%Z = cm_at (cm self) m c c
  /\ nth c (nth m (fn mt) []) 0%Z = (row_sum self m c - cm_at (cm self) m c c)%Z
  /\ nth c (nth m (fp mt) []) 0%Z = (col_sum self m c - cm_at (cm self) m c c)%Z
  /\ nth c (nth m (tn mt) []) 0%Z
     = (T - row_sum self m c - col_sum self m c + cm_at (cm self) m c c)%Z.
Proof.
  intros Hinv HT Hmt Hm Hc.
  pose proof Hinv as (_ & _ & _ & Hnn & Htot).
  pose proof (@total_samples_exact self T Hinv ltac:(lia) HT) as Htotal.
  destruct (row_col_le_total self m Hnn Hc) as (Hr0 & Hc0 & Hrc).
  rewrite (Htot m Hm) in Hrc.
  pose proof (Hnn m c c) as Htp0.
  assert (H63 : (2 ^ 63 = 9223372036854775808)%Z) by reflexivity.
  assert (H31 : (2 ^ 31 = 2147483648)%Z) by reflexivity.
  assert (Hrow : sum64 (map (fun k => cm_at (cm self) m c k) (seq 0 (n_classes self)))
                 = row_sum self m c).
  { apply sum64_exact. fold (row_sum self m c). lia. }
  assert (Hcol : sum64 (map (fun k => cm_at (cm self) m k c) (seq 0 (n_classes self)))
                 = col_sum self m c).
  { apply sum64_exact. fold (col_sum self m c). lia. }
  unfold calculate_metrics in Hmt.
  destruct (n_models self) as [|n'] eqn:En; [lia|].
  apply (f_equal (fun r => match r with Ok x => x | Raise _ => mt end)) in Hmt.
  cbv beta iota in Hmt. subst mt.
  cbv beta iota zeta delta [tp fn fp tn].
  rewrite Htotal.
  assert (Etp : nth c (nth m (map (diagonal self) (seq 0 (S n'))) []) 0%Z
                = cm_at (cm self) m c c).
  { rewrite (nth_map_seq _ _ Hm). unfold diagonal. now rewrite (nth_map_seq _ _ Hc). }
  assert (Efn : nth c (nth m (map (fun m0 => map2 sub64 (t_sum self m0) (diagonal self m0))
                                  (seq 0 (S n'))) []) 0%Z
                = (row_sum self m c - cm_at (cm self) m c c)%Z).
  { rewrite (nth_map_seq _ _ Hm). unfold t_sum, diagonal.
    rewrite map2_map_same, (nth_map_seq _ _ Hc), Hrow.
    apply sub64_exact. lia. }
  assert (Efp : nth c (nth m (map (fun m0 => map2 sub64 (p_sum self m0) (diagonal self m0))
                                  (seq 0 (S n'))) []) 0%Z
                = (col_sum self m c - cm_at (cm self) m c c)%Z).
  { rewrite (nth_map_seq _ _ Hm). unfold p_sum, diagonal.
    rewrite map2_map_same, (nth_map_seq _ _ Hc), Hcol.
    apply sub64_exact. lia. }
  split; [exact Etp|]. split; [exact Efn|]. split; [exact Efp|].
  rewrite (nth_map_seq _ _ Hm), (nth_map_seq _ _ Hc).
  rewrite Etp, Efn, Efp.
  set (r := row_sum self m c) in *. set (k := col_sum self m c) in *.
  set (d := cm_at (cm self) m c c) in *.
  rewrite (@sub64_exact T (r - d)) by lia.
  rewrite (@sub64_exact (T - (r - d)) (k - d)) by lia.
  rewrite sub64_exact by lia. lia.
Qed.

(** The four counts of [calculate_metrics]. Starting from an empty
    accumulator with at least one model, after any run of [update] calls
    that returned, on batches with one target per row of predictions and
    one column per model, and as long as the number [N] of samples fits a
    [torch.int]: [calculate_metrics] returns, and for every model and
    class [c], [tp] is the diagonal cell, [fn] the rest of row [c], [fp]
    the rest of column [c], none of the four counts is negative, and
    [tp + fn + fp + tn = N]. *)
Theorem calculate_metrics_counts (score : Type) (score_ltb : score -> score -> bool)
  (nm ncls : nat) (dev : Device) (batches : list (Predictions score * ITensor1))
  (self : MultiConfusionMatrix) :
  run_updates score_ltb (MultiConfusionMatrix_init nm ncls dev) batches = Ok self ->
  Forall (fun pt => predictions_rows (fst pt) = length (it1_data (snd pt))
                    /\ predictions_models (fst pt) = nm) batches ->
  (Z.of_nat (batch_sizes batches) <= 2 ^ 31 - 1)%Z ->
  nm <> 0 ->
  exists mt,
    calculate_metrics self = Ok mt
    /\ total_samples mt = Z.of_nat (batch_sizes batches)
    /\ forall m c, m < nm -> c < ncls ->
         nth c (nth m (tp mt) []) 0%Z = cm_at (cm self) m c c
         /\ nth c (nth m (fn mt) []) 0%Z
            = (row_sum self m c - cm_at (cm self) m c c)%Z
         /\ nth c (nth m (fp mt) []) 0%Z
            = (col_sum self m c - cm_at (cm self) m c c)%Z
         /\ (0 <= nth c (nth m (tp mt) []) 0)%Z
         /\ (0 <= nth c (nth m (fn mt) []) 0)%Z
         /\ (0 <= nth c (nth m (fp mt) []) 0)%Z
         /\ (0 <= nth c (nth m (tn mt) []) 0)%Z
         /\ (nth c (nth m (tp mt) []) 0 + nth c (nth m (fn mt) []) 0
             + nth c (nth m (fp mt) []) 0 + nth c (nth m (tn mt) []) 0
             = Z.of_nat (batch_sizes batches))%Z.
Proof.
  intros Hrun Hall Hbound Hnm.
  destruct (@run_updates_inv score score_ltb batches
              (MultiConfusionMatrix_init nm ncls dev) self 0%Z
              (init_inv nm ncls dev) Hrun Hall ltac:(lia) ltac:(lia))
    as (Hinv & Hn & Hc).
  cbn [Z.add] in Hinv. cbn [MultiConfusionMatrix_init n_models n_classes] in Hn, Hc.
  destruct (@calculate_metrics_fields self ltac:(congruence))
    as (mt & Hmt & Htotal & _).
  exists mt. split; [exact Hmt|].
  assert (HT : (0 <= Z.of_nat (batch_sizes batches) <= 2 ^ 31 - 1)%Z) by lia.
  split.
  - rewrite Htotal. apply (@total_samples_exact self _ Hinv); [congruence | exact HT].
  - intros m c Hm Hcl.
    destruct (@metrics_counts_exact self _ mt m c Hinv HT Hmt
                ltac:(congruence) ltac:(congruence)) as (E1 & E2 & E3 & E4).
    pose proof Hinv as (_ & _ & _ & Hnn & Htot).
    destruct (@row_col_le_total self m c Hnn ltac:(congruence)) as (Hr0 & Hc0 & Hrc).
    rewrite (Htot m ltac:(congruence)) in Hrc.
    pose proof (Hnn m c c) as Htp0.
    rewrite E1, E2, E3, E4.
    repeat (split; [first [reflexivity | lia]|]). lia.
Qed.

Lemma calculate_metrics_counts_witness :
  exists mt,
    calculate_metrics
      (mkMultiConfusionMatrix 2 3
         [ [[1; 0; 0]; [0; 1; 0]; [0; 0; 0]]; [[0; 0; 1]; [0; 1; 0]; [0; 0; 0]] ]%Z
         (mkITensor1 cpu [0; 1]%Z) 1 cpu) = Ok mt
    /\ total_samples mt = 2%Z
    /\ (nth 0 (nth 1 (tp mt) []) 0 + nth 0 (nth 1 (fn mt) []) 0
        + nth 0 (nth 1 (fp mt) []) 0 + nth 0 (nth 1 (tn mt) []) 0 = 2)%Z.
Proof.
  destruct (@calculate_metrics_counts Z Z.ltb 2 3 cpu
              [ (ClassIndices Z (mkITensor2 cpu 2 [[0; 2]]%Z), mkITensor1 cpu [0%Z]);
                (ClassIndices Z (mkITensor2 cpu 2 [[1; 1]]%Z), mkITensor1 cpu [1%Z]) ]
              (mkMultiConfusionMatrix 2 3
                 [ [[1; 0; 0]; [0; 1; 0]; [0; 0; 0]]; [[0; 0; 1]; [0; 1; 0]; [0; 0; 0]] ]%Z
                 (mkITensor1 cpu [0; 1]%Z) 1 cpu))
    as (mt & Hmt & Htotal & Hcounts).
  - vm_compute. reflexivity.
  - repeat constructor.
  - vm_compute. discriminate.
  - discriminate.
  - exists mt. split; [exact Hmt|]. split; [exact Htotal|].
    destruct (Hcounts 1 0 ltac:(lia) ltac:(lia)) as (_ & _ & _ & _ & _ & _ & _ & H).
    exact H.
Defined.

(** ** Metrics before any sample *)

Lemma sum64_zeros (n : nat) : sum64 (map (fun _ : nat => 0%Z) (seq 0 n)) = 0%Z.
Proof.
  rewrite sum64_exact; rewrite zsum_zero; [reflexivity|].
  change (2 ^ 63)%Z with 9223372036854775808%Z. lia.
Qed.

(** Metrics before any sample. [calculate_metrics] on an accumulator for
    no model raises [IndexError] ([self.cm[0]]). On a new accumulator for
    at least one model it returns: [total_samples] is 0, the accuracy of
    every model is the quotient [0 / 0], and the Matthews coefficient of
    every model is the literal [0.000000001]. *)
Theorem calculate_metrics_fresh (n ncls : nat) (dev : Device) :
  calculate_metrics (MultiConfusionMatrix_init 0 ncls dev) = Raise IndexError
  /\ exists mt,
       calculate_metrics (MultiConfusionMatrix_init (S n) ncls dev) = Ok mt
       /\ total_samples mt = 0%Z
       /\ forall m, m < S n ->
            nth m (overall_acc mt) (FQuot 0 0) = FQuot 0 0
            /\ nth m (matthews_corrcoef mt) (FQuot 0 0) = FLit_1e_9.
Proof.
  split; [reflexivity|].
  set (self := MultiConfusionMatrix_init (S n) ncls dev).
  pose proof (init_inv (S n) ncls dev) as Hinv. fold self in Hinv.
  destruct (@calculate_metrics_fields self ltac:(discriminate))
    as (mt & Hmt & Htotal & Hfields).
  assert (HT : total_samples mt = 0%Z).
  { rewrite Htotal. apply (@total_samples_exact self 0%Z Hinv); [discriminate|].
    change (2 ^ 31)%Z with 2147483648%Z. lia. }
  assert (Hcell : forall m t p, cm_at (cm self) m t p = 0%Z)
    by (intros m t p; apply cm_at_zeros).
  exists mt. split; [exact Hmt|]. split; [exact HT|].
  intros m Hm. destruct (Hfields m Hm) as (Hacc & Hmcc & _). split.
  - rewrite Hacc, HT. f_equal. unfold diagonal.
    rewrite (map_ext _ (fun _ => 0%Z)) by (intros c; apply Hcell).
    apply sum64_zeros.
  - rewrite Hmcc. apply matthews_corrcoef_model_literal.
    + rewrite Htotal. apply total_samples_eqm.
    + assert (Hrow : forall c, row_sum self m c = 0%Z).
      { intros c. unfold row_sum.
        rewrite (map_ext _ (fun _ => 0%Z)) by (intros k; apply Hcell).
        apply zsum_zero. }
      unfold mcc_denominator. cbv zeta.
      destruct Hinv as (_ & _ & _ & _ & Htot).
      rewrite (Htot 0) by (cbn; lia).
      rewrite (map_ext (fun c => (row_sum self m c ^ 2)%Z) (fun _ => 0%Z))
        by (intros c; now rewrite Hrow).
      rewrite zsum_zero. reflexivity.
Qed.
